(** * Lazy-loading node cache of cosdata: a shallow embedding

    This development models [src/models/cache_loader.rs] (the generic
    [NodeRegistry], the [DenseIndexCache] and the [InvertedIndexCache]) and
    the chunked serializers [src/models/serializer/lazy_item_vec.rs] and
    [src/models/serializer/lazy_item_map.rs].

    Conventions.
    - Machine integers ([u16], [u32], [u64]) are [Z] values; the Rust casts
      and shifts are written out with their wrap-around.
    - Effects are explicit state passing in a small state/error monad [M];
      its outcomes are a value, a [BufIoError] (side effects before the [?]
      persist, so an error carries the state), a panic ([unwrap] on [None])
      and [Diverge] for a spin loop that never exits in a single-threaded run.
    - Hash maps, hash sets and the LRU registries are stdpp [gmap]s and
      [gset]s. *)

From Stdlib Require Import ZArith Lia.
From stdpp Require Import base gmap sets list.

Local Open Scope Z_scope.

(* ------------------------------------------------------------------ *)
(** ** Machine integers *)

Definition u16_MAX : Z := 2 ^ 16 - 1.
Definition u32_MAX : Z := 2 ^ 32 - 1.
Definition u64_MAX : Z := 2 ^ 64 - 1.

(** [x as u32] for a wider unsigned value. *)
Definition as_u32 (x : Z) : Z := x mod 2 ^ 32.

(** A [u64] result of [<<]: the bits shifted past bit 63 are dropped. *)
Definition wrap64 (x : Z) : Z := x mod 2 ^ 64.

(* ------------------------------------------------------------------ *)
(** ** File indices and errors *)

(** [FileOffset(pub u32)] *)
Record FileOffset : Type := MkFileOffset { fo_0 : Z }.

(** [FileIndex]: a persisted location, or the sentinel [Invalid].  The
    [version_id] is a [Hash], a newtype over [u32]. *)
Inductive FileIndex : Type :=
  | Valid (offset : FileOffset) (version_number : Z) (version_id : Z)
  | Invalid.

(** [file_index == FileIndex::Invalid] *)
Definition is_Invalid (fi : FileIndex) : bool :=
  match fi with Invalid => true | Valid _ _ _ => false end.

(** [BufIoError]: the buffered-I/O error kinds the code produces. *)
Inductive BufIoError : Type :=
  | InvalidInput            (** [io::ErrorKind::InvalidInput] *)
  | InvalidData             (** [io::ErrorKind::InvalidData] *)
  | UnexpectedEof           (** a read past the written bytes *)
  | NoCursor                (** an operation on a closed cursor *)
  | LoadError (code : Z).   (** an error raised by a payload deserializer *)

(* ------------------------------------------------------------------ *)
(** ** The state/error monad *)

Inductive outcome (S A : Type) : Type :=
  | Ok (a : A) (s : S)
  | Err (e : BufIoError) (s : S)
  | Panic
  | Diverge.
Arguments Ok {S A} a s.
Arguments Err {S A} e s.
Arguments Panic {S A}.
Arguments Diverge {S A}.

Definition M (S A : Type) : Type := S -> outcome S A.

Global Instance M_ret S : MRet (M S) := fun A a s => Ok a s.
Global Instance M_bind S : MBind (M S) := fun A B f c s =>
  match c s with
  | Ok a s' => f a s'
  | Err e s' => Err e s'
  | Panic => Panic
  | Diverge => Diverge
  end.

Definition throw {S A} (e : BufIoError) : M S A := fun s => Err e s.
Definition get_st {S} : M S S := fun s => Ok s s.
Definition put_st {S} (s : S) : M S unit := fun _ => Ok tt s.
Definition modify_st {S} (f : S -> S) : M S unit := fun s => Ok tt (f s).
Definition panic {S A} : M S A := fun _ => Panic.
Definition diverge {S A} : M S A := fun _ => Diverge.

(** [opt.unwrap()] *)
Definition unwrap {S A} (o : option A) : M S A :=
  match o with Some a => mret a | None => panic end.

(* ------------------------------------------------------------------ *)
(** ** The buffer manager *)

(** Modelled from the spec: [BufferManager] of [buffered_io.rs] (not among
    the sources), through the interface of §6: a byte file with cursors,
    [open_cursor]/[close_cursor], [seek_with_cursor], [cursor_position],
    [read_uN_with_cursor]/[update_uN_with_cursor] (little-endian, §6) and
    [read_with_cursor]/[update_with_cursor].  The file is a map from
    positions to bytes; a read of a byte never written fails.  A
    [BufferManagerFactory] hands out one such file per version; the
    serializers below read and write a single version's file. *)
Record BufMan : Type := MkBufMan {
  bm_mem : gmap Z Z;          (** byte at each written position *)
  bm_cursors : gmap Z Z;      (** open cursor -> its position *)
  bm_next_cursor : Z          (** id of the next cursor opened *)
}.

(** Modelled from the spec: little-endian encoding of an [n]-byte value. *)
Fixpoint le_bytes (n : nat) (v : Z) : list Z :=
  match n with
  | O => []
  | S n' => v mod 256 :: le_bytes n' (v / 256)
  end.

(** Modelled from the spec: the value of little-endian bytes. *)
Fixpoint le_value (bs : list Z) : Z :=
  match bs with
  | [] => 0
  | b :: bs' => b + 256 * le_value bs'
  end.

Fixpoint write_bytes (mem : gmap Z Z) (p : Z) (bs : list Z) : gmap Z Z :=
  match bs with
  | [] => mem
  | b :: bs' => write_bytes (<[p := b]> mem) (p + 1) bs'
  end.

Fixpoint read_bytes (mem : gmap Z Z) (p : Z) (n : nat) : option (list Z) :=
  match n with
  | O => Some []
  | S n' =>
      match mem !! p, read_bytes mem (p + 1) n' with
      | Some b, Some bs => Some (b :: bs)
      | _, _ => None
      end
  end.

Module BufferManager.
Definition set_pos (c p : Z) (bm : BufMan) : BufMan :=
  MkBufMan (bm_mem bm) (<[c := p]> (bm_cursors bm)) (bm_next_cursor bm).

(** Modelled from the spec: [open_cursor]; a fresh cursor at position 0. *)
Definition open_cursor : M BufMan Z := fun bm =>
  let c := bm_next_cursor bm in
  Ok c (MkBufMan (bm_mem bm) (<[c := 0]> (bm_cursors bm)) (c + 1)).

(** Modelled from the spec: [close_cursor]. *)
Definition close_cursor (c : Z) : M BufMan unit := fun bm =>
  match bm_cursors bm !! c with
  | Some _ => Ok tt (MkBufMan (bm_mem bm) (delete c (bm_cursors bm)) (bm_next_cursor bm))
  | None => Err NoCursor bm
  end.

(** Modelled from the spec: [cursor_position]. *)
Definition cursor_position (c : Z) : M BufMan Z := fun bm =>
  match bm_cursors bm !! c with
  | Some p => Ok p bm
  | None => Err NoCursor bm
  end.

(** Modelled from the spec: [seek_with_cursor]. *)
Definition seek_with_cursor (c p : Z) : M BufMan unit := fun bm =>
  match bm_cursors bm !! c with
  | Some _ => Ok tt (set_pos c p bm)
  | None => Err NoCursor bm
  end.

(** Modelled from the spec: [update_with_cursor]; writes at the cursor and
    moves it past the bytes written. *)
Definition update_with_cursor (c : Z) (bs : list Z) : M BufMan unit := fun bm =>
  match bm_cursors bm !! c with
  | Some p =>
      Ok tt (MkBufMan (write_bytes (bm_mem bm) p bs)
                      (<[c := p + Z.of_nat (length bs)]> (bm_cursors bm))
                      (bm_next_cursor bm))
  | None => Err NoCursor bm
  end.

(** Modelled from the spec: [read_with_cursor]; fills [n] bytes. *)
Definition read_with_cursor (c : Z) (n : nat) : M BufMan (list Z) := fun bm =>
  match bm_cursors bm !! c with
  | Some p =>
      match read_bytes (bm_mem bm) p n with
      | Some bs => Ok bs (set_pos c (p + Z.of_nat n) bm)
      | None => Err UnexpectedEof bm
      end
  | None => Err NoCursor bm
  end.

Definition update_u16_with_cursor (c v : Z) : M BufMan unit :=
  update_with_cursor c (le_bytes 2 v).
Definition update_u32_with_cursor (c v : Z) : M BufMan unit :=
  update_with_cursor c (le_bytes 4 v).
Definition read_u16_with_cursor (c : Z) : M BufMan Z :=
  bs ← read_with_cursor c 2; mret (le_value bs).
Definition read_u32_with_cursor (c : Z) : M BufMan Z :=
  bs ← read_with_cursor c 4; mret (le_value bs).
End BufferManager.

Import BufferManager.

(* ------------------------------------------------------------------ *)
(** ** The chunked serializer (lazy_item_vec.rs, lazy_item_map.rs) *)

(** The fixed-size fields of a slot, and their kinds when read back. *)
Inductive field : Type := F16 (v : Z) | F32 (v : Z).
Inductive field_kind : Type := K16 | K32.

Definition write_field (c : Z) (f : field) : M BufMan unit :=
  match f with
  | F16 v => update_u16_with_cursor c v
  | F32 v => update_u32_with_cursor c v
  end.

Fixpoint write_fields (c : Z) (fs : list field) : M BufMan unit :=
  match fs with
  | [] => mret tt
  | f :: fs' => write_field c f;; write_fields c fs'
  end.

Definition read_field (c : Z) (k : field_kind) : M BufMan Z :=
  match k with
  | K16 => read_u16_with_cursor c
  | K32 => read_u32_with_cursor c
  end.

Fixpoint read_fields (c : Z) (ks : list field_kind) : M BufMan (list Z) :=
  match ks with
  | [] => mret []
  | k :: ks' => v ← read_field c k; vs ← read_fields c ks'; mret (v :: vs)
  end.

(** [for _ in 0..n { body }] *)
Fixpoint repeat_m {S} (n : nat) (body : M S unit) : M S unit :=
  match n with
  | O => mret tt
  | S n' => body;; repeat_m n' body
  end.

(** The chunks visited by [for chunk_start in (0..total_items).step_by(CHUNK_SIZE)]:
    [items[chunk_start..chunk_end]] with [chunk_end = min(chunk_start +
    CHUNK_SIZE, total_items)]. *)
Fixpoint chunk_list {A} (chunk_size fuel : nat) (xs : list A) : list (list A) :=
  match fuel with
  | O => []
  | S fuel' =>
      match xs with
      | [] => []
      | _ :: _ => take chunk_size xs :: chunk_list chunk_size fuel' (drop chunk_size xs)
      end
  end.

Definition chunks {A} (chunk_size : nat) (xs : list A) : list (list A) :=
  chunk_list chunk_size (length xs) xs.

(** The two [CustomSerialize] impls of [LazyItemVec] and [LazyItemMap] run
    the same chunk loop; they differ in the slot: its width in bytes, the
    empty-slot placeholder, how an entry is serialized into the slot's
    fields, and how a slot's fields are deserialized into an entry.  Both
    mark an empty slot by [u32::MAX] in the slot's first field. *)
Section Chunked.
Context {E : Type}.
Variable chunk_size : nat.                      (** [CHUNK_SIZE] *)
Variable slot_width : Z.                        (** 10 or 14 *)
Variable placeholder : list field.              (** the empty slot *)
Variable slot_layout : list field_kind.         (** the slot's fields *)
(** serialize one entry at the cursor, returning its slot's fields *)
Variable ser_entry : E -> Z -> M BufMan (list field).
(** deserialize one entry from its slot's fields; the container's
    [version_number] and [version_id] come first *)
Variable de_entry : Z -> Z -> list Z -> M BufMan E.

(** [for i in chunk_start..chunk_end { ... }]: serialize item [i], then
    patch its slot at [placeholder_start + (i - chunk_start) * slot_width]. *)
Fixpoint ser_slots (cursor placeholder_start j : Z) (es : list E) : M BufMan unit :=
  match es with
  | [] => mret tt
  | e :: es' =>
      fields ← ser_entry e cursor;
      let placeholder_pos := placeholder_start + j * slot_width in
      current_pos ← cursor_position cursor;
      seek_with_cursor cursor placeholder_pos;;
      write_fields cursor fields;;
      seek_with_cursor cursor current_pos;;
      ser_slots cursor placeholder_start (j + 1) es'
  end.

(** One iteration of the chunk loop of [serialize]. *)
Definition ser_chunk (cursor : Z) (chunk : list E) (is_last_chunk : bool) : M BufMan unit :=
  p ← cursor_position cursor;
  let placeholder_start := as_u32 p in
  repeat_m chunk_size (write_fields cursor placeholder);;
  q ← cursor_position cursor;
  let next_chunk_placeholder := as_u32 q in
  update_u32_with_cursor cursor u32_MAX;;
  ser_slots cursor placeholder_start 0 chunk;;
  r ← cursor_position cursor;
  let next_chunk_start := as_u32 r in
  seek_with_cursor cursor next_chunk_placeholder;;
  (if is_last_chunk then update_u32_with_cursor cursor u32_MAX
   else update_u32_with_cursor cursor next_chunk_start);;
  seek_with_cursor cursor next_chunk_start.

(** [is_last_chunk = chunk_end == total_items]: no chunk follows. *)
Fixpoint ser_chunks (cursor : Z) (cs : list (list E)) : M BufMan unit :=
  match cs with
  | [] => mret tt
  | ch :: rest =>
      ser_chunk cursor ch (match rest with [] => true | _ :: _ => false end);;
      ser_chunks cursor rest
  end.

(** [serialize]: an empty collection is the offset [u32::MAX], nothing
    written; otherwise the chunks follow from the cursor position. *)
Definition chunked_serialize (xs : list E) (cursor : Z) : M BufMan Z :=
  match xs with
  | [] => mret u32_MAX
  | _ :: _ =>
      p ← cursor_position cursor;
      let start_offset := as_u32 p in
      ser_chunks cursor (chunks chunk_size xs);;
      mret start_offset
  end.

(** [for i in 0..CHUNK_SIZE { ... }] of [deserialize]: read slot [i];
    an empty slot is skipped ([continue]), any other is deserialized and
    pushed. *)
Fixpoint de_slots (vn vid : Z) (cursor current_chunk : Z) (idx : list nat)
    : M BufMan (list E) :=
  match idx with
  | [] => mret []
  | i :: idx' =>
      seek_with_cursor cursor (current_chunk + Z.of_nat i * slot_width);;
      vals ← read_fields cursor slot_layout;
      if bool_decide (head vals = Some u32_MAX)
      then de_slots vn vid cursor current_chunk idx'
      else (e ← de_entry vn vid vals;
            rest ← de_slots vn vid cursor current_chunk idx';
            mret (e :: rest))
  end.

(** The [loop] of [deserialize], following next-chunk links until
    [u32::MAX].  A chain of links that never reaches [u32::MAX] never
    ends; [fuel] bounds the iterations and running out is [Diverge]. *)
Fixpoint de_chunks (fuel : nat) (vn vid : Z) (cursor current_chunk : Z)
    : M BufMan (list E) :=
  match fuel with
  | O => fun _ => Diverge
  | S fuel' =>
      items ← de_slots vn vid cursor current_chunk (seq 0 chunk_size);
      seek_with_cursor cursor (current_chunk + Z.of_nat chunk_size * slot_width);;
      next ← read_u32_with_cursor cursor;
      if bool_decide (next = u32_MAX) then mret items
      else (rest ← de_chunks fuel' vn vid cursor next; mret (items ++ rest))
  end.

(** [deserialize]: [Invalid] and the offset [u32::MAX] are the empty
    collection. *)
Definition chunked_deserialize (fuel : nat) (file_index : FileIndex) : M BufMan (list E) :=
  match file_index with
  | Invalid => mret []
  | Valid (MkFileOffset offset) version_number version_id =>
      if bool_decide (offset = u32_MAX) then mret []
      else (cursor ← open_cursor;
            seek_with_cursor cursor offset;;
            items ← de_chunks fuel version_number version_id cursor offset;
            close_cursor cursor;;
            mret items)
  end.
End Chunked.

(** Modelled from the spec: [CHUNK_SIZE] of [lazy_load.rs] (not among the
    sources), 256 by §8 S6. *)
Definition CHUNK_SIZE : nat := 256.

(** *** [LazyItemVec<T>] *)

(** The empty slot of a sequence: [u32::MAX, u16::MAX, u32::MAX]. *)
Definition vec_placeholder : list field := [F32 u32_MAX; F16 u16_MAX; F32 u32_MAX].
(** A sequence slot: [item_offset: u32, item_version_number: u16,
    item_version_id: u32], 10 bytes. *)
Definition vec_layout : list field_kind := [K32; K16; K32].

Section LazyItemVec.
Context {Item : Type}.
(** [LazyItem::serialize(bufmans, version, cursor)], returning the offset *)
Variable item_serialize : Item -> Z -> M BufMan Z.
(** [get_current_version_number] and [get_current_version] *)
Variable get_current_version_number : Item -> Z.
Variable get_current_version : Item -> Z.
(** [LazyItem::deserialize(bufmans, file_index, cache, max_loads, skipm)] *)
Variable item_deserialize : FileIndex -> M BufMan Item.

Definition vec_ser_entry (x : Item) (cursor : Z) : M BufMan (list field) :=
  item_offset ← item_serialize x cursor;
  mret [F32 item_offset; F16 (get_current_version_number x); F32 (get_current_version x)].

Definition vec_de_entry (_ _ : Z) (vals : list Z) : M BufMan Item :=
  match vals with
  | [item_offset; item_version_number; item_version_id] =>
      item_deserialize (Valid (MkFileOffset item_offset) item_version_number item_version_id)
  | _ => panic
  end.

(** [<LazyItemVec<T> as CustomSerialize>::serialize] *)
Definition LazyItemVec_serialize (xs : list Item) (cursor : Z) : M BufMan Z :=
  chunked_serialize CHUNK_SIZE 10 vec_placeholder vec_ser_entry xs cursor.

(** [<LazyItemVec<T> as CustomSerialize>::deserialize] *)
Definition LazyItemVec_deserialize (fuel : nat) (file_index : FileIndex) : M BufMan (list Item) :=
  chunked_deserialize CHUNK_SIZE 10 vec_layout vec_de_entry fuel file_index.
End LazyItemVec.

(** *** [IdentityMapKey] *)

(** [IdentityMapKey] (identity_collections.rs): a string key, kept as its
    UTF-8 bytes, or an integer key. *)
Inductive IdentityMapKey : Type :=
  | IMK_String (bytes : list Z)
  | IMK_Int (v : Z).

(** [const MSB: u32 = 1 << 31;] *)
Definition MSB : Z := Z.shiftl 1 31.

Section IdentityMapKeySer.
(** [String::from_utf8] succeeds exactly on valid UTF-8 (std library). *)
Variable from_utf8_ok : list Z -> bool.

(** [<IdentityMapKey as CustomSerialize>::serialize] *)
Definition IdentityMapKey_serialize (key : IdentityMapKey) (cursor : Z) : M BufMan Z :=
  p ← cursor_position cursor;
  let start := as_u32 p in
  match key with
  | IMK_String bytes =>
      let len := as_u32 (Z.of_nat (length bytes)) in
      update_u32_with_cursor cursor (Z.lor MSB len);;
      update_with_cursor cursor bytes
  | IMK_Int int => update_u32_with_cursor cursor int
  end;;
  mret start.

(** [<IdentityMapKey as CustomSerialize>::deserialize] *)
Definition IdentityMapKey_deserialize (file_index : FileIndex) : M BufMan IdentityMapKey :=
  match file_index with
  | Valid (MkFileOffset offset) _ _ =>
      cursor ← open_cursor;
      seek_with_cursor cursor offset;;
      num ← read_u32_with_cursor cursor;
      if bool_decide (Z.land num MSB = 0) then mret (IMK_Int num)
      else
        (* discard the most significant bit *)
        let len := Z.shiftr (as_u32 (Z.shiftl num 1)) 1 in
        bytes ← read_with_cursor cursor (Z.to_nat len);
        if from_utf8_ok bytes
        then (close_cursor cursor;; mret (IMK_String bytes))
        else throw InvalidData
  | Invalid => throw InvalidInput
  end.
End IdentityMapKeySer.

(** *** [LazyItemMap<T>] *)

Definition IdentityMapKey_eqb (k1 k2 : IdentityMapKey) : bool :=
  match k1, k2 with
  | IMK_String b1, IMK_String b2 => bool_decide (b1 = b2)
  | IMK_Int v1, IMK_Int v2 => bool_decide (v1 = v2)
  | _, _ => false
  end.

(** Modelled from the spec: [IdentityMap] of [identity_collections.rs] (not
    among the sources), a map with unique keys; kept as an association
    list in insertion order, an insert of a present key replacing its value. *)
Fixpoint identity_map_insert {V} (k : IdentityMapKey) (v : V)
    (m : list (IdentityMapKey * V)) : list (IdentityMapKey * V) :=
  match m with
  | [] => [(k, v)]
  | (k', v') :: m' =>
      if IdentityMapKey_eqb k k' then (k, v) :: m'
      else (k', v') :: identity_map_insert k v m'
  end.

(** Modelled from the spec: [IdentityMap::from_iter]. *)
Definition IdentityMap_from_iter {V} (items : list (IdentityMapKey * V)) : list (IdentityMapKey * V) :=
  fold_left (fun m kv => identity_map_insert kv.1 kv.2 m) items [].

(** The empty slot of a map: [u32::MAX, u32::MAX, u16::MAX, u32::MAX]. *)
Definition map_placeholder : list field := [F32 u32_MAX; F32 u32_MAX; F16 u16_MAX; F32 u32_MAX].
(** A map slot: [key_offset: u32, item_offset: u32, item_version_number: u16,
    item_version_id: u32], 14 bytes. *)
Definition map_layout : list field_kind := [K32; K32; K16; K32].

Section LazyItemMap.
Context {Item : Type}.
Variable from_utf8_ok : list Z -> bool.
Variable item_serialize : Item -> Z -> M BufMan Z.
Variable get_current_version_number : Item -> Z.
Variable get_current_version : Item -> Z.
Variable item_deserialize : FileIndex -> M BufMan Item.

Definition map_ser_entry (kv : IdentityMapKey * Item) (cursor : Z) : M BufMan (list field) :=
  key_offset ← IdentityMapKey_serialize kv.1 cursor;
  item_offset ← item_serialize kv.2 cursor;
  mret [F32 key_offset; F32 item_offset;
        F16 (get_current_version_number kv.2); F32 (get_current_version kv.2)].

(** the key is read with the map's own [version_number] and [version_id],
    the item with the slot's *)
Definition map_de_entry (version_number version_id : Z) (vals : list Z)
    : M BufMan (IdentityMapKey * Item) :=
  match vals with
  | [key_offset; item_offset; item_version_number; item_version_id] =>
      key ← IdentityMapKey_deserialize from_utf8_ok
              (Valid (MkFileOffset key_offset) version_number version_id);
      item ← item_deserialize
               (Valid (MkFileOffset item_offset) item_version_number item_version_id);
      mret (key, item)
  | _ => panic
  end.

(** [<LazyItemMap<T> as CustomSerialize>::serialize]; the map is given by
    its entries in iteration order. *)
Definition LazyItemMap_serialize (m : list (IdentityMapKey * Item)) (cursor : Z) : M BufMan Z :=
  chunked_serialize CHUNK_SIZE 14 map_placeholder map_ser_entry m cursor.

(** [<LazyItemMap<T> as CustomSerialize>::deserialize] *)
Definition LazyItemMap_deserialize (fuel : nat) (file_index : FileIndex)
    : M BufMan (list (IdentityMapKey * Item)) :=
  items ← chunked_deserialize CHUNK_SIZE 14 map_layout map_de_entry fuel file_index;
  mret (IdentityMap_from_iter items).
End LazyItemMap.

(* ------------------------------------------------------------------ *)
(** ** Lazy items and the typed cache item *)

(** Modelled from the spec: [LazyItem::Valid] of [lazy_load.rs] (not among
    the sources), with the fields the cache reads and writes; [data = None]
    is a pending item.  The persist/serialized flags, decay counter and
    version list are omitted. *)
Record LazyItem (T : Type) : Type := MkLazyItem {
  li_data : option T;
  li_file_index : option FileIndex;
  li_version_id : Z;
  li_version_number : Z
}.
Arguments MkLazyItem {T} _ _ _ _.
Arguments li_data {T} _.
Arguments li_file_index {T} _.

(** Stand-ins for the payload types of [define_cache_items!], defined
    outside these sources; only their being distinct types matters. *)
Inductive MergedNode := MergedNode_repr (repr : Z).
Inductive Storage := Storage_repr (repr : Z).
Inductive InvertedIndexItem (V : Type) := InvertedIndexItem_repr (repr : V).
Inductive Float32 := Float32_bits (bits : Z).
Inductive InvertedIndexSparseAnnNode := InvertedIndexSparseAnnNode_repr (repr : Z).
Inductive InvertedIndexSparseAnnNodeBasic := InvertedIndexSparseAnnNodeBasic_repr (repr : Z).
Inductive InvertedIndexSparseAnn := InvertedIndexSparseAnn_repr (repr : Z).
Inductive InvertedIndexSparseAnnNodeBasicDashMap := InvertedIndexSparseAnnNodeBasicDashMap_repr (repr : Z).
Inductive InvertedIndexNewDSNode := InvertedIndexNewDSNode_repr (repr : Z).
Inductive STM_VectorData := STM_VectorData_repr (repr : Z).

(** [enum CacheItem] generated by [define_cache_items!]. *)
Inductive CacheItem : Type :=
  | CacheItem_MergedNode (item : LazyItem MergedNode)
  | CacheItem_Storage (item : LazyItem Storage)
  | CacheItem_InvertedIndexItemWithStorage (item : LazyItem (InvertedIndexItem Storage))
  | CacheItem_Float (item : LazyItem Float32)
  | CacheItem_Unsigned32 (item : LazyItem Z)
  | CacheItem_InvertedIndexItemWithFloat (item : LazyItem (InvertedIndexItem Float32))
  | CacheItem_InvertedIndexSparseAnnNode (item : LazyItem InvertedIndexSparseAnnNode)
  | CacheItem_InvertedIndexSparseAnnNodeBasic (item : LazyItem InvertedIndexSparseAnnNodeBasic)
  | CacheItem_InvertedIndexSparseAnn (item : LazyItem InvertedIndexSparseAnn)
  | CacheItem_InvertedIndexSparseAnnNodeBasicDashMap (item : LazyItem InvertedIndexSparseAnnNodeBasicDashMap)
  | CacheItem_InvertedIndexNewDSNode (item : LazyItem InvertedIndexNewDSNode)
  | CacheItem_VectorData (item : LazyItem STM_VectorData).

(** [trait Cacheable] *)
Class Cacheable (T : Type) := {
  from_cache_item : CacheItem -> option (LazyItem T);
  into_cache_item : LazyItem T -> CacheItem
}.

(** The impls generated by [define_cache_items!]: [from_cache_item] is
    [Some] on its own variant only. *)
#[export] Instance Cacheable_MergedNode : Cacheable MergedNode := {
  from_cache_item ci := match ci with CacheItem_MergedNode i => Some i | _ => None end;
  into_cache_item := CacheItem_MergedNode }.
#[export] Instance Cacheable_Storage : Cacheable Storage := {
  from_cache_item ci := match ci with CacheItem_Storage i => Some i | _ => None end;
  into_cache_item := CacheItem_Storage }.
#[export] Instance Cacheable_InvertedIndexItemWithStorage : Cacheable (InvertedIndexItem Storage) := {
  from_cache_item ci := match ci with CacheItem_InvertedIndexItemWithStorage i => Some i | _ => None end;
  into_cache_item := CacheItem_InvertedIndexItemWithStorage }.
#[export] Instance Cacheable_Float : Cacheable Float32 := {
  from_cache_item ci := match ci with CacheItem_Float i => Some i | _ => None end;
  into_cache_item := CacheItem_Float }.
#[export] Instance Cacheable_Unsigned32 : Cacheable Z := {
  from_cache_item ci := match ci with CacheItem_Unsigned32 i => Some i | _ => None end;
  into_cache_item := CacheItem_Unsigned32 }.
#[export] Instance Cacheable_InvertedIndexItemWithFloat : Cacheable (InvertedIndexItem Float32) := {
  from_cache_item ci := match ci with CacheItem_InvertedIndexItemWithFloat i => Some i | _ => None end;
  into_cache_item := CacheItem_InvertedIndexItemWithFloat }.
#[export] Instance Cacheable_InvertedIndexSparseAnnNode : Cacheable InvertedIndexSparseAnnNode := {
  from_cache_item ci := match ci with CacheItem_InvertedIndexSparseAnnNode i => Some i | _ => None end;
  into_cache_item := CacheItem_InvertedIndexSparseAnnNode }.
#[export] Instance Cacheable_InvertedIndexSparseAnnNodeBasic : Cacheable InvertedIndexSparseAnnNodeBasic := {
  from_cache_item ci := match ci with CacheItem_InvertedIndexSparseAnnNodeBasic i => Some i | _ => None end;
  into_cache_item := CacheItem_InvertedIndexSparseAnnNodeBasic }.
#[export] Instance Cacheable_InvertedIndexSparseAnn : Cacheable InvertedIndexSparseAnn := {
  from_cache_item ci := match ci with CacheItem_InvertedIndexSparseAnn i => Some i | _ => None end;
  into_cache_item := CacheItem_InvertedIndexSparseAnn }.
#[export] Instance Cacheable_InvertedIndexSparseAnnNodeBasicDashMap : Cacheable InvertedIndexSparseAnnNodeBasicDashMap := {
  from_cache_item ci := match ci with CacheItem_InvertedIndexSparseAnnNodeBasicDashMap i => Some i | _ => None end;
  into_cache_item := CacheItem_InvertedIndexSparseAnnNodeBasicDashMap }.
#[export] Instance Cacheable_InvertedIndexNewDSNode : Cacheable InvertedIndexNewDSNode := {
  from_cache_item ci := match ci with CacheItem_InvertedIndexNewDSNode i => Some i | _ => None end;
  into_cache_item := CacheItem_InvertedIndexNewDSNode }.
#[export] Instance Cacheable_VectorData : Cacheable STM_VectorData := {
  from_cache_item ci := match ci with CacheItem_VectorData i => Some i | _ => None end;
  into_cache_item := CacheItem_VectorData }.

(** Modelled from the spec: [CachedValue] of [lru_cache.rs] (not among the
    sources), the result of [get_or_insert] (§4.1). *)
Inductive CachedValue (V : Type) : Type :=
  | Hit (v : V)
  | Miss (v : V).
Arguments Hit {V} v.
Arguments Miss {V} v.

(** Modelled from the spec: [LRUCache::get_or_insert] (§4.1) on a registry
    kept as a map; an existing entry wins and the new value is dropped.
    Probabilistic eviction is not modelled. *)
Definition lru_get_or_insert {V} (k : Z) (v : V) (reg : gmap Z V) : CachedValue V * gmap Z V :=
  match reg !! k with
  | Some w => (Hit w, reg)
  | None => (Miss v, <[k := v]> reg)
  end.

(** Modelled from the spec: [ProbLazyItem] of [prob_lazy_load] (not among
    the sources): a pending item, or a ready one with its data (§3). *)
Inductive ProbLazyItemState (T : Type) : Type :=
  | PL_Pending (file_index : FileIndex)
  | PL_Ready (data : T) (file_offset : FileOffset) (version_id version_number : Z).
Arguments PL_Pending {T} _.
Arguments PL_Ready {T} _ _ _ _.

Record ProbLazyItem (T : Type) : Type := MkProbLazyItem {
  pli_state : ProbLazyItemState T;
  pli_is_level_0 : bool
}.
Arguments MkProbLazyItem {T} _ _.
Arguments pli_state {T} _.

(** [ProbLazyItem::new_pending] and [ProbLazyItem::new_from_state] *)
Definition new_pending {T} (file_index : FileIndex) (is_level_0 : bool) : ProbLazyItem T :=
  MkProbLazyItem (PL_Pending file_index) is_level_0.
Definition new_from_state {T} (st : ProbLazyItemState T) (is_level_0 : bool) : ProbLazyItem T :=
  MkProbLazyItem st is_level_0.

(** The per-key load mutexes [Arc<Mutex<bool>>], by identity: a heap from
    mutex id to its inner completion flag. *)
Record Mutexes : Type := MkMutexes { mx_flags : gmap Z bool; mx_next : Z }.

(** [TSHashTable::get_or_create(key, || Arc::new(Mutex::new(false)))] on a
    table from keys to mutex ids. *)
Definition get_or_create (tbl : gmap Z Z) (mx : Mutexes) (k : Z) : Z * gmap Z Z * Mutexes :=
  match tbl !! k with
  | Some m => (m, tbl, mx)
  | None =>
      let m := mx_next mx in
      (m, <[k := m]> tbl, MkMutexes (<[m := false]> (mx_flags mx)) (m + 1))
  end.

(** [*load_complete] for a held mutex, and [*load_complete = true]. *)
Definition flag_of (mx : Mutexes) (m : Z) : bool :=
  match mx_flags mx !! m with Some b => b | None => false end.
Definition set_flag (mx : Mutexes) (m : Z) : Mutexes :=
  MkMutexes (<[m := true]> (mx_flags mx)) (mx_next mx).

(** A public entry point's fresh skip set [let mut skipm = HashSet::new()],
    dropped when the call returns. *)
Definition with_fresh_skipm {S A} (c : M (S * gset Z) A) : M S A := fun s =>
  match c (s, ∅) with
  | Ok a (s', _) => Ok a s'
  | Err e (s', _) => Err e s'
  | Panic => Panic
  | Diverge => Diverge
  end.

(** A call run with the skip set [sk], dropped when it returns. *)
Definition with_skipm {S A} (sk : gset Z) (c : M (S * gset Z) A) : M S A := fun s =>
  match c (s, sk) with
  | Ok a (s', _) => Ok a s'
  | Err e (s', _) => Err e s'
  | Panic => Panic
  | Diverge => Diverge
  end.

(* ------------------------------------------------------------------ *)
(** ** [NodeRegistry]: the generic typed cache *)

Module NodeRegistry.
(** [NodeRegistry::combine_index] *)
Definition combine_index (fi : FileIndex) : Z :=
  match fi with
  | Valid (MkFileOffset off) _ version_id =>
      Z.lor (wrap64 (Z.shiftl off 32)) version_id
  | Invalid => u64_MAX
  end.

(** The shared state: the cuckoo filter (as the set of keys inserted) and
    the registry. *)
Record state : Type := MkState {
  cuckoo_filter : gset Z;
  registry : gmap Z CacheItem
}.

(** The [LazyItem::Valid { data: None, file_index: Some(file_index), .. }]
    returned when the budget is spent or the key is on the skip set. *)
Definition pending_item {T} (file_index : FileIndex) (version_id version_number : Z) : LazyItem T :=
  MkLazyItem None (Some file_index) version_id version_number.

(** [(version_id, version_number)] of a [Valid] index, [(0, 0)] for
    [Invalid]. *)
Definition versions (file_index : FileIndex) : Z * Z :=
  match file_index with
  | Valid _ version_number version_id => (version_id, version_number)
  | Invalid => (0, 0)
  end.

(** The initial check: the cuckoo filter, then the registry, then the
    variant tag ([T::from_cache_item]). *)
Definition cached_lookup {T} `{Cacheable T} (st : state) (k : Z) : option (LazyItem T) :=
  if bool_decide (k ∈ cuckoo_filter st) then
    match registry st !! k with
    | Some obj => from_cache_item obj
    | None => None
    end
  else None.

Section GetObject.
Context {T : Type} `{Cacheable T}.
(** the [load_function] argument, called with the skip set threaded *)
Variable load_function : FileIndex -> Z -> M (state * gset Z) (LazyItem T).

(** [NodeRegistry::get_object] *)
Definition get_object (file_index : FileIndex) (max_loads : Z)
    : M (state * gset Z) (LazyItem T) :=
  let combined_index := combine_index file_index in
  '(st, skipm) ← get_st;
  match cached_lookup st combined_index with
  | Some item => mret item
  | None =>
      let '(version_id, version_number) := versions file_index in
      if bool_decide (max_loads = 0) then
        mret (pending_item file_index version_id version_number)
      else if bool_decide (combined_index ∈ skipm) then
        mret (pending_item file_index version_id version_number)
      else
        put_st (st, {[combined_index]} ∪ skipm);;
        item ← load_function file_index (max_loads - 1);
        '(st', skipm') ← get_st;
        let '(cached_item, reg') :=
          lru_get_or_insert combined_index (into_cache_item item) (registry st') in
        put_st (MkState (cuckoo_filter st') reg', skipm');;
        match cached_item with
        | Hit it => unwrap (from_cache_item it)
        | Miss it =>
            modify_st (fun '(s, sk) =>
              (MkState ({[combined_index]} ∪ cuckoo_filter s) (registry s), sk));;
            unwrap (from_cache_item it)
        end
  end.
End GetObject.

(** [NodeRegistry::load_item]: [T::deserialize] with a fresh skip set and
    [max_loads = 1000], after rejecting [Invalid]. *)
Definition load_item {T} (deserialize : FileIndex -> Z -> M (state * gset Z) T)
    (file_index : FileIndex) : M state T :=
  if is_Invalid file_index then throw InvalidInput
  else with_fresh_skipm (deserialize file_index 1000).
End NodeRegistry.

(* ------------------------------------------------------------------ *)
(** ** [DenseIndexCache] *)

Module DenseIndexCache.
(** [DenseIndexCache::combine_index] *)
Definition combine_index (fi : FileIndex) (is_level_0 : bool) : Z :=
  let level_bit := if is_level_0 then Z.shiftl 1 63 else 0 in
  match fi with
  | Valid (MkFileOffset off) _ version_id =>
      Z.lor (Z.lor (wrap64 (Z.shiftl off 32)) version_id) level_bit
  | Invalid => u64_MAX
  end.

(** The registry of [SharedNode]s ([*mut ProbLazyItem<ProbNode>]) and the
    single-flight table [loading_items]. *)
Record state (ProbNode : Type) : Type := MkState {
  registry : gmap Z (ProbLazyItem ProbNode);
  loading_items : gmap Z Z;
  mutexes : Mutexes
}.
Arguments MkState {ProbNode} _ _ _.
Arguments registry {ProbNode} _.
Arguments loading_items {ProbNode} _.
Arguments mutexes {ProbNode} _.

Section GetLazyObject.
Context {ProbNode : Type}.
Abbreviation SharedNode := (ProbLazyItem ProbNode).
Abbreviation St := (state ProbNode * gset Z)%type.
(** [ProbNode::deserialize(bufmans, file_index, self, max_loads, skipm,
    is_level_0)] *)
Variable prob_node_deserialize : FileIndex -> Z -> bool -> M St ProbNode.
(** bound on the iterations of the wait loop (see [Diverge]) *)
Variable spin_fuel : nat.

Definition lookup_registry (k : Z) : M St (option SharedNode) :=
  '(st, _) ← get_st; mret (registry st !! k).

Definition get_or_create_mutex (k : Z) : M St Z :=
  '(st, sk) ← get_st;
  let '(m, tbl, mx) := get_or_create (loading_items st) (mutexes st) k in
  put_st (MkState (registry st) tbl mx, sk);;
  mret m.

Definition load_complete (m : Z) : M St bool :=
  '(st, _) ← get_st; mret (flag_of (mutexes st) m).

(** The [loop] after locking: [inl item] is [return Ok(item)], [inr m]
    is [break] holding mutex [m]. *)
Fixpoint wait_loop (fuel : nat) (k m : Z) : M St (SharedNode + Z) :=
  found ← lookup_registry k;
  match found with
  | Some item => mret (inl item)
  | None =>
      completed ← load_complete m;
      if (completed : bool) then
        match fuel with
        | O => diverge
        | S fuel' => m' ← get_or_create_mutex k; wait_loop fuel' k m'
        end
      else mret (inr m)
  end.

(** [DenseIndexCache::get_lazy_object] *)
Definition get_lazy_object (file_index : FileIndex) (max_loads : Z) (is_level_0 : bool)
    : M St SharedNode :=
  let combined_index := combine_index file_index is_level_0 in
  found ← lookup_registry combined_index;
  match found with
  | Some item => mret item
  | None =>
      '(st, skipm) ← get_st;
      if bool_decide (max_loads = 0) then mret (new_pending file_index is_level_0)
      else if bool_decide (combined_index ∈ skipm) then mret (new_pending file_index is_level_0)
      else
        put_st (st, {[combined_index]} ∪ skipm);;
        m ← get_or_create_mutex combined_index;
        r ← wait_loop spin_fuel combined_index m;
        match r with
        | inl item => mret item
        | inr m =>
            let '(file_offset, version_number, version_id) :=
              match file_index with
              | Valid offset version_number version_id => (offset, version_number, version_id)
              | Invalid => (MkFileOffset 0, 0, 0)
              end in
            data ← prob_node_deserialize file_index (max_loads - 1) is_level_0;
            let item := new_from_state (PL_Ready data file_offset version_id version_number) is_level_0 in
            modify_st (fun '(s, sk) =>
              (MkState (<[combined_index := item]> (registry s)) (loading_items s)
                       (set_flag (mutexes s) m), sk));;
            modify_st (fun '(s, sk) =>
              (MkState (registry s) (delete combined_index (loading_items s)) (mutexes s), sk));;
            mret item
        end
  end.
End GetLazyObject.

(** [DenseIndexCache::load_item] *)
Definition load_item {S T} (deserialize : FileIndex -> Z -> bool -> M (S * gset Z) T)
    (file_index : FileIndex) (is_level_0 : bool) : M S T :=
  if is_Invalid file_index then throw InvalidInput
  else with_fresh_skipm (deserialize file_index 1000 is_level_0).
(** [DenseIndexCache::get_prop_key] *)
Definition get_prop_key (file_offset : FileOffset) (length : Z) : Z :=
  Z.lor (wrap64 (Z.shiftl (fo_0 file_offset) 32)) length.

(** The outcome of [self.batch_load_lock.try_lock()]. *)
Inductive TryLock : Type := Acquired | WouldBlock | Poisoned.

Section MoreLoads.
Context {ProbNode : Type}.
Variable prob_node_deserialize : FileIndex -> Z -> bool -> M (state ProbNode * gset Z) ProbNode.
Variable spin_fuel : nat.
(** [bufmans.get(version_id)?.file_size()], on [level_0_bufmans] or
    [bufmans] by the level flag *)
Variable file_size : bool -> Z -> M (state ProbNode) Z.

(** [DenseIndexCache::get_object]: [max_loads] is 1000 when the batch lock
    is acquired, 1 when it is held elsewhere; a poisoned lock panics. *)
Definition get_object (lock : TryLock) (file_index : FileIndex) (is_level_0 : bool)
    : M (state ProbNode) (ProbLazyItem ProbNode) :=
  match lock with
  | Acquired =>
      with_fresh_skipm (get_lazy_object prob_node_deserialize spin_fuel file_index 1000 is_level_0)
  | Poisoned => panic
  | WouldBlock =>
      with_fresh_skipm (get_lazy_object prob_node_deserialize spin_fuel file_index 1 is_level_0)
  end.

(** [DenseIndexCache::force_load_single_object] *)
Definition force_load_single_object (file_index : FileIndex) (is_level_0 : bool)
    : M (state ProbNode) (ProbLazyItem ProbNode) :=
  let combined_index := combine_index file_index is_level_0 in
  data ← with_skipm {[combined_index]} (prob_node_deserialize file_index 0 is_level_0);
  match file_index with
  | Valid file_offset version_number version_id =>
      let item := new_from_state (PL_Ready data file_offset version_id version_number) is_level_0 in
      modify_st (fun s => MkState (<[combined_index := item]> (registry s)) (loading_items s)
                                  (mutexes s));;
      mret item
  | Invalid => panic (* [unreachable!()] *)
  end.

(** The loop [for i in 0..1000] of [load_region]: [offset = i * node_size
    + region_start] in [u32] arithmetic, an overflow panicking (checked
    arithmetic); the loop stops at the first offset at or past the end of
    the file. *)
Fixpoint load_region_loop (region_start version_number version_id node_size file_size : Z)
    (is_level_0 : bool) (idx : list Z) : M (state ProbNode) (list (ProbLazyItem ProbNode)) :=
  match idx with
  | [] => mret []
  | i :: idx' =>
      let offset := i * node_size + region_start in
      if bool_decide (u32_MAX < offset) then panic
      else if bool_decide (file_size <= offset) then mret []
      else
        node ← force_load_single_object (Valid (MkFileOffset offset) version_number version_id)
                 is_level_0;
        nodes ← load_region_loop region_start version_number version_id node_size file_size
                  is_level_0 idx';
        mret (node :: nodes)
  end.

(** [DenseIndexCache::load_region]; the [println!] is omitted.  The
    capacity [(file_size - region_start) / node_size] divides by zero when
    [node_size = 0], which panics. *)
Definition load_region (region_start version_number version_id node_size : Z) (is_level_0 : bool)
    : M (state ProbNode) (list (ProbLazyItem ProbNode)) :=
  fs ← file_size is_level_0 version_id;
  if bool_decide (fs < region_start) then mret []
  else if bool_decide (node_size = 0) then panic
  else load_region_loop region_start version_number version_id node_size fs is_level_0
         (map Z.of_nat (seq 0 1000)).
End MoreLoads.

(** The cache with its property registry [props_registry]; a
    [Weak<NodeProp>] is kept as the value it upgrades to, [None] once no
    strong reference is left. *)
Record props_cache (ProbNode NodeProp : Type) : Type := MkPropsCache {
  cache : state ProbNode;
  props_registry : gmap Z (option NodeProp)
}.
Arguments MkPropsCache {ProbNode NodeProp} _ _.
Arguments cache {ProbNode NodeProp} _.
Arguments props_registry {ProbNode NodeProp} _.

Section Props.
Context {ProbNode NodeProp : Type}.
(** [read_prop_from_file((offset, length), &mut prop_file)] *)
Variable read_prop_from_file : FileOffset -> Z -> M (props_cache ProbNode NodeProp) NodeProp.
(** [item.get_lazy_data()], and a node's [prop.location] and [prop] *)
Variable get_lazy_data : ProbLazyItem ProbNode -> option ProbNode.
Variable prop_location : ProbNode -> FileOffset * Z.
Variable node_prop : ProbNode -> NodeProp.

(** [DenseIndexCache::get_prop] *)
Definition get_prop (offset : FileOffset) (length : Z) : M (props_cache ProbNode NodeProp) NodeProp :=
  let key := get_prop_key offset length in
  s ← get_st;
  match props_registry s !! key with
  | Some (Some prop) => mret prop
  | _ =>
      prop ← read_prop_from_file offset length;
      modify_st (fun s => MkPropsCache (cache s) (<[key := Some prop]> (props_registry s)));;
      mret prop
  end.

(** [DenseIndexCache::insert_lazy_object] *)
Definition insert_lazy_object (version offset : Z) (item : ProbLazyItem ProbNode)
    : M (props_cache ProbNode NodeProp) unit :=
  let combined_index := Z.lor (wrap64 (Z.shiftl offset 32)) version in
  match get_lazy_data item with
  | Some node =>
      let '(loc_offset, loc_length) := prop_location node in
      modify_st (fun s => MkPropsCache (cache s)
        (<[get_prop_key loc_offset loc_length := Some (node_prop node)]> (props_registry s)))
  | None => mret tt
  end;;
  modify_st (fun s => MkPropsCache
    (MkState (<[combined_index := item]> (registry (cache s))) (loading_items (cache s))
             (mutexes (cache s)))
    (props_registry s)).
End Props.
End DenseIndexCache.

(* ------------------------------------------------------------------ *)
(** ** [InvertedIndexCache] *)

Module InvertedIndexCache.
(** [InvertedIndexCache::combine_index] *)
Definition combine_index (file_offset : FileOffset) (data_file_idx : Z) : Z :=
  Z.lor (wrap64 (Z.shiftl data_file_idx 32)) (fo_0 file_offset).

(** The two registries, the two single-flight tables, the mutexes they
    point to, and the shared [dim_bufman]. *)
Record state (Data Sets : Type) : Type := MkState {
  data_registry : gmap Z (ProbLazyItem Data);
  sets_registry : gmap Z (ProbLazyItem Sets);
  loading_data : gmap Z Z;
  loading_sets : gmap Z Z;
  mutexes : Mutexes;
  dim_bufman : BufMan
}.
Arguments MkState {Data Sets} _ _ _ _ _ _.
Arguments data_registry {Data Sets} _.
Arguments sets_registry {Data Sets} _.
Arguments loading_data {Data Sets} _.
Arguments loading_sets {Data Sets} _.
Arguments mutexes {Data Sets} _.
Arguments dim_bufman {Data Sets} _.

Section Loads.
Context {Data Sets : Type}.
Abbreviation St := (state Data Sets).
(** [InvertedIndexSparseAnnNodeBasicTSHashmapData::deserialize] and
    [VersionedInvertedFixedSetIndex::deserialize], given the offset, the
    [data_file_idx] and [data_file_parts] *)
Variable data_deserialize : FileOffset -> Z -> Z -> M St Data.
Variable sets_deserialize : FileOffset -> Z -> Z -> M St Sets.
(** [self.data_file_parts] *)
Variable data_file_parts : Z.
Variable spin_fuel : nat.

Definition set_loading_data (tbl : gmap Z Z) (mx : Mutexes) (s : St) : St :=
  MkState (data_registry s) (sets_registry s) tbl (loading_sets s) mx (dim_bufman s).
Definition set_loading_sets (tbl : gmap Z Z) (s : St) : St :=
  MkState (data_registry s) (sets_registry s) (loading_data s) tbl (mutexes s) (dim_bufman s).

(** [self.loading_data.get_or_create(combined_index, ..)] *)
Definition get_or_create_data (k : Z) : M St Z :=
  s ← get_st;
  let '(m, tbl, mx) := get_or_create (loading_data s) (mutexes s) k in
  put_st (set_loading_data tbl mx s);;
  mret m.

Definition load_complete (m : Z) : M St bool :=
  s ← get_st; mret (flag_of (mutexes s) m).

(** the wait loop of [get_data]: re-check [data_registry], re-obtain from
    [loading_data] *)
Fixpoint wait_loop_data (fuel : nat) (k m : Z) : M St (ProbLazyItem Data + Z) :=
  s ← get_st;
  match data_registry s !! k with
  | Some item => mret (inl item)
  | None =>
      completed ← load_complete m;
      if (completed : bool) then
        match fuel with
        | O => diverge
        | S fuel' => m' ← get_or_create_data k; wait_loop_data fuel' k m'
        end
      else mret (inr m)
  end.

(** the wait loop of [get_sets]: re-check [sets_registry], re-obtain
    from [loading_data] (as the source does) *)
Fixpoint wait_loop_sets (fuel : nat) (k m : Z) : M St (ProbLazyItem Sets + Z) :=
  s ← get_st;
  match sets_registry s !! k with
  | Some item => mret (inl item)
  | None =>
      completed ← load_complete m;
      if (completed : bool) then
        match fuel with
        | O => diverge
        | S fuel' => m' ← get_or_create_data k; wait_loop_sets fuel' k m'
        end
      else mret (inr m)
  end.

(** [self.dim_bufman.<op>(..)] on the cache state *)
Definition on_dim {A} (c : M BufMan A) : M St A := fun s =>
  match c (dim_bufman s) with
  | Ok a b => Ok a (MkState (data_registry s) (sets_registry s) (loading_data s)
                            (loading_sets s) (mutexes s) b)
  | Err e b => Err e (MkState (data_registry s) (sets_registry s) (loading_data s)
                              (loading_sets s) (mutexes s) b)
  | Panic => Panic
  | Diverge => Diverge
  end.

(** [InvertedIndexCache::get_data] *)
Definition get_data (file_offset : FileOffset) (data_file_idx : Z) : M St (ProbLazyItem Data) :=
  let combined_index := combine_index file_offset 0 in
  s ← get_st;
  match data_registry s !! combined_index with
  | Some item => mret item
  | None =>
      m ← get_or_create_data combined_index;
      r ← wait_loop_data spin_fuel combined_index m;
      match r with
      | inl item => mret item
      | inr m =>
          data ← data_deserialize file_offset data_file_idx data_file_parts;
          let item := new_from_state (PL_Ready data file_offset 0 0) false in
          modify_st (fun s =>
            MkState (<[combined_index := item]> (data_registry s)) (sets_registry s)
                    (loading_data s) (loading_sets s) (set_flag (mutexes s) m) (dim_bufman s));;
          modify_st (fun s => set_loading_data (delete combined_index (loading_data s)) (mutexes s) s);;
          mret item
      end
  end.

(** [InvertedIndexCache::get_sets] *)
Definition get_sets (file_offset : FileOffset) (data_file_idx : Z) : M St (ProbLazyItem Sets) :=
  let combined_index := combine_index file_offset 0 in
  s ← get_st;
  match sets_registry s !! combined_index with
  | Some item => mret item
  | None =>
      m ← get_or_create_data combined_index;
      r ← wait_loop_sets spin_fuel combined_index m;
      match r with
      | inl item => mret item
      | inr m =>
          dim_cursor ← on_dim open_cursor;
          on_dim (seek_with_cursor dim_cursor (fo_0 file_offset));;
          data_offset ← on_dim (read_u32_with_cursor dim_cursor);
          on_dim (close_cursor dim_cursor);;
          data ← sets_deserialize (MkFileOffset data_offset) data_file_idx data_file_parts;
          let item := new_from_state (PL_Ready data file_offset 0 0) false in
          modify_st (fun s =>
            MkState (data_registry s) (<[combined_index := item]> (sets_registry s))
                    (loading_data s) (loading_sets s) (set_flag (mutexes s) m) (dim_bufman s));;
          modify_st (fun s => set_loading_sets (delete combined_index (loading_sets s)) s);;
          mret item
      end
  end.
End Loads.
(** [InvertedIndexCache::get_prop_key] *)
Definition get_prop_key (file_offset : FileOffset) (length : Z) : Z :=
  Z.lor (wrap64 (Z.shiftl (fo_0 file_offset) 32)) length.
End InvertedIndexCache.


(* ------------------------------------------------------------------ *)
(** ** The layout written by the chunk serializer *)

(** [bs] is stored at [a]. *)
Definition holds (mem : gmap Z Z) (a : Z) (bs : list Z) : Prop :=
  forall i, (i < length bs)%nat -> mem !! (a + Z.of_nat i) = bs !! i.

(** [mem'] agrees with [mem] on [[lo, hi)]. *)
Definition agree_on (mem mem' : gmap Z Z) (lo hi : Z) : Prop :=
  forall x, lo <= x < hi -> mem' !! x = mem !! x.

(** [mem'] agrees with [mem] outside [[lo, hi)]. *)
Definition unchanged_outside (mem mem' : gmap Z Z) (lo hi : Z) : Prop :=
  forall x, x < lo \/ hi <= x -> mem' !! x = mem !! x.

(** What a deserializer may do to the file: read it, and open cursors
    (closing only the ones it opened). *)
Definition de_frame (bm bm' : BufMan) : Prop :=
  bm_mem bm' = bm_mem bm /\
  forall c, is_Some (bm_cursors bm !! c) -> is_Some (bm_cursors bm' !! c).

Definition field_bytes (f : field) : list Z :=
  match f with F16 v => le_bytes 2 v | F32 v => le_bytes 4 v end.
Definition fields_bytes (fs : list field) : list Z := concat (map field_bytes fs).
Definition field_value (f : field) : Z := match f with F16 v | F32 v => v end.
Definition field_fits (f : field) (k : field_kind) : Prop :=
  match f, k with
  | F16 v, K16 => 0 <= v < 2 ^ 16
  | F32 v, K32 => 0 <= v < 2 ^ 32
  | _, _ => False
  end.

Section ChunkLayout.
Context {E : Type}.
Variable chunk_size : nat.
Variable slot_width : Z.
Variable placeholder : list field.
Variable slot_layout : list field_kind.
Variable de_entry : Z -> Z -> list Z -> M BufMan E.
(** the number of bytes an entry's own serialization takes *)
Variable entry_size : E -> Z.

(** the slot at [a] holds the fields [fs], of the slot's layout *)
Definition slot_holds (mem : gmap Z Z) (a : Z) (fs : list field) : Prop :=
  holds mem a (fields_bytes fs) /\ Forall2 field_fits fs slot_layout /\
  Z.of_nat (length (fields_bytes fs)) = slot_width.

(** the slot fields [vals] of entry [e], serialized at [q], deserialize to
    [e] from any file agreeing with [mem] on the entry's bytes *)
Definition entry_decodes (mem : gmap Z Z) (q : Z) (e : E) (vals : list Z) : Prop :=
  forall vn vid bm2, agree_on mem (bm_mem bm2) q (q + entry_size e) ->
    exists bm2', de_entry vn vid vals bm2 = Ok e bm2' /\ de_frame bm2 bm2'.

(** slot [i] of the chunk at [s] refers to entry [e], serialized within
    [[lo, hi)] *)
Definition slot_ok (mem : gmap Z Z) (s lo hi : Z) (i : nat) (e : E) : Prop :=
  exists fs q,
    slot_holds mem (s + Z.of_nat i * slot_width) fs /\
    head (map field_value fs) <> Some u32_MAX /\
    lo <= q /\ q + entry_size e <= hi /\
    entry_decodes mem q e (map field_value fs).

Definition entries_size (ch : list E) : Z := fold_right (fun e acc => entry_size e + acc) 0 ch.

(** the end of the chunk at [s]: slots, link, entries *)
Definition chunk_end (s : Z) (ch : list E) : Z :=
  s + Z.of_nat chunk_size * slot_width + 4 + entries_size ch.

(** the chunk at [s] holds the entries [ch] and the next-chunk link [link] *)
Definition chunk_ok (mem : gmap Z Z) (s : Z) (ch : list E) (link : Z) : Prop :=
  (forall i e, ch !! i = Some e ->
     slot_ok mem s (s + Z.of_nat chunk_size * slot_width + 4) (chunk_end s ch) i e) /\
  (forall i, (length ch <= i < chunk_size)%nat ->
     slot_holds mem (s + Z.of_nat i * slot_width) placeholder) /\
  holds mem (s + Z.of_nat chunk_size * slot_width) (le_bytes 4 link).

Fixpoint chain_end (s : Z) (cs : list (list E)) : Z :=
  match cs with
  | [] => s
  | ch :: rest => chain_end (chunk_end s ch) rest
  end.

(** the chunks [cs] from [s] on, each linked to the next, the last to
    [u32::MAX] *)
Fixpoint chain_ok (mem : gmap Z Z) (s : Z) (cs : list (list E)) : Prop :=
  match cs with
  | [] => True
  | ch :: rest =>
      chunk_ok mem s ch (match rest with [] => u32_MAX | _ :: _ => chunk_end s ch end) /\
      chain_ok mem (chunk_end s ch) rest
  end.
End ChunkLayout.

(** An item that round-trips on its own: serialized at the cursor position
    [p], it takes [entry_size x] bytes from [p] on, writes nothing else,
    returns an offset [o] below [u32::MAX], and deserializes back to [x]
    from [o] with its version number and id, on any file agreeing on its
    bytes. *)
Definition item_round_trips {Item : Type} (item_serialize : Item -> Z -> M BufMan Z)
    (get_current_version_number get_current_version : Item -> Z)
    (item_deserialize : FileIndex -> M BufMan Item) (entry_size : Item -> Z) (x : Item) : Prop :=
  0 <= entry_size x /\
  0 <= get_current_version_number x < 2 ^ 16 /\ 0 <= get_current_version x < 2 ^ 32 /\
  forall c bm p, bm_cursors bm !! c = Some p -> 0 <= p -> p + entry_size x < u32_MAX ->
    exists o bm',
      item_serialize x c bm = Ok o bm' /\ 0 <= o < u32_MAX /\
      bm_cursors bm' !! c = Some (p + entry_size x) /\
      unchanged_outside (bm_mem bm) (bm_mem bm') p (p + entry_size x) /\
      forall bm2, agree_on (bm_mem bm') (bm_mem bm2) p (p + entry_size x) ->
        exists bm2',
          item_deserialize (Valid (MkFileOffset o) (get_current_version_number x)
                                  (get_current_version x)) bm2 = Ok x bm2' /\
          de_frame bm2 bm2'.

(** The bytes [IdentityMapKey::serialize] writes for a key: a [u32], then
    a string's bytes. *)
Definition key_size (key : IdentityMapKey) : Z :=
  match key with
  | IMK_String bytes => 4 + Z.of_nat (length bytes)
  | IMK_Int _ => 4
  end.

(** The keys the MSB tag can carry: an integer below [2^31]; a string of
    valid UTF-8 bytes, fewer than [2^31] of them. *)
Definition key_fits (from_utf8_ok : list Z -> bool) (key : IdentityMapKey) : Prop :=
  match key with
  | IMK_String bytes =>
      Forall (fun b => 0 <= b < 256) bytes /\ Z.of_nat (length bytes) < 2 ^ 31 /\
      from_utf8_ok bytes = true
  | IMK_Int v => 0 <= v < 2 ^ 31
  end.

(** The bytes [IdentityMapKey::serialize] writes for a key that fits: the
    [u32] [MSB | len] and the bytes of a string, the [u32] of an integer. *)
Definition key_encoding (key : IdentityMapKey) : list Z :=
  match key with
  | IMK_String bs => le_bytes 4 (Z.lor MSB (Z.of_nat (length bs))) ++ bs
  | IMK_Int v => le_bytes 4 v
  end.

(** A map entry with an integer key below [2^31] and an item that
    round-trips on its own. *)
Definition int_entry_ok {Item : Type} (item_serialize : Item -> Z -> M BufMan Z)
    (vn vid : Item -> Z) (item_deserialize : FileIndex -> M BufMan Item) (isize : Item -> Z)
    (kv : IdentityMapKey * Item) : Prop :=
  (exists v, kv.1 = IMK_Int v /\ 0 <= v < 2 ^ 31) /\
  item_round_trips item_serialize vn vid item_deserialize isize kv.2.

(** The bytes a map entry takes after its slot: the key, then the item. *)
Definition map_entry_size {Item : Type} (isize : Item -> Z) (kv : IdentityMapKey * Item) : Z :=
  key_size kv.1 + isize kv.2.

(* ------------------------------------------------------------------ *)
(** ** Concrete inputs used by the examples below *)

Module Fixtures.
(** an item stored as one [u32] at its start offset *)
Definition item_ser (x : Z) (c : Z) : M BufMan Z :=
  p ← cursor_position c; update_u32_with_cursor c x;; mret (as_u32 p).
Definition item_de (fi : FileIndex) : M BufMan Z :=
  match fi with
  | Valid (MkFileOffset o) _ _ =>
      c ← open_cursor; seek_with_cursor c o;; v ← read_u32_with_cursor c;
      close_cursor c;; mret v
  | Invalid => throw InvalidInput
  end.
Definition item_vn (_ : Z) : Z := 0.
Definition item_vid (_ : Z) : Z := 7.
Definition utf8_any (_ : list Z) : bool := true.

(** an empty file with cursor 0 open at position 0 *)
Definition bm0 : BufMan := MkBufMan ∅ {[0 := 0]} 1.

(** a dimension file holding the [u32] 100 at offset 0 *)
Definition dim0 : BufMan := MkBufMan (write_bytes ∅ 0 (le_bytes 4 100)) ∅ 0.
Definition inv0 : InvertedIndexCache.state Z Z :=
  InvertedIndexCache.MkState ∅ ∅ ∅ ∅ (MkMutexes ∅ 0) dim0.
(** deserializers whose data records the [data_file_idx] or offset used *)
Definition data_de (off : FileOffset) (idx parts : Z) : M (InvertedIndexCache.state Z Z) Z :=
  mret idx.
Definition sets_de (off : FileOffset) (idx parts : Z) : M (InvertedIndexCache.state Z Z) Z :=
  mret (fo_0 off).

(** a registry holding a [Storage] item under key 0 *)
Definition nr_storage : NodeRegistry.state :=
  NodeRegistry.MkState {[0]} {[0 := CacheItem_Storage (MkLazyItem None None 0 0)]}.
(** a registry holding a [MergedNode] item under key 0 *)
Definition cached_merged : LazyItem MergedNode :=
  MkLazyItem (Some (MergedNode_repr 9)) (Some (Valid (MkFileOffset 0) 0 0)) 0 0.
Definition nr_merged : NodeRegistry.state :=
  NodeRegistry.MkState {[0]} {[0 := CacheItem_MergedNode cached_merged]}.
Definition merged_loader (fi : FileIndex) (ml : Z)
    : M (NodeRegistry.state * gset Z) (LazyItem MergedNode) :=
  mret (MkLazyItem (Some (MergedNode_repr 1)) (Some fi) 0 0).

(** a cache whose data registry holds an item under offset 5 *)
Definition item5 : ProbLazyItem Z := new_from_state (PL_Ready 0 (MkFileOffset 5) 0 0) false.
Definition inv_data5 : InvertedIndexCache.state Z Z :=
  InvertedIndexCache.MkState {[5 := item5]} ∅ ∅ ∅ (MkMutexes ∅ 0) dim0.
(** the cache after [get_sets(0, 0)] on [inv0] *)
Definition inv_after_sets : InvertedIndexCache.state Z Z :=
  match InvertedIndexCache.get_sets sets_de 1 3 (MkFileOffset 0) 0 inv0 with
  | Ok _ s => s
  | _ => inv0
  end.

(** a file holding the key [Int(7)] at offset 0 *)
Definition bm_int7 : BufMan := MkBufMan (write_bytes ∅ 0 (le_bytes 4 7)) ∅ 0.
(** empty caches and deserializers that succeed or fail *)
Definition fi0 : FileIndex := Valid (MkFileOffset 0) 0 0.
Definition nr_empty : NodeRegistry.state := NodeRegistry.MkState ∅ ∅.
Definition merged_fail (fi : FileIndex) (ml : Z)
    : M (NodeRegistry.state * gset Z) (LazyItem MergedNode) :=
  throw (LoadError 1).
Definition dense0 : DenseIndexCache.state Z := DenseIndexCache.MkState ∅ ∅ (MkMutexes ∅ 0).
Definition dense_ok (fi : FileIndex) (ml : Z) (lvl : bool)
    : M (DenseIndexCache.state Z * gset Z) Z :=
  mret 3.
(** a cache holding a [Ready] node under the key of [fi0] *)
Definition dense_item0 : ProbLazyItem Z := new_from_state (PL_Ready 3 (MkFileOffset 0) 0 0) false.
Definition dense_fi0 : DenseIndexCache.state Z :=
  DenseIndexCache.MkState {[DenseIndexCache.combine_index fi0 false := dense_item0]} ∅ (MkMutexes ∅ 0).
Definition dense_fail (fi : FileIndex) (ml : Z) (lvl : bool)
    : M (DenseIndexCache.state Z * gset Z) Z :=
  throw (LoadError 1).
Definition data_fail (off : FileOffset) (idx parts : Z) : M (InvertedIndexCache.state Z Z) Z :=
  throw (LoadError 1).

(** a file holding the key [String("A")] at offset 0 *)
Definition bm_strA : BufMan :=
  MkBufMan (write_bytes ∅ 0 (le_bytes 4 (Z.lor MSB 1) ++ [65])) ∅ 0.
(** an item read back as the [u32] at its offset, without a cursor *)
Definition item_peek (fi : FileIndex) : M BufMan Z := fun bm =>
  match fi with
  | Valid (MkFileOffset o) _ _ =>
      match read_bytes (bm_mem bm) o 4 with
      | Some bs => Ok (le_value bs) bm
      | None => Err UnexpectedEof bm
      end
  | Invalid => Err InvalidInput bm
  end.
(** the value and the file state an outcome ends with *)
Definition value_of {S A : Type} (r : outcome S A) : option A :=
  match r with Ok a _ => Some a | _ => None end.
Definition state_of {S A : Type} (r : outcome S A) (d : S) : S :=
  match r with Ok _ s | Err _ s => s | _ => d end.
(** the map [{key: 5}] serialized at cursor 0 of [bm0], items as one [u32] *)
Definition map_file (key : IdentityMapKey) : BufMan :=
  state_of (LazyItemMap_serialize item_ser item_vn item_vid [(key, 5)] 0 bm0) bm0.
(** a property file that reads every property as [42] *)
Definition prop_read (offset : FileOffset) (length : Z) : M (DenseIndexCache.props_cache Z Z) Z :=
  mret 42.
Definition props0 : DenseIndexCache.props_cache Z Z := DenseIndexCache.MkPropsCache dense0 ∅.
(** node files of 25 bytes *)
Definition region_size (is_level_0 : bool) (version_id : Z) : M (DenseIndexCache.state Z) Z :=
  mret 25.
End Fixtures.

(* ================================================================== *)
(** * Properties *)

Import Fixtures.

(** C10: the combined index is not injective at the sentinel: the [Valid]
    index with [offset = u32::MAX] and [version_id = u32::MAX] (level-0 bit
    clear) has the key [u64::MAX] of [Invalid], for [NodeRegistry] and
    [DenseIndexCache] alike. *)
Theorem combine_index_valid_aliases_invalid (version_number : Z) :
  Valid (MkFileOffset u32_MAX) version_number u32_MAX <> Invalid /\
  NodeRegistry.combine_index (Valid (MkFileOffset u32_MAX) version_number u32_MAX) = u64_MAX /\
  NodeRegistry.combine_index Invalid = u64_MAX /\
  DenseIndexCache.combine_index (Valid (MkFileOffset u32_MAX) version_number u32_MAX) false = u64_MAX /\
  DenseIndexCache.combine_index Invalid false = u64_MAX.
Proof. repeat split; [discriminate | reflexivity ..]. Qed.

(** C1 (counterexample): after [get_data(5, 0)], the call [get_data(5, 1)]
    returns the item loaded for [data_file_idx = 0] without loading, and no
    entry exists under [(1 << 32) | 5]. *)
Lemma get_data_aliases_data_file_idx :
  match InvertedIndexCache.get_data data_de 1 3 (MkFileOffset 5) 0 inv0 with
  | Ok _ s =>
      match InvertedIndexCache.get_data data_de 1 3 (MkFileOffset 5) 1 s with
      | Ok it s' =>
          pli_state it = PL_Ready 0 (MkFileOffset 5) 0 0 /\
          InvertedIndexCache.data_registry s' !! InvertedIndexCache.combine_index (MkFileOffset 5) 1 = None /\
          InvertedIndexCache.combine_index (MkFileOffset 5) 1 = Z.lor (Z.shiftl 1 32) 5
      | _ => False
      end
  | _ => False
  end.
Proof. vm_compute. repeat split; reflexivity. Qed.

Lemma inverted_combine_index_0 (off : FileOffset) :
  InvertedIndexCache.combine_index off 0 = fo_0 off.
Proof.
  unfold InvertedIndexCache.combine_index, wrap64.
  rewrite Z.shiftl_0_l, Z.mod_0_l by lia. apply Z.lor_0_l.
Qed.

(** C1 (amended): [get_data] and [get_sets] key both registries by
    [combine_index(file_offset, 0)], which is [file_offset] itself: an entry
    present for an offset is returned, without loading, whatever the
    [data_file_idx]. *)
Theorem inverted_cache_key_is_offset {Data Sets : Type}
    (data_de : FileOffset -> Z -> Z -> M (InvertedIndexCache.state Data Sets) Data)
    (sets_de : FileOffset -> Z -> Z -> M (InvertedIndexCache.state Data Sets) Sets)
    (parts : Z) (fuel : nat) (off : FileOffset) (data_file_idx : Z)
    (st : InvertedIndexCache.state Data Sets) :
  InvertedIndexCache.combine_index off 0 = fo_0 off /\
  (forall item, InvertedIndexCache.data_registry st !! fo_0 off = Some item ->
     InvertedIndexCache.get_data data_de parts fuel off data_file_idx st = Ok item st) /\
  (forall item, InvertedIndexCache.sets_registry st !! fo_0 off = Some item ->
     InvertedIndexCache.get_sets sets_de parts fuel off data_file_idx st = Ok item st).
Proof.
  split; [apply inverted_combine_index_0|].
  split; intros item Hit.
  - unfold InvertedIndexCache.get_data. rewrite inverted_combine_index_0.
    unfold mbind, M_bind, get_st. rewrite Hit. reflexivity.
  - unfold InvertedIndexCache.get_sets. rewrite inverted_combine_index_0.
    unfold mbind, M_bind, get_st. rewrite Hit. reflexivity.
Qed.

Ltac unfold_M :=
  unfold mbind, M_bind, mret, M_ret, get_st, put_st, modify_st, throw, unwrap, panic, diverge.

(** Witness for C1 (amended). *)
Lemma inverted_cache_key_is_offset_witness :
  InvertedIndexCache.data_registry inv_data5 !! fo_0 (MkFileOffset 5) = Some item5 /\
  InvertedIndexCache.get_data data_de 1 3 (MkFileOffset 5) 1 inv_data5 = Ok item5 inv_data5.
Proof.
  split; [reflexivity|].
  apply (proj1 (proj2 (inverted_cache_key_is_offset data_de sets_de 1 3 (MkFileOffset 5) 1 inv_data5)) item5).
  reflexivity.
Defined.

Lemma set_loading_data_id {Data Sets} (s : InvertedIndexCache.state Data Sets) :
  InvertedIndexCache.set_loading_data (InvertedIndexCache.loading_data s) (InvertedIndexCache.mutexes s) s = s.
Proof. destruct s; reflexivity. Qed.

(** Once a [loading_data] entry holds a completed mutex and the registry
    misses, the wait loop of [get_data] re-obtains the same mutex forever. *)
Lemma wait_loop_data_spins {Data Sets} (fuel : nat) (k m : Z) (s : InvertedIndexCache.state Data Sets) :
  InvertedIndexCache.data_registry s !! k = None ->
  InvertedIndexCache.loading_data s !! k = Some m ->
  flag_of (InvertedIndexCache.mutexes s) m = true ->
  InvertedIndexCache.wait_loop_data fuel k m s = Diverge.
Proof.
  intros Hreg Htbl Hflag. induction fuel as [|fuel IH]; simpl;
    unfold mbind, M_bind, get_st, InvertedIndexCache.load_complete; rewrite Hreg;
    simpl; rewrite Hflag; [reflexivity|].
  unfold InvertedIndexCache.get_or_create_data, get_or_create. unfold_M. simpl.
  rewrite Htbl. simpl. rewrite set_loading_data_id. exact IH.
Qed.

Lemma get_data_spins {Data Sets} data_de parts fuel (off : FileOffset) (idx : Z) (m : Z)
    (s : InvertedIndexCache.state Data Sets) :
  InvertedIndexCache.data_registry s !! fo_0 off = None ->
  InvertedIndexCache.loading_data s !! fo_0 off = Some m ->
  flag_of (InvertedIndexCache.mutexes s) m = true ->
  InvertedIndexCache.get_data data_de parts fuel off idx s = Diverge.
Proof.
  intros Hreg Htbl Hflag. unfold InvertedIndexCache.get_data.
  rewrite inverted_combine_index_0. unfold InvertedIndexCache.get_or_create_data, get_or_create.
  unfold_M. rewrite Hreg. simpl. rewrite Htbl. simpl. rewrite set_loading_data_id.
  rewrite (wait_loop_data_spins fuel (fo_0 off) m s Hreg Htbl Hflag). reflexivity.
Qed.

(** C2 (code_bug): [get_sets] takes its mutex from [loading_data] but
    removes the key from [loading_sets].  On a cold key, a successful
    [get_sets(0, 0)] leaves [loading_data] holding the key with a completed
    mutex, and a later [get_data(0, _)] then spins forever in its wait loop. *)
Theorem get_sets_leaves_loading_data_entry (fuel : nat) :
  InvertedIndexCache.get_sets sets_de 1 3 (MkFileOffset 0) 0 inv0 =
    Ok (new_from_state (PL_Ready 100 (MkFileOffset 0) 0 0) false) inv_after_sets /\
  InvertedIndexCache.loading_data inv_after_sets !! 0 = Some 0 /\
  flag_of (InvertedIndexCache.mutexes inv_after_sets) 0 = true /\
  InvertedIndexCache.loading_sets inv_after_sets !! 0 = None /\
  InvertedIndexCache.get_data data_de 1 fuel (MkFileOffset 0) 0 inv_after_sets = Diverge.
Proof.
  split; [vm_compute; reflexivity|].
  split; [vm_compute; reflexivity|].
  split; [vm_compute; reflexivity|].
  split; [vm_compute; reflexivity|].
  apply (get_data_spins _ _ _ _ _ 0); vm_compute; reflexivity.
Qed.

(** C3 (counterexample): [LazyItemVec::deserialize] and
    [LazyItemMap::deserialize] given [FileIndex::Invalid] succeed with the
    empty collection instead of an [InvalidInput] error. *)
Lemma collections_accept_invalid :
  LazyItemVec_deserialize item_de 1 Invalid bm0 = Ok [] bm0 /\
  LazyItemMap_deserialize utf8_any item_de 1 Invalid bm0 = Ok [] bm0.
Proof. split; reflexivity. Qed.

(** C3 (amended): [NodeRegistry::load_item], [DenseIndexCache::load_item]
    and [IdentityMapKey::deserialize] reject [FileIndex::Invalid] with
    [InvalidInput], whatever the deserializer, leaving the state (and so
    every registry) unchanged; [LazyItemVec::deserialize] and
    [LazyItemMap::deserialize] map [Invalid] to the empty collection,
    leaving the state unchanged. *)
Theorem invalid_file_index_handling :
  (forall T (deserialize : FileIndex -> Z -> M (NodeRegistry.state * gset Z) T)
          (st : NodeRegistry.state),
     NodeRegistry.load_item deserialize Invalid st = Err InvalidInput st) /\
  (forall S T (deserialize : FileIndex -> Z -> bool -> M (S * gset Z) T) is_level_0 (st : S),
     DenseIndexCache.load_item deserialize Invalid is_level_0 st = Err InvalidInput st) /\
  (forall from_utf8_ok (bm : BufMan),
     IdentityMapKey_deserialize from_utf8_ok Invalid bm = Err InvalidInput bm) /\
  (forall Item (item_deserialize : FileIndex -> M BufMan Item) fuel (bm : BufMan),
     LazyItemVec_deserialize item_deserialize fuel Invalid bm = Ok [] bm) /\
  (forall Item from_utf8_ok (item_deserialize : FileIndex -> M BufMan Item) fuel (bm : BufMan),
     LazyItemMap_deserialize from_utf8_ok item_deserialize fuel Invalid bm = Ok [] bm).
Proof. repeat split; reflexivity. Qed.

(** C8 (code_bug): the registry holds a [Storage] item under the key of
    [Valid(0, 0, 0)]; [get_object::<MergedNode>] treats it as a miss and
    loads, but [get_or_insert] returns the [Storage] item as the hit and
    [from_cache_item(..).unwrap()] panics.  With the budget spent the same
    miss returns the pending item normally. *)
Theorem get_object_wrong_variant_panics :
  NodeRegistry.get_object merged_loader (Valid (MkFileOffset 0) 0 0) 1 (nr_storage, ∅) = Panic /\
  NodeRegistry.get_object merged_loader (Valid (MkFileOffset 0) 0 0) 0 (nr_storage, ∅) =
    Ok (NodeRegistry.pending_item (Valid (MkFileOffset 0) 0 0) 0 0) (nr_storage, ∅).
Proof. split; vm_compute; reflexivity. Qed.

(** C9 (code_bug): [IdentityMapKey::deserialize] of the key [Int(7)]
    returns [Ok] with its cursor 0 still open, while the [String] path
    closes its cursor before returning. *)
Theorem identity_map_key_int_leaks_cursor :
  IdentityMapKey_deserialize utf8_any (Valid (MkFileOffset 0) 0 0) bm_int7 =
    Ok (IMK_Int 7) (MkBufMan (bm_mem bm_int7) {[0 := 4]} 1) /\
  IdentityMapKey_deserialize utf8_any (Valid (MkFileOffset 0) 0 0) bm_strA =
    Ok (IMK_String [65]) (MkBufMan (bm_mem bm_strA) ∅ 1).
Proof. split; vm_compute; reflexivity. Qed.

Lemma nr_miss_pending {T} `{Cacheable T} (L : FileIndex -> Z -> M (NodeRegistry.state * gset Z) (LazyItem T))
    fi ml st S :
  NodeRegistry.cached_lookup st (NodeRegistry.combine_index fi) = None ->
  (ml = 0 \/ NodeRegistry.combine_index fi ∈ S) ->
  NodeRegistry.get_object L fi ml (st, S) =
    Ok (NodeRegistry.pending_item fi (NodeRegistry.versions fi).1 (NodeRegistry.versions fi).2) (st, S).
Proof.
  intros Hmiss Hcond. unfold NodeRegistry.get_object. unfold_M. rewrite Hmiss.
  destruct fi as [[off] vn vid|]; simpl;
  (destruct (bool_decide (ml = 0)) eqn:E1; [reflexivity|]);
  apply bool_decide_eq_false in E1; (destruct Hcond as [?|Hin]; [contradiction|]);
  rewrite bool_decide_true by exact Hin; reflexivity.
Qed.

Lemma nr_miss_load {T} `{Cacheable T} (L : FileIndex -> Z -> M (NodeRegistry.state * gset Z) (LazyItem T))
    fi ml st S :
  NodeRegistry.cached_lookup st (NodeRegistry.combine_index fi) = None ->
  ml <> 0 -> NodeRegistry.combine_index fi ∉ S ->
  exists cont, NodeRegistry.get_object L fi ml (st, S) =
    (L fi (ml - 1) ≫= cont) (st, {[NodeRegistry.combine_index fi]} ∪ S).
Proof.
  intros Hmiss Hml Hnin. unfold NodeRegistry.get_object.
  unfold mbind at 1, M_bind at 1. unfold get_st at 1. simpl. rewrite Hmiss.
  destruct fi as [[off] vn vid|]; simpl;
  rewrite bool_decide_false by exact Hml; rewrite bool_decide_false by exact Hnin;
  eexists; reflexivity.
Qed.

Lemma dense_miss_pending {PN} (D : FileIndex -> Z -> bool -> M (DenseIndexCache.state PN * gset Z) PN)
    fuel fi ml lvl st S :
  DenseIndexCache.registry st !! DenseIndexCache.combine_index fi lvl = None ->
  (ml = 0 \/ DenseIndexCache.combine_index fi lvl ∈ S) ->
  DenseIndexCache.get_lazy_object D fuel fi ml lvl (st, S) = Ok (new_pending fi lvl) (st, S).
Proof.
  intros Hmiss Hcond. unfold DenseIndexCache.get_lazy_object, DenseIndexCache.lookup_registry.
  unfold_M. simpl. rewrite Hmiss.
  destruct (bool_decide (ml = 0)) eqn:E1; [reflexivity|].
  apply bool_decide_eq_false in E1. destruct Hcond as [?|Hin]; [contradiction|].
  rewrite bool_decide_true by exact Hin. reflexivity.
Qed.

Lemma nr_hit {T} `{Cacheable T} (L : FileIndex -> Z -> M (NodeRegistry.state * gset Z) (LazyItem T))
    fi ml st S item :
  NodeRegistry.cached_lookup st (NodeRegistry.combine_index fi) = Some item ->
  NodeRegistry.get_object L fi ml (st, S) = Ok item (st, S).
Proof.
  intros Hhit. unfold NodeRegistry.get_object. unfold_M. rewrite Hhit. reflexivity.
Qed.

Lemma dense_hit {PN} (D : FileIndex -> Z -> bool -> M (DenseIndexCache.state PN * gset Z) PN)
    fuel fi ml lvl st S item :
  DenseIndexCache.registry st !! DenseIndexCache.combine_index fi lvl = Some item ->
  DenseIndexCache.get_lazy_object D fuel fi ml lvl (st, S) = Ok item (st, S).
Proof.
  intros Hhit. unfold DenseIndexCache.get_lazy_object, DenseIndexCache.lookup_registry.
  unfold_M. simpl. rewrite Hhit. reflexivity.
Qed.

(** the mutex obtained for [k] from a table in which [k]'s mutex, if any, is
    not complete, is not complete *)
Lemma get_or_create_incomplete (tbl : gmap Z Z) (mx : Mutexes) (k : Z) :
  (forall m, tbl !! k = Some m -> flag_of mx m = false) ->
  let '(m, tbl', mx') := get_or_create tbl mx k in
  tbl' !! k = Some m /\ flag_of mx' m = false /\
  (forall m', tbl !! k = Some m' -> m = m').
Proof.
  intros Hinc. unfold get_or_create. destruct (tbl !! k) as [m|] eqn:E.
  - repeat split; [exact E| apply Hinc; reflexivity| intros m' Hm; congruence].
  - repeat split.
    + apply lookup_insert_eq.
    + unfold flag_of; simpl. rewrite lookup_insert_eq. reflexivity.
    + intros m' Hm; discriminate.
Qed.

Lemma dense_miss_load {PN} (D : FileIndex -> Z -> bool -> M (DenseIndexCache.state PN * gset Z) PN)
    fuel fi ml lvl st S :
  let k := DenseIndexCache.combine_index fi lvl in
  DenseIndexCache.registry st !! k = None ->
  (forall m, DenseIndexCache.loading_items st !! k = Some m -> flag_of (DenseIndexCache.mutexes st) m = false) ->
  ml <> 0 -> k ∉ S ->
  exists cont st' m,
    DenseIndexCache.registry st' = DenseIndexCache.registry st /\
    DenseIndexCache.loading_items st' !! k = Some m /\
    flag_of (DenseIndexCache.mutexes st') m = false /\
    DenseIndexCache.get_lazy_object D fuel fi ml lvl (st, S) =
      (D fi (ml - 1) lvl ≫= cont) (st', {[k]} ∪ S).
Proof.
  intros k Hmiss Hinc Hml Hnin.
  pose proof (get_or_create_incomplete _ _ k Hinc) as Hgc.
  destruct (get_or_create (DenseIndexCache.loading_items st) (DenseIndexCache.mutexes st) k)
    as [[m tbl'] mx'] eqn:Egc.
  destruct Hgc as [Htbl [Hflag _]].
  unfold DenseIndexCache.get_lazy_object.
  unfold mbind at 1, M_bind at 1. unfold DenseIndexCache.lookup_registry at 1. unfold_M. simpl.
  fold k. rewrite Hmiss.
  rewrite bool_decide_false by exact Hml. rewrite bool_decide_false by exact Hnin.
  unfold DenseIndexCache.get_or_create_mutex. unfold_M. simpl. rewrite Egc.
  destruct fuel; simpl; unfold DenseIndexCache.lookup_registry, DenseIndexCache.load_complete;
    unfold_M; simpl; rewrite Hmiss; cbn [DenseIndexCache.mutexes]; rewrite Hflag;
  destruct fi as [[off] vn vid|];
  (eexists; exists (DenseIndexCache.MkState (DenseIndexCache.registry st) tbl' mx'), m;
   split; [reflexivity|]; split; [exact Htbl|]; split; [exact Hflag|]; reflexivity).
Qed.

Lemma data_miss_load {Data Sets} (data_de : FileOffset -> Z -> Z -> M (InvertedIndexCache.state Data Sets) Data)
    parts fuel off idx st :
  InvertedIndexCache.data_registry st !! fo_0 off = None ->
  (forall m, InvertedIndexCache.loading_data st !! fo_0 off = Some m ->
     flag_of (InvertedIndexCache.mutexes st) m = false) ->
  exists cont st' m,
    InvertedIndexCache.data_registry st' = InvertedIndexCache.data_registry st /\
    InvertedIndexCache.loading_data st' !! fo_0 off = Some m /\
    flag_of (InvertedIndexCache.mutexes st') m = false /\
    InvertedIndexCache.get_data data_de parts fuel off idx st =
      (data_de off idx parts ≫= cont) st'.
Proof.
  intros Hmiss Hinc.
  pose proof (get_or_create_incomplete _ _ (fo_0 off) Hinc) as Hgc.
  destruct (get_or_create (InvertedIndexCache.loading_data st) (InvertedIndexCache.mutexes st) (fo_0 off))
    as [[m tbl'] mx'] eqn:Egc.
  destruct Hgc as [Htbl [Hflag _]].
  unfold InvertedIndexCache.get_data. rewrite inverted_combine_index_0.
  unfold InvertedIndexCache.get_or_create_data. unfold_M. simpl. rewrite Hmiss. simpl. rewrite Egc.
  destruct fuel; simpl; unfold InvertedIndexCache.load_complete;
    unfold_M; simpl; rewrite Hmiss; unfold InvertedIndexCache.set_loading_data at 1;
    cbn [InvertedIndexCache.mutexes]; rewrite Hflag;
  (eexists; exists (InvertedIndexCache.set_loading_data tbl' mx' st), m;
   split; [reflexivity|]; split; [exact Htbl|]; split; [exact Hflag|]; reflexivity).
Qed.

(** C6 (counterexample): the registry holds a [MergedNode] item under the
    key of [Valid(0, 0, 0)], which is in the cuckoo filter; with
    [max_loads = 0] and an empty skip set, [get_object] returns the cached
    item, with its data, not a pending item. *)
Lemma get_object_cached_before_budget :
  NodeRegistry.get_object merged_loader (Valid (MkFileOffset 0) 0 0) 0 (nr_merged, ∅) =
    Ok cached_merged (nr_merged, ∅) /\
  li_data cached_merged <> None.
Proof. split; [vm_compute; reflexivity | discriminate]. Qed.

(** C6 (amended): the budget and skip-set check comes after the cache
    check.  A key already cached ([NodeRegistry]: in the cuckoo filter and
    in the registry with the right variant; [DenseIndexCache]: in the
    registry) is returned, with the state and [S] unchanged, whatever the
    budget and the skip set, even when [max_loads = 0] or [k ∈ S].  On a miss ([NodeRegistry]: key not in the cuckoo filter, not in
    the registry, or of another variant; [DenseIndexCache]: key not in the
    registry), if [max_loads = 0] or [k ∈ S] the call returns the pending
    item for [file_index] with the state and [S] unchanged, whatever the
    loader; otherwise it inserts [k] into [S] and first runs the loader
    with [max_loads - 1] ([DenseIndexCache]: when [k]'s load mutex, if any,
    is not complete, after creating or reusing it, registry unchanged). *)
Theorem miss_budget_and_skip_set :
  (forall T `{Cacheable T} (L : FileIndex -> Z -> M (NodeRegistry.state * gset Z) (LazyItem T))
          fi ml st S item,
     NodeRegistry.cached_lookup (T:=T) st (NodeRegistry.combine_index fi) = Some item ->
     NodeRegistry.get_object L fi ml (st, S) = Ok item (st, S)) /\
  (forall PN (D : FileIndex -> Z -> bool -> M (DenseIndexCache.state PN * gset Z) PN)
          fuel fi ml lvl st S item,
     DenseIndexCache.registry st !! DenseIndexCache.combine_index fi lvl = Some item ->
     DenseIndexCache.get_lazy_object D fuel fi ml lvl (st, S) = Ok item (st, S)) /\
  (forall T `{Cacheable T} (L : FileIndex -> Z -> M (NodeRegistry.state * gset Z) (LazyItem T))
          fi ml st S,
     NodeRegistry.cached_lookup (T:=T) st (NodeRegistry.combine_index fi) = None ->
     (ml = 0 \/ NodeRegistry.combine_index fi ∈ S) ->
     NodeRegistry.get_object L fi ml (st, S) =
       Ok (NodeRegistry.pending_item fi (NodeRegistry.versions fi).1 (NodeRegistry.versions fi).2) (st, S)) /\
  (forall T `{Cacheable T} (L : FileIndex -> Z -> M (NodeRegistry.state * gset Z) (LazyItem T))
          fi ml st S,
     NodeRegistry.cached_lookup (T:=T) st (NodeRegistry.combine_index fi) = None ->
     ml <> 0 -> NodeRegistry.combine_index fi ∉ S ->
     exists cont, NodeRegistry.get_object L fi ml (st, S) =
       (L fi (ml - 1) ≫= cont) (st, {[NodeRegistry.combine_index fi]} ∪ S)) /\
  (forall PN (D : FileIndex -> Z -> bool -> M (DenseIndexCache.state PN * gset Z) PN)
          fuel fi ml lvl st S,
     DenseIndexCache.registry st !! DenseIndexCache.combine_index fi lvl = None ->
     (ml = 0 \/ DenseIndexCache.combine_index fi lvl ∈ S) ->
     DenseIndexCache.get_lazy_object D fuel fi ml lvl (st, S) = Ok (new_pending fi lvl) (st, S)) /\
  (forall PN (D : FileIndex -> Z -> bool -> M (DenseIndexCache.state PN * gset Z) PN)
          fuel fi ml lvl st S,
     let k := DenseIndexCache.combine_index fi lvl in
     DenseIndexCache.registry st !! k = None ->
     (forall m, DenseIndexCache.loading_items st !! k = Some m ->
        flag_of (DenseIndexCache.mutexes st) m = false) ->
     ml <> 0 -> k ∉ S ->
     exists cont st',
       DenseIndexCache.registry st' = DenseIndexCache.registry st /\
       DenseIndexCache.get_lazy_object D fuel fi ml lvl (st, S) =
         (D fi (ml - 1) lvl ≫= cont) (st', {[k]} ∪ S)).
Proof.
  split; [intros; apply nr_hit; assumption|].
  split; [intros; apply dense_hit; assumption|].
  split; [intros; apply nr_miss_pending; assumption|].
  split; [intros; apply nr_miss_load; assumption|].
  split; [intros; apply dense_miss_pending; assumption|].
  intros PN D fuel fi ml lvl st S k Hmiss Hinc Hml Hnin.
  destruct (dense_miss_load D fuel fi ml lvl st S Hmiss Hinc Hml Hnin)
    as (cont & st' & m & Hreg & _ & _ & Heq).
  exists cont, st'. split; assumption.
Qed.

(** C7: on a miss that reaches the deserializer (budget left, key not on
    the skip set, [k]'s load mutex, if any, not complete), an error of the
    deserializer is the call's result, state included: the call inserts no
    registry entry and sets no completion flag of its own (the mutex it
    holds is still incomplete when the deserializer runs).  From the error
    state, when the deserializer did not load [k] itself, a later call
    with a fresh skip set runs the deserializer again. *)
Theorem deserialize_error_not_cached :
  (forall T `{Cacheable T} (L : FileIndex -> Z -> M (NodeRegistry.state * gset Z) (LazyItem T))
          fi ml st S e st' S',
     let k := NodeRegistry.combine_index fi in
     NodeRegistry.cached_lookup (T:=T) st k = None -> ml <> 0 -> k ∉ S ->
     L fi (ml - 1) (st, {[k]} ∪ S) = Err e (st', S') ->
     NodeRegistry.get_object L fi ml (st, S) = Err e (st', S') /\
     (NodeRegistry.cached_lookup (T:=T) st' k = None ->
      exists cont, NodeRegistry.get_object L fi ml (st', ∅) =
        (L fi (ml - 1) ≫= cont) (st', {[k]} ∪ ∅))) /\
  (forall PN (D : FileIndex -> Z -> bool -> M (DenseIndexCache.state PN * gset Z) PN)
          fuel fi ml lvl st S,
     let k := DenseIndexCache.combine_index fi lvl in
     DenseIndexCache.registry st !! k = None ->
     (forall m, DenseIndexCache.loading_items st !! k = Some m ->
        flag_of (DenseIndexCache.mutexes st) m = false) ->
     ml <> 0 -> k ∉ S ->
     exists st0 m,
       DenseIndexCache.registry st0 = DenseIndexCache.registry st /\
       DenseIndexCache.loading_items st0 !! k = Some m /\
       flag_of (DenseIndexCache.mutexes st0) m = false /\
       forall e st' S',
         D fi (ml - 1) lvl (st0, {[k]} ∪ S) = Err e (st', S') ->
         DenseIndexCache.get_lazy_object D fuel fi ml lvl (st, S) = Err e (st', S') /\
         (DenseIndexCache.registry st' !! k = None ->
          (forall m', DenseIndexCache.loading_items st' !! k = Some m' ->
             flag_of (DenseIndexCache.mutexes st') m' = false) ->
          exists cont st'',
            DenseIndexCache.get_lazy_object D fuel fi ml lvl (st', ∅) =
              (D fi (ml - 1) lvl ≫= cont) (st'', {[k]} ∪ ∅))) /\
  (forall Data Sets (data_de : FileOffset -> Z -> Z -> M (InvertedIndexCache.state Data Sets) Data)
          parts fuel off idx st,
     InvertedIndexCache.data_registry st !! fo_0 off = None ->
     (forall m, InvertedIndexCache.loading_data st !! fo_0 off = Some m ->
        flag_of (InvertedIndexCache.mutexes st) m = false) ->
     exists st0 m,
       InvertedIndexCache.data_registry st0 = InvertedIndexCache.data_registry st /\
       InvertedIndexCache.loading_data st0 !! fo_0 off = Some m /\
       flag_of (InvertedIndexCache.mutexes st0) m = false /\
       forall e st',
         data_de off idx parts st0 = Err e st' ->
         InvertedIndexCache.get_data data_de parts fuel off idx st = Err e st' /\
         (InvertedIndexCache.data_registry st' !! fo_0 off = None ->
          (forall m', InvertedIndexCache.loading_data st' !! fo_0 off = Some m' ->
             flag_of (InvertedIndexCache.mutexes st') m' = false) ->
          exists cont st'',
            InvertedIndexCache.get_data data_de parts fuel off idx st' =
              (data_de off idx parts ≫= cont) st'')).
Proof.
  split; [|split].
  - intros T ? L fi ml st S e st' S' k Hmiss Hml Hnin Herr. split.
    + destruct (nr_miss_load L fi ml st S Hmiss Hml Hnin) as [cont Heq].
      rewrite Heq. unfold mbind, M_bind. fold k. rewrite Herr. reflexivity.
    + intros Hmiss'. apply nr_miss_load; [exact Hmiss' | exact Hml | set_solver].
  - intros PN D fuel fi ml lvl st S k Hmiss Hinc Hml Hnin.
    destruct (dense_miss_load D fuel fi ml lvl st S Hmiss Hinc Hml Hnin)
      as (cont & st0 & m & Hreg & Htbl & Hflag & Heq).
    exists st0, m. split; [exact Hreg|]. split; [exact Htbl|]. split; [exact Hflag|].
    intros e st' S' Herr. split.
    + rewrite Heq. unfold mbind, M_bind. unfold k in Herr. rewrite Herr. reflexivity.
    + intros Hmiss' Hinc'.
      destruct (dense_miss_load D fuel fi ml lvl st' (@empty (gset Z) gset_empty) Hmiss' Hinc' Hml
                 ltac:(set_solver))
        as (cont' & st'' & m' & _ & _ & _ & Heq').
      exists cont', st''. exact Heq'.
  - intros Data Sets data_de parts fuel off idx st Hmiss Hinc.
    destruct (data_miss_load data_de parts fuel off idx st Hmiss Hinc)
      as (cont & st0 & m & Hreg & Htbl & Hflag & Heq).
    exists st0, m. split; [exact Hreg|]. split; [exact Htbl|]. split; [exact Hflag|].
    intros e st' Herr. split.
    + rewrite Heq. unfold mbind, M_bind. rewrite Herr. reflexivity.
    + intros Hmiss' Hinc'.
      destruct (data_miss_load data_de parts fuel off idx st' Hmiss' Hinc')
        as (cont' & st'' & m' & _ & _ & _ & Heq').
      exists cont', st''. exact Heq'.
Qed.

(** Witness for C6 (amended). *)
Lemma miss_budget_and_skip_set_witness :
  NodeRegistry.get_object merged_loader (Valid (MkFileOffset 0) 0 0) 0 (nr_merged, {[0]}) =
    Ok cached_merged (nr_merged, {[0]}) /\
  DenseIndexCache.get_lazy_object dense_ok 3 fi0 0 false (dense_fi0, {[0]}) =
    Ok dense_item0 (dense_fi0, {[0]}) /\
  NodeRegistry.get_object merged_loader fi0 0 (nr_empty, ∅) =
    Ok (NodeRegistry.pending_item fi0 (NodeRegistry.versions fi0).1 (NodeRegistry.versions fi0).2) (nr_empty, ∅) /\
  (exists cont, NodeRegistry.get_object merged_loader fi0 2 (nr_empty, ∅) =
     (merged_loader fi0 (2 - 1) ≫= cont) (nr_empty, {[NodeRegistry.combine_index fi0]} ∪ ∅)) /\
  DenseIndexCache.get_lazy_object dense_ok 3 fi0 0 false (dense0, ∅) =
    Ok (new_pending fi0 false) (dense0, ∅) /\
  (exists cont st', DenseIndexCache.registry st' = DenseIndexCache.registry dense0 /\
     DenseIndexCache.get_lazy_object dense_ok 3 fi0 2 false (dense0, ∅) =
       (dense_ok fi0 (2 - 1) false ≫= cont) (st', {[DenseIndexCache.combine_index fi0 false]} ∪ ∅)).
Proof.
  destruct miss_budget_and_skip_set as (H0 & H0' & H1 & H2 & H3 & H4).
  split; [apply H0; vm_compute; reflexivity|].
  split; [apply H0'; vm_compute; reflexivity|].
  split; [apply H1; [vm_compute; reflexivity | left; reflexivity]|].
  split; [apply H2; [vm_compute; reflexivity | lia | set_solver]|].
  split; [apply H3; [vm_compute; reflexivity | left; reflexivity]|].
  apply (H4 Z dense_ok 3%nat fi0 2 false dense0 ∅);
    [vm_compute; reflexivity | intros m Hm; vm_compute in Hm; discriminate | lia | set_solver].
Defined.

(** Witness for C7: deserializers that always fail. *)
Lemma deserialize_error_not_cached_witness :
  NodeRegistry.get_object merged_fail fi0 2 (nr_empty, ∅) =
    Err (LoadError 1) (nr_empty, {[NodeRegistry.combine_index fi0]} ∪ ∅) /\
  (exists st', DenseIndexCache.registry st' = DenseIndexCache.registry dense0 /\
     DenseIndexCache.get_lazy_object dense_fail 3 fi0 2 false (dense0, ∅) =
       Err (LoadError 1) (st', {[DenseIndexCache.combine_index fi0 false]} ∪ ∅) /\
     exists cont st'',
       DenseIndexCache.get_lazy_object dense_fail 3 fi0 2 false (st', ∅) =
         (dense_fail fi0 (2 - 1) false ≫= cont) (st'', {[DenseIndexCache.combine_index fi0 false]} ∪ ∅)) /\
  (exists st', InvertedIndexCache.data_registry st' = InvertedIndexCache.data_registry inv0 /\
     InvertedIndexCache.get_data data_fail 1 3 (MkFileOffset 0) 0 inv0 = Err (LoadError 1) st' /\
     exists cont st'',
       InvertedIndexCache.get_data data_fail 1 3 (MkFileOffset 0) 0 st' =
         (data_fail (MkFileOffset 0) 0 1 ≫= cont) st'').
Proof.
  destruct deserialize_error_not_cached as (H1 & H2 & H3).
  split; [apply (H1 _ _ merged_fail fi0 2 nr_empty ∅ (LoadError 1));
          [vm_compute; reflexivity | lia | set_solver | reflexivity]|].
  split.
  - destruct (H2 Z dense_fail 3%nat fi0 2 false dense0 ∅) as (st0 & m & Hreg & Htbl & Hflag & Hall);
      [vm_compute; reflexivity | intros m Hm; vm_compute in Hm; discriminate | lia | set_solver|].
    destruct (Hall (LoadError 1) st0 ({[DenseIndexCache.combine_index fi0 false]} ∪ ∅)) as [Herr Hretry];
      [reflexivity|].
    exists st0. split; [exact Hreg|]. split; [exact Herr|].
    apply Hretry; [rewrite Hreg; vm_compute; reflexivity|].
    intros m' Hm'. rewrite Htbl in Hm'. injection Hm' as <-. exact Hflag.
  - destruct (H3 Z Z data_fail 1 3%nat (MkFileOffset 0) 0 inv0) as (st0 & m & Hreg & Htbl & Hflag & Hall);
      [vm_compute; reflexivity | intros m Hm; vm_compute in Hm; discriminate|].
    destruct (Hall (LoadError 1) st0) as [Herr Hretry]; [reflexivity|].
    exists st0. split; [exact Hreg|]. split; [exact Herr|].
    apply Hretry; [rewrite Hreg; vm_compute; reflexivity|].
    intros m' Hm'. rewrite Htbl in Hm'. injection Hm' as <-. exact Hflag.
Defined.

(* ------------------------------------------------------------------ *)
(** ** Reading and writing bytes, fields and cursors *)

(* ================================================================== *)
(** ** The chunked format: memory and fields *)

Lemma write_bytes_outside (mem : gmap Z Z) (p : Z) (bs : list Z) :
  unchanged_outside mem (write_bytes mem p bs) p (p + Z.of_nat (length bs)).
Proof.
  unfold unchanged_outside.
  revert mem p. induction bs as [|b bs IH]; intros mem p x Hx; simpl; [reflexivity|].
  simpl in Hx. rewrite IH by lia. apply lookup_insert_ne. lia.
Qed.

Lemma write_bytes_holds (mem : gmap Z Z) (p : Z) (bs : list Z) :
  holds (write_bytes mem p bs) p bs.
Proof.
  unfold holds. revert mem p. induction bs as [|b bs IH]; intros mem p i Hi; simpl in *; [lia|].
  destruct i as [|i].
  - rewrite (write_bytes_outside _ (p + 1)) by lia. rewrite Z.add_0_r. apply lookup_insert_eq.
  - replace (p + Z.of_nat (S i)) with (p + 1 + Z.of_nat i) by lia. apply IH. lia.
Qed.

Lemma write_bytes_app (mem : gmap Z Z) (p : Z) (bs1 bs2 : list Z) :
  write_bytes mem p (bs1 ++ bs2) = write_bytes (write_bytes mem p bs1) (p + Z.of_nat (length bs1)) bs2.
Proof.
  revert mem p. induction bs1 as [|b bs1 IH]; intros mem p; simpl.
  - rewrite Z.add_0_r. reflexivity.
  - rewrite IH. f_equal. lia.
Qed.

Lemma holds_read_bytes (mem : gmap Z Z) (p : Z) (bs : list Z) :
  holds mem p bs -> read_bytes mem p (length bs) = Some bs.
Proof.
  revert p. induction bs as [|b bs IH]; intros p H; simpl; [reflexivity|].
  pose proof (H 0%nat ltac:(simpl; lia)) as H0. rewrite Z.add_0_r in H0. simpl in H0. rewrite H0.
  rewrite IH; [reflexivity|]. intros i Hi.
  replace (p + 1 + Z.of_nat i) with (p + Z.of_nat (S i)) by lia. apply (H (S i)). simpl; lia.
Qed.

Lemma holds_frame (mem mem' : gmap Z Z) (p : Z) (bs : list Z) :
  holds mem p bs -> agree_on mem mem' p (p + Z.of_nat (length bs)) -> holds mem' p bs.
Proof. intros H Hag i Hi. rewrite Hag by lia. apply H, Hi. Qed.

Lemma holds_app (mem : gmap Z Z) (p : Z) (bs1 bs2 : list Z) :
  holds mem p (bs1 ++ bs2) <-> holds mem p bs1 /\ holds mem (p + Z.of_nat (length bs1)) bs2.
Proof.
  split.
  - intros H. split.
    + intros i Hi. rewrite H by (rewrite length_app; lia). rewrite lookup_app_l by lia. reflexivity.
    + intros i Hi. replace (p + Z.of_nat (length bs1) + Z.of_nat i) with (p + Z.of_nat (length bs1 + i)) by lia.
      rewrite H by (rewrite length_app; lia). rewrite lookup_app_r by lia.
      f_equal. lia.
  - intros [H1 H2] i Hi. rewrite length_app in Hi.
    destruct (decide (i < length bs1)%nat).
    + rewrite lookup_app_l by lia. apply H1. lia.
    + rewrite lookup_app_r by lia.
      replace (p + Z.of_nat i) with (p + Z.of_nat (length bs1) + Z.of_nat (i - length bs1)) by lia.
      apply H2. lia.
Qed.

Lemma agree_on_trans (m1 m2 m3 : gmap Z Z) lo hi :
  agree_on m1 m2 lo hi -> agree_on m2 m3 lo hi -> agree_on m1 m3 lo hi.
Proof. intros H1 H2 x Hx. rewrite H2 by exact Hx. apply H1, Hx. Qed.

Lemma agree_on_sym (m1 m2 : gmap Z Z) lo hi :
  agree_on m1 m2 lo hi -> agree_on m2 m1 lo hi.
Proof. intros H x Hx. symmetry. apply H, Hx. Qed.

Lemma agree_on_sub (m1 m2 : gmap Z Z) lo hi lo' hi' :
  agree_on m1 m2 lo hi -> lo <= lo' -> hi' <= hi -> agree_on m1 m2 lo' hi'.
Proof. intros H ?? x Hx. apply H. lia. Qed.

Lemma unchanged_outside_agree (m1 m2 : gmap Z Z) lo hi lo' hi' :
  unchanged_outside m1 m2 lo hi -> (hi <= lo' \/ hi' <= lo) -> agree_on m1 m2 lo' hi'.
Proof. intros H Hd x Hx. apply H. lia. Qed.

Lemma le_bytes_length n v : length (le_bytes n v) = n.
Proof. revert v. induction n; intros; simpl; auto. Qed.

Lemma le_value_le_bytes n v : 0 <= v < 256 ^ Z.of_nat n -> le_value (le_bytes n v) = v.
Proof.
  revert v. induction n as [|n IH]; intros v Hv; simpl.
  - simpl in Hv. lia.
  - rewrite IH.
    + pose proof (Z.div_mod v 256). lia.
    + rewrite Nat2Z.inj_succ, Z.pow_succ_r in Hv by lia. split.
      * apply Z.div_pos; lia.
      * apply Z.div_lt_upper_bound; lia.
Qed.

Lemma set_pos_set_pos (c p1 p2 : Z) (bm : BufMan) :
  set_pos c p2 (set_pos c p1 bm) = set_pos c p2 bm.
Proof. unfold set_pos. simpl. rewrite insert_insert_eq. reflexivity. Qed.

Lemma field_bytes_length (f : field) :
  length (field_bytes f) = match f with F16 _ => 2%nat | F32 _ => 4%nat end.
Proof. destruct f; apply le_bytes_length. Qed.

Lemma write_fields_ok (c p : Z) (fs : list field) (bm : BufMan) :
  bm_cursors bm !! c = Some p ->
  write_fields c fs bm =
    Ok tt (MkBufMan (write_bytes (bm_mem bm) p (fields_bytes fs))
                    (<[c := p + Z.of_nat (length (fields_bytes fs))]> (bm_cursors bm))
                    (bm_next_cursor bm)).
Proof.
  revert p bm. induction fs as [|f fs IH]; intros p bm Hc; simpl.
  - unfold mret, M_ret. rewrite Z.add_0_r, insert_id by exact Hc. destruct bm; reflexivity.
  - unfold mbind, M_bind.
    assert (write_field c f bm =
      Ok tt (MkBufMan (write_bytes (bm_mem bm) p (field_bytes f))
                      (<[c := p + Z.of_nat (length (field_bytes f))]> (bm_cursors bm))
                      (bm_next_cursor bm))) as ->.
    { destruct f; simpl; unfold update_u16_with_cursor, update_u32_with_cursor,
        update_with_cursor; rewrite Hc; reflexivity. }
    rewrite (IH (p + Z.of_nat (length (field_bytes f)))) by (simpl; apply lookup_insert_eq). simpl.
    unfold fields_bytes. simpl. rewrite write_bytes_app, insert_insert_eq, length_app.
    f_equal. f_equal. f_equal. lia.
Qed.

Lemma read_fields_ok (c p : Z) (fs : list field) (ks : list field_kind) (bm : BufMan) :
  bm_cursors bm !! c = Some p ->
  holds (bm_mem bm) p (fields_bytes fs) ->
  Forall2 field_fits fs ks ->
  read_fields c ks bm = Ok (map field_value fs) (set_pos c (p + Z.of_nat (length (fields_bytes fs))) bm).
Proof.
  intros Hc Hh Hfit. revert p bm Hc Hh. induction Hfit as [|f k fs ks Hf Hfit IH]; intros p bm Hc Hh; simpl.
  - unfold mret, M_ret. unfold set_pos. rewrite Z.add_0_r, insert_id by exact Hc. destruct bm; reflexivity.
  - unfold fields_bytes in Hh. simpl in Hh. apply holds_app in Hh as [Hh1 Hh2].
    unfold mbind, M_bind.
    assert (read_field c k bm =
      Ok (field_value f) (set_pos c (p + Z.of_nat (length (field_bytes f))) bm)) as ->.
    { apply holds_read_bytes in Hh1. rewrite field_bytes_length in Hh1.
      destruct f as [v|v], k; cbn [field_fits field_bytes field_value read_field] in Hf, Hh1 |- *;
        try contradiction;
        unfold read_u16_with_cursor, read_u32_with_cursor, read_with_cursor, mbind, M_bind;
        rewrite Hc; rewrite Hh1;
        unfold mret, M_ret; rewrite le_value_le_bytes by (simpl; lia); reflexivity. }
    rewrite (IH (p + Z.of_nat (length (field_bytes f)))).
    + unfold mret, M_ret. rewrite set_pos_set_pos. unfold fields_bytes. simpl.
      rewrite length_app, Nat2Z.inj_add, Z.add_assoc. reflexivity.
    + unfold set_pos. simpl. apply lookup_insert_eq.
    + exact Hh2.
Qed.

Lemma bind_Ok {S A B} (m : M S A) (f : A -> M S B) (s : S) (a : A) (s' : S) :
  m s = Ok a s' -> (m ≫= f) s = f a s'.
Proof. intros H. unfold mbind, M_bind. rewrite H. reflexivity. Qed.

Lemma bind_Err {S A B} (m : M S A) (f : A -> M S B) (s : S) e (s' : S) :
  m s = Err e s' -> (m ≫= f) s = Err e s'.
Proof. intros H. unfold mbind, M_bind. rewrite H. reflexivity. Qed.

Lemma cursor_position_ok (c p : Z) (bm : BufMan) :
  bm_cursors bm !! c = Some p -> cursor_position c bm = Ok p bm.
Proof. intros H. unfold cursor_position. rewrite H. reflexivity. Qed.

Lemma seek_ok (c p a : Z) (bm : BufMan) :
  bm_cursors bm !! c = Some p -> seek_with_cursor c a bm = Ok tt (set_pos c a bm).
Proof. intros H. unfold seek_with_cursor. rewrite H. reflexivity. Qed.

Lemma update_u32_ok (c p v : Z) (bm : BufMan) :
  bm_cursors bm !! c = Some p ->
  update_u32_with_cursor c v bm =
    Ok tt (MkBufMan (write_bytes (bm_mem bm) p (le_bytes 4 v)) (<[c := p + 4]> (bm_cursors bm))
                    (bm_next_cursor bm)).
Proof. intros H. unfold update_u32_with_cursor, update_with_cursor. rewrite H. reflexivity. Qed.

Lemma read_u32_ok (c p v : Z) (bm : BufMan) :
  bm_cursors bm !! c = Some p -> holds (bm_mem bm) p (le_bytes 4 v) -> 0 <= v < 2 ^ 32 ->
  read_u32_with_cursor c bm = Ok v (set_pos c (p + 4) bm).
Proof.
  intros H Hh Hv. apply holds_read_bytes in Hh. rewrite le_bytes_length in Hh.
  unfold read_u32_with_cursor, read_with_cursor, mbind, M_bind. rewrite H, Hh.
  unfold mret, M_ret. rewrite le_value_le_bytes by (simpl; lia). reflexivity.
Qed.

Lemma set_pos_cursor (c a : Z) (bm : BufMan) : bm_cursors (set_pos c a bm) !! c = Some a.
Proof. apply lookup_insert_eq. Qed.

Lemma de_frame_refl (bm : BufMan) : de_frame bm bm.
Proof. split; auto. Qed.

Lemma de_frame_trans (bm1 bm2 bm3 : BufMan) : de_frame bm1 bm2 -> de_frame bm2 bm3 -> de_frame bm1 bm3.
Proof. intros [H1 H1'] [H2 H2']. split; [congruence|]. auto. Qed.

Lemma de_frame_set_pos (c a : Z) (bm : BufMan) : de_frame bm (set_pos c a bm).
Proof.
  split; [reflexivity|]. intros c' Hc'. unfold set_pos; simpl.
  destruct (decide (c = c')) as [->|Hne]; [rewrite lookup_insert_eq; eauto|].
  rewrite lookup_insert_ne by exact Hne. exact Hc'.
Qed.

Lemma as_u32_id (x : Z) : 0 <= x < 2 ^ 32 -> as_u32 x = x.
Proof. intros H. unfold as_u32. apply Z.mod_small. exact H. Qed.

Lemma chunk_list_concat {A} (cs : nat) : forall fuel (xs : list A),
  (0 < cs)%nat -> (length xs <= fuel)%nat -> concat (chunk_list cs fuel xs) = xs.
Proof.
  intros fuel. induction fuel as [|fuel IH]; intros xs Hcs Hlen.
  - destruct xs; simpl in *; [reflexivity | lia].
  - destruct xs as [|x xs']; [reflexivity|]. cbn [chunk_list concat].
    rewrite IH; [apply take_drop | exact Hcs |].
    rewrite length_drop. simpl in Hlen |- *. lia.
Qed.

Lemma chunk_list_Forall {A} (P : A -> Prop) (cs : nat) : forall fuel (xs : list A),
  Forall P xs -> Forall (fun ch => Forall P ch /\ (length ch <= cs)%nat) (chunk_list cs fuel xs).
Proof.
  intros fuel. induction fuel as [|fuel IH]; intros xs Hxs; [constructor|].
  destruct xs as [|x xs']; [constructor|]. cbn [chunk_list]. constructor.
  - split; [apply Forall_take, Hxs | rewrite length_take; lia].
  - apply IH, Forall_drop, Hxs.
Qed.

Lemma chunk_list_length {A} (cs : nat) : forall fuel (xs : list A),
  (length (chunk_list cs fuel xs) <= fuel)%nat.
Proof.
  intros fuel. induction fuel as [|fuel IH]; intros xs; [simpl; lia|].
  destruct xs; simpl; [lia|]. specialize (IH (drop cs (a :: xs))). lia.
Qed.

Lemma omap_lookup_seq {A} (l : list A) : forall n j,
  (length l <= j + n)%nat -> omap (fun i => l !! i) (seq j n) = drop j l.
Proof.
  intros n. induction n as [|n IH]; intros j Hlen.
  - simpl. symmetry. apply drop_ge. lia.
  - cbn [seq]. simpl. destruct (l !! j) as [x|] eqn:Hj.
    + rewrite IH by lia. symmetry. apply drop_S, Hj.
    + apply lookup_ge_None in Hj. rewrite IH by lia. rewrite !drop_ge by lia. reflexivity.
Qed.

(* ------------------------------------------------------------------ *)
(** ** The chunked format: serialize, then deserialize *)

Section ChunkedRoundTrip.
Context {E : Type}.
Variable CS : nat.
Variable W : Z.
Variable placeholder : list field.
Variable layout : list field_kind.
Variable ser_entry : E -> Z -> M BufMan (list field).
Variable de_entry : Z -> Z -> list Z -> M BufMan E.
Variable esize : E -> Z.
(** the entries the hypotheses below are about *)
Variable good : E -> Prop.

Local Abbreviation slot_holds := (slot_holds W layout).
Local Abbreviation entry_decodes := (entry_decodes de_entry esize).
Local Abbreviation slot_ok := (slot_ok W layout de_entry esize).
Local Abbreviation entries_size := (entries_size esize).
Local Abbreviation chunk_end := (chunk_end CS W esize).
Local Abbreviation chunk_ok := (chunk_ok CS W placeholder layout de_entry esize).
Local Abbreviation chain_end := (chain_end CS W esize).
Local Abbreviation chain_ok := (chain_ok CS W placeholder layout de_entry esize).

Hypothesis HCS : (0 < CS)%nat.
Hypothesis Hph_fit : Forall2 field_fits placeholder layout.
Hypothesis Hph_width : Z.of_nat (length (fields_bytes placeholder)) = W.
Hypothesis Hph_head : head (map field_value placeholder) = Some u32_MAX.
Hypothesis Hesize : forall e, good e -> 0 <= esize e.
(** an entry serialized at the cursor position [p] takes [esize e] bytes
    from [p] on, writes nothing else, and gives the fields of its slot,
    which deserialize to it from any file agreeing on those bytes *)
Hypothesis Hser : forall e, good e -> forall c bm p,
  bm_cursors bm !! c = Some p -> 0 <= p -> p + esize e < u32_MAX ->
  exists fs bm',
    ser_entry e c bm = Ok fs bm' /\
    bm_cursors bm' !! c = Some (p + esize e) /\
    unchanged_outside (bm_mem bm) (bm_mem bm') p (p + esize e) /\
    Forall2 field_fits fs layout /\
    Z.of_nat (length (fields_bytes fs)) = W /\
    head (map field_value fs) <> Some u32_MAX /\
    entry_decodes (bm_mem bm') p e (map field_value fs).

Lemma W_nonneg : 0 <= W.
Proof. rewrite <- Hph_width. lia. Qed.

Lemma entries_size_nonneg (es : list E) : Forall good es -> 0 <= entries_size es.
Proof.
  induction 1 as [|e es He _ IH]; simpl; [lia|]. pose proof (Hesize e He). lia.
Qed.

Lemma entry_decodes_frame (mem mem' : gmap Z Z) q e vals :
  entry_decodes mem q e vals -> agree_on mem mem' q (q + esize e) -> entry_decodes mem' q e vals.
Proof.
  intros H Hag vn vid bm2 Hag2. apply H. eapply agree_on_trans; eassumption.
Qed.

Lemma slot_holds_frame (mem mem' : gmap Z Z) a fs :
  slot_holds mem a fs -> agree_on mem mem' a (a + W) -> slot_holds mem' a fs.
Proof.
  intros (Hh & Hf & Hw) Hag. split; [|split; assumption].
  apply (holds_frame mem). exact Hh. rewrite Hw. exact Hag.
Qed.

Lemma slot_ok_frame (mem mem' : gmap Z Z) s lo hi i e :
  slot_ok mem s lo hi i e ->
  agree_on mem mem' (s + Z.of_nat i * W) (s + Z.of_nat i * W + W) ->
  agree_on mem mem' lo hi ->
  slot_ok mem' s lo hi i e.
Proof.
  intros (fs & q & Hs & Hhd & Hlo & Hhi & Hdec) Hag1 Hag2.
  exists fs, q. split; [eapply slot_holds_frame; eassumption|].
  split; [exact Hhd|]. split; [exact Hlo|]. split; [exact Hhi|].
  eapply entry_decodes_frame; [exact Hdec|]. eapply agree_on_sub; [exact Hag2| lia | lia].
Qed.

Lemma slot_ok_widen (mem : gmap Z Z) s lo hi lo' hi' i e :
  slot_ok mem s lo hi i e -> lo' <= lo -> hi <= hi' -> slot_ok mem s lo' hi' i e.
Proof.
  intros (fs & q & Hs & Hhd & Hlo & Hhi & Hdec) ? ?. exists fs, q.
  split; [exact Hs|]. split; [exact Hhd|]. split; [lia|]. split; [lia|]. exact Hdec.
Qed.

Lemma chunk_ok_frame (mem mem' : gmap Z Z) s ch link :
  Forall good ch -> (length ch <= CS)%nat ->
  chunk_ok mem s ch link -> agree_on mem mem' s (chunk_end s ch) -> chunk_ok mem' s ch link.
Proof.
  intros Hgood Hlen (Hslots & Hph & Hlink) Hag.
  pose proof W_nonneg. pose proof (entries_size_nonneg ch Hgood).
  assert (Hsl : forall i, (i < CS)%nat ->
            agree_on mem mem' (s + Z.of_nat i * W) (s + Z.of_nat i * W + W)).
  { intros i Hi. eapply agree_on_sub; [exact Hag| nia |].
    unfold chunk_end. nia. }
  split; [|split].
  - intros i e Hi. apply lookup_lt_Some in Hi as Hlt. pose proof (Hslots i e Hi) as Hok.
    eapply slot_ok_frame; [exact Hok | apply Hsl; lia |].
    eapply agree_on_sub; [exact Hag | nia | lia].
  - intros i Hi. eapply slot_holds_frame; [apply Hph, Hi|]. apply Hsl. lia.
  - eapply holds_frame; [exact Hlink|]. rewrite le_bytes_length.
    eapply agree_on_sub; [exact Hag | nia | unfold chunk_end; lia].
Qed.

Lemma ser_slots_spec (c s : Z) : forall es j bm p,
  Forall good es -> bm_cursors bm !! c = Some p -> 0 <= s ->
  s + Z.of_nat CS * W <= p -> (j + length es <= CS)%nat -> p + entries_size es < u32_MAX ->
  exists bm',
    ser_slots W ser_entry c s (Z.of_nat j) es bm = Ok tt bm' /\
    bm_cursors bm' !! c = Some (p + entries_size es) /\
    (forall x, x < s + Z.of_nat j * W \/ s + Z.of_nat (j + length es) * W <= x < p \/
               p + entries_size es <= x -> bm_mem bm' !! x = bm_mem bm !! x) /\
    (forall k e, es !! k = Some e -> slot_ok (bm_mem bm') s p (p + entries_size es) (j + k) e).
Proof.
  pose proof W_nonneg as HW.
  intros es. induction es as [|e es IH]; intros j bm p Hg Hc Hs Hp Hj Hb.
  - exists bm. simpl. rewrite Z.add_0_r. split; [reflexivity|]. split; [exact Hc|].
    split; [reflexivity|]. intros k e' Hk. rewrite lookup_nil in Hk. discriminate.
  - apply Forall_cons in Hg as [He Hg]. simpl in Hb, Hj.
    pose proof (Hesize e He) as Hse0. pose proof (entries_size_nonneg es Hg) as Hes0.
    destruct (Hser e He c bm p Hc ltac:(lia) ltac:(lia))
      as (fs & bm1 & Hse & Hc1 & Hun1 & Hfit & Hw & Hhd & Hdec).
    set (a := s + Z.of_nat j * W).
    set (bm2 := MkBufMan (write_bytes (bm_mem bm1) a (fields_bytes fs))
                  (<[c := a + Z.of_nat (length (fields_bytes fs))]> (bm_cursors (set_pos c a bm1)))
                  (bm_next_cursor bm1)).
    set (bm3 := set_pos c (p + esize e) bm2).
    assert (Hrun : ser_slots W ser_entry c s (Z.of_nat j) (e :: es) bm =
                   ser_slots W ser_entry c s (Z.of_nat (S j)) es bm3).
    { cbn [ser_slots]. rewrite (bind_Ok _ _ _ _ _ Hse). cbv beta zeta.
      rewrite (bind_Ok _ _ _ _ _ (cursor_position_ok _ _ _ Hc1)).
      rewrite (bind_Ok _ _ _ _ _ (seek_ok _ _ a _ Hc1)).
      rewrite (bind_Ok _ _ _ _ _ (write_fields_ok c a fs _ (set_pos_cursor c a bm1))).
      rewrite (bind_Ok _ _ _ _ _ (seek_ok _ _ (p + esize e) bm2 (lookup_insert_eq _ _ _))).
      f_equal. lia. }
    destruct (IH (S j) bm3 (p + esize e) Hg (set_pos_cursor _ _ _) Hs ltac:(lia) ltac:(lia) ltac:(lia))
      as (bm' & Hrun' & Hc' & Hun' & Hslots').
    assert (Hmem3 : bm_mem bm3 = write_bytes (bm_mem bm1) a (fields_bytes fs)) by reflexivity.
    assert (Hsz : entries_size (e :: es) = esize e + entries_size es) by reflexivity.
    exists bm'. rewrite Hrun, Hrun'. rewrite Hsz.
    split; [reflexivity|]. split; [rewrite Hc'; f_equal; lia|].
    assert (Hj1 : Z.of_nat j * W + W <= Z.of_nat (j + S (length es)) * W) by nia.
    assert (Hj2 : Z.of_nat j * W + W <= Z.of_nat CS * W) by nia.
    assert (Hj3 : Z.of_nat (S j + length es) = Z.of_nat (j + S (length es))) by lia.
    subst a. simpl length in *. rewrite Hj3 in Hun'.
    split; [|intros k e' Hk; destruct k as [|k]].
    + intros x Hx. rewrite Hun' by (simpl length in Hx |- *; lia). rewrite Hmem3.
      rewrite write_bytes_outside by (rewrite Hw; simpl length in Hx; lia).
      apply Hun1. simpl length in Hx. lia.
    + simpl in Hk. injection Hk as <-. rewrite Nat.add_0_r.
      exists fs, p. split; [|split; [exact Hhd|split; [lia|split; [lia|]]]].
      * split; [|split; assumption]. eapply holds_frame; [apply write_bytes_holds|].
        intros x Hx. rewrite Hun'; [rewrite Hmem3; reflexivity|]. rewrite Hw in Hx. left.
        rewrite Nat2Z.inj_succ. lia.
      * eapply entry_decodes_frame; [exact Hdec|]. intros x Hx.
        rewrite Hun' by (right; left; nia). rewrite Hmem3.
        apply write_bytes_outside. rewrite Hw. nia.
    + simpl in Hk. replace (j + S k)%nat with (S j + k)%nat by lia.
      eapply slot_ok_widen; [apply (Hslots' k e' Hk) | lia | lia].
Qed.

Lemma repeat_placeholders_spec (c : Z) : forall n bm p,
  bm_cursors bm !! c = Some p ->
  exists bm',
    repeat_m n (write_fields c placeholder) bm = Ok tt bm' /\
    bm_cursors bm' !! c = Some (p + Z.of_nat n * W) /\
    unchanged_outside (bm_mem bm) (bm_mem bm') p (p + Z.of_nat n * W) /\
    (forall i, (i < n)%nat -> slot_holds (bm_mem bm') (p + Z.of_nat i * W) placeholder).
Proof.
  pose proof W_nonneg as HW.
  intros n. induction n as [|n IH]; intros bm p Hc.
  - exists bm. simpl. rewrite Z.add_0_r. split; [reflexivity|]. split; [exact Hc|].
    split; [intros x _; reflexivity | intros i Hi; lia].
  - cbn [repeat_m]. rewrite (bind_Ok _ _ _ _ _ (write_fields_ok c p placeholder bm Hc)).
    rewrite Hph_width.
    set (bm1 := MkBufMan (write_bytes (bm_mem bm) p (fields_bytes placeholder))
                  (<[c := p + W]> (bm_cursors bm)) (bm_next_cursor bm)).
    destruct (IH bm1 (p + W) (lookup_insert_eq _ _ _)) as (bm' & Hrun & Hc' & Hun & Hsl).
    exists bm'. split; [exact Hrun|]. split; [rewrite Hc'; f_equal; lia|]. split.
    + intros x Hx. rewrite Hun by lia. simpl. apply write_bytes_outside. rewrite Hph_width. lia.
    + intros [|i] Hi.
      * rewrite Z.add_0_r. split; [|split; assumption].
        eapply holds_frame; [apply write_bytes_holds|]. intros x Hx. rewrite Hph_width in Hx.
        apply Hun. lia.
      * replace (p + Z.of_nat (S i) * W) with (p + W + Z.of_nat i * W) by lia. apply Hsl. lia.
Qed.

Lemma ser_chunk_spec (c s : Z) (ch : list E) (last : bool) (bm : BufMan) :
  bm_cursors bm !! c = Some s -> 0 <= s -> Forall good ch -> (length ch <= CS)%nat ->
  chunk_end s ch < u32_MAX ->
  exists bm',
    ser_chunk CS W placeholder ser_entry c ch last bm = Ok tt bm' /\
    bm_cursors bm' !! c = Some (chunk_end s ch) /\
    unchanged_outside (bm_mem bm) (bm_mem bm') s (chunk_end s ch) /\
    chunk_ok (bm_mem bm') s ch (if last then u32_MAX else chunk_end s ch).
Proof.
  intros Hc Hs Hg Hlen Hend.
  pose proof W_nonneg as HW. pose proof (entries_size_nonneg ch Hg) as Hsz.
  set (q := s + Z.of_nat CS * W).
  set (r := chunk_end s ch).
  assert (Hr : r = q + 4 + entries_size ch) by reflexivity.
  assert (Hq0 : 0 <= q) by (subst q; nia).
  set (link := if last then u32_MAX else r).
  destruct (repeat_placeholders_spec c CS bm s Hc) as (bm1 & Hrun1 & Hc1 & Hun1 & Hph1).
  fold q in Hc1, Hun1.
  set (bm2 := MkBufMan (write_bytes (bm_mem bm1) q (le_bytes 4 u32_MAX))
                (<[c := q + 4]> (bm_cursors bm1)) (bm_next_cursor bm1)).
  destruct (ser_slots_spec c s ch 0 bm2 (q + 4) Hg (lookup_insert_eq _ _ _) Hs
              ltac:(subst q; lia) ltac:(lia) ltac:(lia))
    as (bm3 & Hrun3 & Hc3 & Hun3 & Hslots3).
  change (Z.of_nat 0) with 0 in Hrun3. rewrite <- Hr in Hc3.
  set (bm4 := set_pos c q bm3).
  set (bm5 := MkBufMan (write_bytes (bm_mem bm4) q (le_bytes 4 link))
                (<[c := q + 4]> (bm_cursors bm4)) (bm_next_cursor bm4)).
  assert (Hupd : (if last then update_u32_with_cursor c u32_MAX
                  else update_u32_with_cursor c (as_u32 r)) bm4 = Ok tt bm5).
  { rewrite (as_u32_id r) by (unfold u32_MAX in Hend; lia).
    subst bm5 link. destruct last; apply update_u32_ok, set_pos_cursor. }
  exists (set_pos c r bm5).
  assert (Hmem5 : bm_mem (set_pos c r bm5) = write_bytes (bm_mem bm3) q (le_bytes 4 link))
    by reflexivity.
  split; [|split; [apply set_pos_cursor|split]].
  - unfold ser_chunk.
    rewrite (bind_Ok _ _ _ _ _ (cursor_position_ok _ _ _ Hc)). cbv beta zeta.
    rewrite (as_u32_id s) by (unfold u32_MAX in Hend; lia).
    rewrite (bind_Ok _ _ _ _ _ Hrun1).
    rewrite (bind_Ok _ _ _ _ _ (cursor_position_ok _ _ _ Hc1)). cbv beta zeta.
    rewrite (as_u32_id q) by (unfold u32_MAX in Hend; lia).
    rewrite (bind_Ok _ _ _ _ _ (update_u32_ok _ _ _ _ Hc1)). fold bm2.
    rewrite (bind_Ok _ _ _ _ _ Hrun3).
    rewrite (bind_Ok _ _ _ _ _ (cursor_position_ok _ _ _ Hc3)). cbv beta zeta.
    rewrite (bind_Ok _ _ _ _ _ (seek_ok _ _ q _ Hc3)). fold bm4.
    rewrite (bind_Ok _ _ _ _ _ Hupd).
    rewrite (as_u32_id r) by (unfold u32_MAX in Hend; lia).
    apply (seek_ok _ _ r bm5 (lookup_insert_eq _ _ _)).
  - intros x Hx. rewrite Hmem5.
    rewrite write_bytes_outside by (rewrite le_bytes_length; lia).
    rewrite Hun3 by (change (Z.of_nat 0) with 0; lia).
    unfold bm2; cbn [bm_mem]. rewrite write_bytes_outside by (rewrite le_bytes_length; lia).
    apply Hun1. lia.
  - split; [|split].
    + intros i e Hi. apply lookup_lt_Some in Hi as Hlt.
      assert (Hi1 : Z.of_nat i * W + W <= Z.of_nat CS * W) by nia.
      eapply slot_ok_frame; [apply (Hslots3 i e Hi)| |].
      * intros x Hx. rewrite Hmem5. apply write_bytes_outside. rewrite le_bytes_length. lia.
      * intros x Hx. rewrite Hmem5. apply write_bytes_outside. rewrite le_bytes_length. lia.
    + intros i Hi.
      assert (Hi1 : Z.of_nat i * W + W <= Z.of_nat CS * W) by nia.
      assert (Hi2 : Z.of_nat (length ch) * W <= Z.of_nat i * W) by nia.
      eapply slot_holds_frame; [apply (Hph1 i ltac:(lia))|].
      intros x Hx. rewrite Hmem5.
      rewrite write_bytes_outside by (rewrite le_bytes_length; lia).
      rewrite Hun3 by (change (0 + length ch)%nat with (length ch); lia).
      unfold bm2; cbn [bm_mem]. apply write_bytes_outside. rewrite le_bytes_length. lia.
    + fold q. rewrite Hmem5. apply write_bytes_holds.
Qed.

Lemma chain_end_ge : forall cs s,
  Forall (fun ch => Forall good ch /\ (length ch <= CS)%nat) cs -> s <= chain_end s cs.
Proof.
  pose proof W_nonneg as HW.
  intros cs. induction cs as [|ch rest IH]; intros s Hg; simpl; [lia|].
  apply Forall_cons in Hg as [[Hgch _] Hg]. pose proof (entries_size_nonneg ch Hgch).
  specialize (IH (chunk_end s ch) Hg). unfold chunk_end in *. nia.
Qed.

Lemma chain_ok_frame : forall cs (mem mem' : gmap Z Z) s,
  Forall (fun ch => Forall good ch /\ (length ch <= CS)%nat) cs ->
  chain_ok mem s cs -> agree_on mem mem' s (chain_end s cs) -> chain_ok mem' s cs.
Proof.
  pose proof W_nonneg as HW.
  intros cs. induction cs as [|ch rest IH]; intros mem mem' s Hg Hok Hag; [exact I|].
  apply Forall_cons in Hg as [[Hgch Hlen] Hg]. destruct Hok as [Hok1 Hok2].
  pose proof (chain_end_ge rest (chunk_end s ch) Hg) as Hge.
  pose proof (entries_size_nonneg ch Hgch).
  cbn [chain_end] in Hag. split.
  - eapply chunk_ok_frame; [exact Hgch | exact Hlen | exact Hok1 |].
    eapply agree_on_sub; [exact Hag | lia | lia].
  - eapply IH; [exact Hg | exact Hok2 |]. eapply agree_on_sub; [exact Hag | unfold chunk_end; nia | lia].
Qed.

Lemma ser_chunks_spec (c : Z) : forall cs bm s,
  bm_cursors bm !! c = Some s -> 0 <= s ->
  Forall (fun ch => Forall good ch /\ (length ch <= CS)%nat) cs ->
  chain_end s cs < u32_MAX ->
  exists bm',
    ser_chunks CS W placeholder ser_entry c cs bm = Ok tt bm' /\
    bm_cursors bm' !! c = Some (chain_end s cs) /\
    unchanged_outside (bm_mem bm) (bm_mem bm') s (chain_end s cs) /\
    chain_ok (bm_mem bm') s cs.
Proof.
  pose proof W_nonneg as HW.
  intros cs. induction cs as [|ch rest IH]; intros bm s Hc Hs Hg Hend.
  - exists bm. split; [reflexivity|]. split; [exact Hc|]. split; [intros x _; reflexivity | exact I].
  - apply Forall_cons in Hg as [[Hgch Hlen] Hg]. cbn [chain_end] in Hend |- *.
    pose proof (chain_end_ge rest (chunk_end s ch) Hg) as Hge.
    pose proof (entries_size_nonneg ch Hgch).
    destruct (ser_chunk_spec c s ch (match rest with [] => true | _ :: _ => false end) bm
                Hc Hs Hgch Hlen ltac:(lia)) as (bm1 & Hrun1 & Hc1 & Hun1 & Hok1).
    destruct (IH bm1 (chunk_end s ch) Hc1 ltac:(unfold chunk_end; nia) Hg Hend)
      as (bm' & Hrun' & Hc' & Hun' & Hok').
    exists bm'. cbn [ser_chunks]. rewrite (bind_Ok _ _ _ _ _ Hrun1).
    split; [exact Hrun'|]. split; [exact Hc'|]. split.
    + intros x Hx. rewrite Hun' by (unfold chunk_end in *; nia). apply Hun1. lia.
    + split; [|exact Hok'].
      eapply chunk_ok_frame; [exact Hgch | exact Hlen | |].
      * destruct rest; exact Hok1.
      * intros x Hx. apply Hun'. lia.
Qed.

Lemma chunks_concat (xs : list E) : concat (chunks CS xs) = xs.
Proof. unfold chunks. apply chunk_list_concat; [exact HCS | lia]. Qed.

Lemma chunks_good (xs : list E) : Forall good xs ->
  Forall (fun ch => Forall good ch /\ (length ch <= CS)%nat) (chunks CS xs).
Proof. apply chunk_list_Forall. Qed.

Lemma chunks_nonempty (xs : list E) : xs <> [] -> chunks CS xs <> [].
Proof. unfold chunks. destruct xs; [congruence|]. simpl. discriminate. Qed.

Lemma chunked_serialize_spec (c p : Z) (xs : list E) (bm : BufMan) :
  xs <> [] -> Forall good xs -> bm_cursors bm !! c = Some p -> 0 <= p ->
  chain_end p (chunks CS xs) < u32_MAX ->
  exists bm',
    chunked_serialize CS W placeholder ser_entry xs c bm = Ok p bm' /\
    unchanged_outside (bm_mem bm) (bm_mem bm') p (chain_end p (chunks CS xs)) /\
    chain_ok (bm_mem bm') p (chunks CS xs).
Proof.
  intros Hne Hg Hc Hp Hend.
  pose proof (chain_end_ge _ p (chunks_good xs Hg)) as Hge.
  destruct (ser_chunks_spec c (chunks CS xs) bm p Hc Hp (chunks_good xs Hg) Hend)
    as (bm' & Hrun & _ & Hun & Hok).
  exists bm'. split; [|split; assumption].
  destruct xs as [|x xs']; [congruence|]. unfold chunked_serialize. cbv iota.
  rewrite (bind_Ok _ _ _ _ _ (cursor_position_ok _ _ _ Hc)). cbv beta zeta.
  rewrite (bind_Ok _ _ _ _ _ Hrun).
  rewrite (as_u32_id p) by (unfold u32_MAX in Hend; lia). reflexivity.
Qed.

Lemma de_slots_spec (vn vid cd s lo hi : Z) (ch : list E) (mem : gmap Z Z) :
  (forall i e, ch !! i = Some e -> slot_ok mem s lo hi i e) ->
  (forall i, (length ch <= i < CS)%nat -> slot_holds mem (s + Z.of_nat i * W) placeholder) ->
  forall idx bm, bm_mem bm = mem -> is_Some (bm_cursors bm !! cd) ->
  Forall (fun i => (i < CS)%nat) idx ->
  exists bm',
    de_slots W layout de_entry vn vid cd s idx bm = Ok (omap (fun i => ch !! i) idx) bm' /\
    de_frame bm bm'.
Proof.
  intros Hsl Hph idx. induction idx as [|i idx IH]; intros bm Hmem [p Hc] Hidx.
  - exists bm. split; [reflexivity | apply de_frame_refl].
  - apply Forall_cons in Hidx as [Hi Hidx].
    cbn [de_slots]. rewrite (bind_Ok _ _ _ _ _ (seek_ok _ _ (s + Z.of_nat i * W) _ Hc)).
    cbv beta.
    set (bm1 := set_pos cd (s + Z.of_nat i * W) bm).
    assert (Hm1 : bm_mem bm1 = mem) by exact Hmem.
    destruct (ch !! i) as [e|] eqn:Hci.
    + destruct (Hsl i e Hci) as (fs & q & (Hh & Hf & Hw) & Hhd & Hlo & Hhi & Hdec).
      rewrite <- Hm1 in Hh.
      rewrite (bind_Ok _ _ _ _ _ (read_fields_ok cd _ fs layout bm1 (set_pos_cursor _ _ _) Hh Hf)).
      cbv beta.
      set (bm2 := set_pos cd (s + Z.of_nat i * W + Z.of_nat (length (fields_bytes fs))) bm1).
      assert (Hm2 : bm_mem bm2 = mem) by exact Hm1.
      rewrite bool_decide_false by exact Hhd.
      destruct (Hdec vn vid bm2 ltac:(intros x _; rewrite Hm2; reflexivity)) as (bm3 & Hde & Hfr3).
      rewrite (bind_Ok _ _ _ _ _ Hde).
      assert (Hfr23 : de_frame bm bm3).
      { eapply de_frame_trans; [apply de_frame_set_pos|].
        eapply de_frame_trans; [apply de_frame_set_pos| exact Hfr3]. }
      destruct (IH bm3 ltac:(destruct Hfr23 as [H _]; congruence)
                  ltac:(apply Hfr23; eexists; exact Hc) Hidx) as (bm' & Hrun & Hfr').
      rewrite (bind_Ok _ _ _ _ _ Hrun). exists bm'. split.
      * unfold mret, M_ret. simpl. rewrite Hci. reflexivity.
      * eapply de_frame_trans; eassumption.
    + apply lookup_ge_None in Hci.
      destruct (Hph i ltac:(lia)) as (Hh & Hf & Hw).
      rewrite <- Hm1 in Hh.
      rewrite (bind_Ok _ _ _ _ _ (read_fields_ok cd _ placeholder layout bm1 (set_pos_cursor _ _ _) Hh Hf)).
      cbv beta.
      set (bm2 := set_pos cd (s + Z.of_nat i * W + Z.of_nat (length (fields_bytes placeholder))) bm1).
      assert (Hm2 : bm_mem bm2 = mem) by exact Hm1.
      rewrite bool_decide_true by exact Hph_head.
      assert (Hfr2 : de_frame bm bm2).
      { eapply de_frame_trans; apply de_frame_set_pos. }
      destruct (IH bm2 Hm2 ltac:(apply Hfr2; eexists; exact Hc) Hidx) as (bm' & Hrun & Hfr').
      exists bm'. split.
      * rewrite Hrun. simpl. rewrite (proj2 (lookup_ge_None ch i)) by lia. reflexivity.
      * eapply de_frame_trans; eassumption.
Qed.

Lemma de_chunks_spec (vn vid cd : Z) (mem : gmap Z Z) : forall cs fuel s bm,
  bm_mem bm = mem -> is_Some (bm_cursors bm !! cd) -> chain_ok mem s cs -> cs <> [] ->
  (length cs <= fuel)%nat ->
  Forall (fun ch => Forall good ch /\ (length ch <= CS)%nat) cs -> 0 <= s ->
  chain_end s cs < u32_MAX ->
  exists bm',
    de_chunks CS W layout de_entry fuel vn vid cd s bm = Ok (concat cs) bm' /\ de_frame bm bm'.
Proof.
  pose proof W_nonneg as HW.
  intros cs. induction cs as [|ch rest IH]; intros fuel s bm Hmem Hc Hok Hne Hfuel Hg Hs Hend;
    [congruence|].
  destruct fuel as [|fuel]; [simpl in Hfuel; lia|].
  destruct Hok as [(Hsl & Hph & Hlink) Hok].
  apply Forall_cons in Hg as [[Hgch Hlen] Hg].
  pose proof (chain_end_ge rest (chunk_end s ch) Hg) as Hge.
  pose proof (entries_size_nonneg ch Hgch).
  cbn [chain_end] in Hend.
  cbn [de_chunks].
  destruct (de_slots_spec vn vid cd s _ _ ch mem Hsl Hph (seq 0 CS) bm Hmem Hc
              ltac:(apply Forall_seq; intros; lia)) as (bm1 & Hrun1 & Hfr1).
  rewrite (bind_Ok _ _ _ _ _ Hrun1). cbv beta.
  rewrite omap_lookup_seq by lia. rewrite drop_0.
  destruct (proj2 Hfr1 cd Hc) as [p1 Hc1].
  rewrite (bind_Ok _ _ _ _ _ (seek_ok _ _ (s + Z.of_nat CS * W) _ Hc1)). cbv beta.
  set (bm2 := set_pos cd (s + Z.of_nat CS * W) bm1).
  assert (Hm2 : bm_mem bm2 = mem) by (rewrite <- Hmem; exact (proj1 Hfr1)).
  rewrite <- Hm2 in Hlink.
  assert (Hfr2 : de_frame bm bm2) by (eapply de_frame_trans; [exact Hfr1 | apply de_frame_set_pos]).
  destruct rest as [|ch2 rest'].
  - rewrite (bind_Ok _ _ _ _ _ (read_u32_ok cd _ u32_MAX bm2 (set_pos_cursor _ _ _) Hlink
                                  ltac:(unfold u32_MAX; lia))).
    cbv beta. rewrite bool_decide_true by reflexivity.
    eexists. split.
    + unfold mret, M_ret. cbn [concat]. rewrite app_nil_r. reflexivity.
    + eapply de_frame_trans; [exact Hfr2 | apply de_frame_set_pos].
  - assert (Hr : 0 <= chunk_end s ch < 2 ^ 32) by (unfold u32_MAX in Hend; unfold chunk_end in *; nia).
    rewrite (bind_Ok _ _ _ _ _ (read_u32_ok cd _ (chunk_end s ch) bm2 (set_pos_cursor _ _ _) Hlink Hr)).
    cbv beta. rewrite bool_decide_false by (unfold u32_MAX in *; lia).
    set (bm3 := set_pos cd (s + Z.of_nat CS * W + 4) bm2).
    assert (Hfr3 : de_frame bm bm3) by (eapply de_frame_trans; [exact Hfr2 | apply de_frame_set_pos]).
    destruct (IH fuel (chunk_end s ch) bm3 ltac:(rewrite <- Hm2; reflexivity)
                ltac:(apply Hfr3; exact Hc) Hok ltac:(discriminate) ltac:(simpl in Hfuel |- *; lia)
                Hg ltac:(unfold chunk_end; nia) Hend) as (bm' & Hrun' & Hfr').
    rewrite (bind_Ok _ _ _ _ _ Hrun'). exists bm'. split; [reflexivity|].
    eapply de_frame_trans; eassumption.
Qed.

Lemma chunked_deserialize_spec (fuel : nat) (vn vid p0 : Z) (xs : list E) (bm : BufMan) :
  xs <> [] -> Forall good xs -> (length xs <= fuel)%nat -> 0 <= p0 ->
  chain_end p0 (chunks CS xs) < u32_MAX ->
  chain_ok (bm_mem bm) p0 (chunks CS xs) ->
  exists bm',
    chunked_deserialize CS W layout de_entry fuel (Valid (MkFileOffset p0) vn vid) bm = Ok xs bm'.
Proof.
  intros Hne Hg Hfuel Hp0 Hend Hok.
  pose proof (chain_end_ge _ p0 (chunks_good xs Hg)) as Hge.
  unfold chunked_deserialize. rewrite bool_decide_false by (unfold u32_MAX in *; lia).
  set (cd := bm_next_cursor bm).
  set (bm1 := MkBufMan (bm_mem bm) (<[cd := 0]> (bm_cursors bm)) (cd + 1)).
  assert (Ho : open_cursor bm = Ok cd bm1) by reflexivity.
  rewrite (bind_Ok _ _ _ _ _ Ho). cbv beta.
  rewrite (bind_Ok _ _ _ _ _ (seek_ok cd 0 p0 bm1 (lookup_insert_eq _ _ _))). cbv beta.
  assert (Hlen : (length (chunks CS xs) <= fuel)%nat)
    by (unfold chunks; pose proof (chunk_list_length CS (length xs) xs); lia).
  destruct (de_chunks_spec vn vid cd (bm_mem bm) (chunks CS xs) fuel p0 (set_pos cd p0 bm1)
              eq_refl ltac:(eexists; apply set_pos_cursor) Hok (chunks_nonempty xs Hne) Hlen
              (chunks_good xs Hg) Hp0 Hend) as (bm2 & Hrun2 & [_ Hc2]).
  rewrite (bind_Ok _ _ _ _ _ Hrun2). cbv beta. rewrite chunks_concat.
  destruct (Hc2 cd ltac:(eexists; apply set_pos_cursor)) as [p2 Hp2].
  unfold mbind, M_bind, close_cursor. rewrite Hp2. eexists. reflexivity.
Qed.

(** Serializing a non-empty collection at [p] writes the chain of chunks
    there, and deserializing from [p] on any file agreeing on those bytes
    gives the collection back. *)
Lemma chunked_round_trip (c p : Z) (xs : list E) (bm : BufMan) :
  xs <> [] -> Forall good xs -> bm_cursors bm !! c = Some p -> 0 <= p ->
  chain_end p (chunks CS xs) < u32_MAX ->
  exists bm',
    chunked_serialize CS W placeholder ser_entry xs c bm = Ok p bm' /\
    chain_ok (bm_mem bm') p (chunks CS xs) /\
    forall fuel vn vid bm2, (length xs <= fuel)%nat ->
      agree_on (bm_mem bm') (bm_mem bm2) p (chain_end p (chunks CS xs)) ->
      exists bm2',
        chunked_deserialize CS W layout de_entry fuel (Valid (MkFileOffset p) vn vid) bm2 = Ok xs bm2'.
Proof.
  intros Hne Hg Hc Hp Hend.
  destruct (chunked_serialize_spec c p xs bm Hne Hg Hc Hp Hend) as (bm' & Hrun & _ & Hok).
  exists bm'. split; [exact Hrun|]. split; [exact Hok|].
  intros fuel vn vid bm2 Hfuel Hag.
  apply chunked_deserialize_spec; try assumption.
  eapply chain_ok_frame; [apply chunks_good, Hg | exact Hok | exact Hag].
Qed.
End ChunkedRoundTrip.

(* ------------------------------------------------------------------ *)
(** ** [LazyItemVec]: the chunked format with 10-byte slots *)

Lemma vec_placeholder_fits : Forall2 field_fits vec_placeholder vec_layout.
Proof. repeat constructor; unfold u32_MAX, u16_MAX; simpl; lia. Qed.

Lemma vec_placeholder_width : Z.of_nat (length (fields_bytes vec_placeholder)) = 10.
Proof. reflexivity. Qed.

Lemma vec_placeholder_head : head (map field_value vec_placeholder) = Some u32_MAX.
Proof. reflexivity. Qed.

Lemma vec_ser_entry_ok {Item : Type} (item_serialize : Item -> Z -> M BufMan Z)
    (vn vid : Item -> Z) (item_deserialize : FileIndex -> M BufMan Item) (isize : Item -> Z)
    (x : Item) :
  item_round_trips item_serialize vn vid item_deserialize isize x ->
  forall c bm p, bm_cursors bm !! c = Some p -> 0 <= p -> p + isize x < u32_MAX ->
  exists fs bm',
    vec_ser_entry item_serialize vn vid x c bm = Ok fs bm' /\
    bm_cursors bm' !! c = Some (p + isize x) /\
    unchanged_outside (bm_mem bm) (bm_mem bm') p (p + isize x) /\
    Forall2 field_fits fs vec_layout /\
    Z.of_nat (length (fields_bytes fs)) = 10 /\
    head (map field_value fs) <> Some u32_MAX /\
    entry_decodes (vec_de_entry item_deserialize) isize (bm_mem bm') p x (map field_value fs).
Proof.
  intros (Hsz & Hvn & Hvid & Hser) c bm p Hc Hp Hend.
  destruct (Hser c bm p Hc Hp Hend) as (o & bm' & Hrun & Ho & Hc' & Hun & Hdec).
  exists [F32 o; F16 (vn x); F32 (vid x)], bm'.
  split; [unfold vec_ser_entry; rewrite (bind_Ok _ _ _ _ _ Hrun); reflexivity|].
  split; [exact Hc'|]. split; [exact Hun|].
  split; [repeat constructor; simpl; unfold u32_MAX in Ho; lia|].
  split; [unfold fields_bytes; cbn [map concat field_bytes];
          rewrite !length_app, !le_bytes_length; reflexivity|].
  split; [simpl; intros [= Heq]; lia|].
  intros vn' vid' bm2 Hag. exact (Hdec bm2 Hag).
Qed.

Lemma item_peek_round_trips (x : Z) :
  0 <= x < 2 ^ 32 -> item_round_trips item_ser item_vn item_vid item_peek (fun _ => 4) x.
Proof.
  intros Hx. split; [lia|]. split; [unfold item_vn; lia|]. split; [unfold item_vid; lia|].
  intros c bm p Hc Hp Hend.
  exists p, (MkBufMan (write_bytes (bm_mem bm) p (le_bytes 4 x)) (<[c := p + 4]> (bm_cursors bm))
               (bm_next_cursor bm)).
  split.
  { unfold item_ser. rewrite (bind_Ok _ _ _ _ _ (cursor_position_ok _ _ _ Hc)). cbv beta.
    rewrite (bind_Ok _ _ _ _ _ (update_u32_ok _ _ x _ Hc)).
    rewrite as_u32_id by (unfold u32_MAX in Hend; lia). reflexivity. }
  split; [unfold u32_MAX in *; lia|]. split; [apply lookup_insert_eq|]. split.
  { apply (write_bytes_outside (bm_mem bm) p (le_bytes 4 x)). }
  intros bm2 Hag. exists bm2. split; [|apply de_frame_refl].
  assert (Hh : holds (bm_mem bm2) p (le_bytes 4 x)).
  { eapply holds_frame; [apply write_bytes_holds|]. rewrite le_bytes_length. exact Hag. }
  apply holds_read_bytes in Hh. rewrite le_bytes_length in Hh.
  unfold item_peek. rewrite Hh. rewrite le_value_le_bytes by (simpl; lia). reflexivity.
Qed.

(** C5: a sequence whose items round-trip on their own round-trips.  The
    empty sequence serializes to the offset [u32::MAX] with the file and
    cursors untouched; a non-empty one serializes to the cursor position
    [p], where it leaves the chain of [CHUNK_SIZE]-slot chunks with
    10-byte slots, each chunk linked to the next and the last to
    [u32::MAX], and deserializing from [p] on any file agreeing on those
    bytes gives the sequence back; deserializing the offset [u32::MAX]
    gives the empty sequence. *)
Theorem lazy_item_vec_round_trip {Item : Type} (item_serialize : Item -> Z -> M BufMan Z)
    (vn vid : Item -> Z) (item_deserialize : FileIndex -> M BufMan Item) (isize : Item -> Z)
    (xs : list Item) (c p : Z) (bm : BufMan) :
  Forall (item_round_trips item_serialize vn vid item_deserialize isize) xs ->
  bm_cursors bm !! c = Some p -> 0 <= p ->
  chain_end CHUNK_SIZE 10 isize p (chunks CHUNK_SIZE xs) < u32_MAX ->
  (xs = [] -> LazyItemVec_serialize item_serialize vn vid xs c bm = Ok u32_MAX bm) /\
  (xs <> [] ->
   exists bm',
     LazyItemVec_serialize item_serialize vn vid xs c bm = Ok p bm' /\
     chain_ok CHUNK_SIZE 10 vec_placeholder vec_layout (vec_de_entry item_deserialize) isize
       (bm_mem bm') p (chunks CHUNK_SIZE xs) /\
     forall fuel vn' vid' bm2, (length xs <= fuel)%nat ->
       agree_on (bm_mem bm') (bm_mem bm2) p (chain_end CHUNK_SIZE 10 isize p (chunks CHUNK_SIZE xs)) ->
       exists bm2',
         LazyItemVec_deserialize item_deserialize fuel (Valid (MkFileOffset p) vn' vid') bm2 =
           Ok xs bm2') /\
  (forall fuel vn' vid' bm2,
     LazyItemVec_deserialize item_deserialize fuel (Valid (MkFileOffset u32_MAX) vn' vid') bm2 =
       Ok [] bm2).
Proof.
  intros Hall Hc Hp Hend. split; [|split].
  - intros ->. reflexivity.
  - intros Hne. unfold LazyItemVec_serialize, LazyItemVec_deserialize.
    eapply (chunked_round_trip CHUNK_SIZE 10 vec_placeholder vec_layout
              (vec_ser_entry item_serialize vn vid) (vec_de_entry item_deserialize) isize
              (item_round_trips item_serialize vn vid item_deserialize isize));
      try eassumption.
    + unfold CHUNK_SIZE. lia.
    + exact vec_placeholder_fits.
    + exact vec_placeholder_width.
    + exact vec_placeholder_head.
    + intros e (He & _). exact He.
    + intros e He. apply vec_ser_entry_ok, He.
  - intros fuel vn' vid' bm2. unfold LazyItemVec_deserialize, chunked_deserialize.
    rewrite bool_decide_true by reflexivity. reflexivity.
Qed.

Lemma lazy_item_vec_round_trip_witness :
  Forall (item_round_trips item_ser item_vn item_vid item_peek (fun _ => 4)) [1; 2; 3] /\
  bm_cursors bm0 !! 0 = Some 0 /\ 0 <= 0 /\
  chain_end CHUNK_SIZE 10 (fun _ => 4) 0 (chunks CHUNK_SIZE [1; 2; 3]) < u32_MAX /\
  (([1; 2; 3] : list Z) = [] ->
   LazyItemVec_serialize item_ser item_vn item_vid [1; 2; 3] 0 bm0 = Ok u32_MAX bm0) /\
  (([1; 2; 3] : list Z) <> [] ->
   exists bm',
     LazyItemVec_serialize item_ser item_vn item_vid [1; 2; 3] 0 bm0 = Ok 0 bm' /\
     chain_ok CHUNK_SIZE 10 vec_placeholder vec_layout (vec_de_entry item_peek) (fun _ => 4)
       (bm_mem bm') 0 (chunks CHUNK_SIZE [1; 2; 3]) /\
     forall fuel vn' vid' bm2, (length [1; 2; 3] <= fuel)%nat ->
       agree_on (bm_mem bm') (bm_mem bm2) 0
         (chain_end CHUNK_SIZE 10 (fun _ => 4) 0 (chunks CHUNK_SIZE [1; 2; 3])) ->
       exists bm2',
         LazyItemVec_deserialize item_peek fuel (Valid (MkFileOffset 0) vn' vid') bm2 =
           Ok [1; 2; 3] bm2') /\
  (forall fuel vn' vid' bm2,
     LazyItemVec_deserialize item_peek fuel (Valid (MkFileOffset u32_MAX) vn' vid') bm2 =
       Ok [] bm2).
Proof.
  assert (Hall : Forall (item_round_trips item_ser item_vn item_vid item_peek (fun _ => 4)) [1; 2; 3]).
  { do 3 (constructor; [apply item_peek_round_trips; lia|]). constructor. }
  assert (Hc : bm_cursors bm0 !! 0 = Some 0) by reflexivity.
  assert (Hend : chain_end CHUNK_SIZE 10 (fun _ => 4) 0 (chunks CHUNK_SIZE [1; 2; 3]) < u32_MAX)
    by (vm_compute; reflexivity).
  split; [exact Hall|]. split; [exact Hc|]. split; [lia|]. split; [exact Hend|].
  exact (lazy_item_vec_round_trip item_ser item_vn item_vid item_peek (fun _ => 4)
           [1; 2; 3] 0 0 bm0 Hall Hc ltac:(lia) Hend).
Defined.

(* ------------------------------------------------------------------ *)
(** ** [LazyItemMap]: the key tag *)

(** C4: the MSB tag does not separate the variants over the whole [u32]
    range: the key [Int(2^31)] is written as the [u32] [2^31], whose MSB is
    the string tag, so the map [{Int(2^31): 5}] serialized at offset 0
    deserializes to [{String(""): 5}]; below [2^31], [{Int(7): 5}] comes
    back unchanged. *)
Theorem map_int_key_with_msb_reads_as_string :
  value_of (LazyItemMap_serialize item_ser item_vn item_vid [(IMK_Int (2 ^ 31), 5)] 0 bm0) =
    Some 0 /\
  value_of (LazyItemMap_deserialize utf8_any item_de 1 (Valid (MkFileOffset 0) 0 0)
              (map_file (IMK_Int (2 ^ 31)))) = Some [(IMK_String [], 5)] /\
  value_of (LazyItemMap_serialize item_ser item_vn item_vid [(IMK_Int 7, 5)] 0 bm0) =
    Some 0 /\
  value_of (LazyItemMap_deserialize utf8_any item_de 1 (Valid (MkFileOffset 0) 0 0)
              (map_file (IMK_Int 7))) = Some [(IMK_Int 7, 5)].
Proof. split; [|split; [|split]]; vm_compute; reflexivity. Qed.

(* ------------------------------------------------------------------ *)
(** ** The cache keys *)

Lemma lor_disjoint (a b n : Z) :
  0 <= a -> 0 <= n -> 0 <= b < 2 ^ n -> Z.lor (a * 2 ^ n) b = a * 2 ^ n + b.
Proof.
  intros Ha Hn Hb.
  assert (Hland : Z.land (a * 2 ^ n) b = 0).
  { apply Z.bits_inj'. intros m Hm. rewrite Z.land_spec, Z.bits_0.
    destruct (Z.lt_ge_cases m n) as [Hlt | Hge].
    - rewrite <- Z.shiftl_mul_pow2 by lia. rewrite Z.shiftl_spec_low by lia. reflexivity.
    - rewrite <- (Z.mod_small b (2 ^ n)) by lia. rewrite Z.mod_pow2_bits_high by lia.
      apply andb_false_r. }
  rewrite <- (Z.lxor_lor _ _ Hland). rewrite <- (Z.add_nocarry_lxor _ _ Hland). reflexivity.
Qed.

Lemma key_u32_u32 (a b : Z) :
  0 <= a < 2 ^ 32 -> 0 <= b < 2 ^ 32 -> Z.lor (wrap64 (Z.shiftl a 32)) b = a * 2 ^ 32 + b.
Proof.
  intros Ha Hb. unfold wrap64. rewrite Z.shiftl_mul_pow2 by lia.
  rewrite Z.mod_small by lia. apply lor_disjoint; lia.
Qed.

Lemma dense_combine_index_valid (o vn v : Z) (lvl : bool) :
  0 <= o < 2 ^ 31 -> 0 <= v < 2 ^ 32 ->
  DenseIndexCache.combine_index (Valid (MkFileOffset o) vn v) lvl =
    o * 2 ^ 32 + v + (if lvl then 2 ^ 63 else 0).
Proof.
  intros Ho Hv. unfold DenseIndexCache.combine_index.
  rewrite key_u32_u32 by lia.
  destruct lvl.
  - rewrite Z.shiftl_1_l, Z.lor_comm.
    rewrite <- (Z.mul_1_l (2 ^ 63)). rewrite lor_disjoint by lia. lia.
  - rewrite Z.lor_0_r. lia.
Qed.

(** [NodeRegistry::combine_index] keys a valid index by its offset and
    version id alone: for [u32] offsets and version ids, two valid indices
    share a key exactly when their offsets and version ids are equal,
    whatever their version numbers. *)
Theorem node_registry_combine_index_injective (o1 vn1 v1 o2 vn2 v2 : Z) :
  0 <= o1 < 2 ^ 32 -> 0 <= v1 < 2 ^ 32 -> 0 <= o2 < 2 ^ 32 -> 0 <= v2 < 2 ^ 32 ->
  NodeRegistry.combine_index (Valid (MkFileOffset o1) vn1 v1) =
    NodeRegistry.combine_index (Valid (MkFileOffset o2) vn2 v2) <->
  o1 = o2 /\ v1 = v2.
Proof.
  intros H1 H2 H3 H4. cbn [NodeRegistry.combine_index].
  rewrite !key_u32_u32 by lia. split; [intros; lia | intros [-> ->]; reflexivity].
Qed.

Lemma node_registry_combine_index_injective_witness :
  (0 <= 5 < 2 ^ 32 /\ 0 <= 7 < 2 ^ 32 /\ 0 <= 5 < 2 ^ 32 /\ 0 <= 7 < 2 ^ 32) /\
  (NodeRegistry.combine_index (Valid (MkFileOffset 5) 1 7) =
     NodeRegistry.combine_index (Valid (MkFileOffset 5) 2 7) <-> 5 = 5 /\ 7 = 7).
Proof.
  split; [lia|].
  apply (node_registry_combine_index_injective 5 1 7 5 2 7); lia.
Defined.

(** [DenseIndexCache::combine_index] separates valid indices by offset,
    version id and level as long as the offsets are below [2^31]. *)
Theorem dense_combine_index_injective (o1 vn1 v1 o2 vn2 v2 : Z) (l1 l2 : bool) :
  0 <= o1 < 2 ^ 31 -> 0 <= v1 < 2 ^ 32 -> 0 <= o2 < 2 ^ 31 -> 0 <= v2 < 2 ^ 32 ->
  DenseIndexCache.combine_index (Valid (MkFileOffset o1) vn1 v1) l1 =
    DenseIndexCache.combine_index (Valid (MkFileOffset o2) vn2 v2) l2 <->
  o1 = o2 /\ v1 = v2 /\ l1 = l2.
Proof.
  intros H1 H2 H3 H4.
  rewrite !dense_combine_index_valid by lia.
  split.
  - intros Heq. destruct l1, l2; (split; [lia | split; [lia | try reflexivity]]); lia.
  - intros (-> & -> & ->). reflexivity.
Qed.

Lemma dense_combine_index_injective_witness :
  (0 <= 5 < 2 ^ 31 /\ 0 <= 7 < 2 ^ 32 /\ 0 <= 5 < 2 ^ 31 /\ 0 <= 7 < 2 ^ 32) /\
  (DenseIndexCache.combine_index (Valid (MkFileOffset 5) 1 7) true =
     DenseIndexCache.combine_index (Valid (MkFileOffset 5) 2 7) false <->
   5 = 5 /\ 7 = 7 /\ true = false).
Proof.
  split; [lia|].
  apply (dense_combine_index_injective 5 1 7 5 2 7 true false); lia.
Defined.

(** [DenseIndexCache::combine_index] puts the level flag on bit 63, which
    is also bit 31 of the offset: the non-level-0 index at offset
    [o + 2^31] and the level-0 index at offset [o] share a key, so
    [get_lazy_object] for the first returns the registry's entry of the
    second, without loading. *)
Theorem dense_combine_index_level_alias (o vn vn' v : Z) :
  0 <= o < 2 ^ 31 -> 0 <= v < 2 ^ 32 ->
  DenseIndexCache.combine_index (Valid (MkFileOffset (o + 2 ^ 31)) vn v) false =
    DenseIndexCache.combine_index (Valid (MkFileOffset o) vn' v) true /\
  forall {ProbNode : Type} deser fuel max_loads (st : DenseIndexCache.state ProbNode) sk item,
    DenseIndexCache.registry st !! DenseIndexCache.combine_index (Valid (MkFileOffset o) vn' v) true =
      Some item ->
    DenseIndexCache.get_lazy_object deser fuel (Valid (MkFileOffset (o + 2 ^ 31)) vn v) max_loads false
      (st, sk) = Ok item (st, sk).
Proof.
  intros Ho Hv.
  assert (Hkey : DenseIndexCache.combine_index (Valid (MkFileOffset (o + 2 ^ 31)) vn v) false =
                 DenseIndexCache.combine_index (Valid (MkFileOffset o) vn' v) true).
  { rewrite (dense_combine_index_valid o vn' v true) by lia.
    unfold DenseIndexCache.combine_index. rewrite key_u32_u32 by lia. rewrite Z.lor_0_r. lia. }
  split; [exact Hkey|].
  intros ProbNode deser fuel max_loads st sk item Hreg.
  unfold DenseIndexCache.get_lazy_object, DenseIndexCache.lookup_registry.
  unfold_M. rewrite Hkey, Hreg. reflexivity.
Qed.

Lemma dense_combine_index_level_alias_witness :
  (0 <= 5 < 2 ^ 31 /\ 0 <= 7 < 2 ^ 32) /\
  (DenseIndexCache.combine_index (Valid (MkFileOffset (5 + 2 ^ 31)) 1 7) false =
     DenseIndexCache.combine_index (Valid (MkFileOffset 5) 2 7) true /\
   forall {ProbNode : Type} deser fuel max_loads (st : DenseIndexCache.state ProbNode) sk item,
     DenseIndexCache.registry st !! DenseIndexCache.combine_index (Valid (MkFileOffset 5) 2 7) true =
       Some item ->
     DenseIndexCache.get_lazy_object deser fuel (Valid (MkFileOffset (5 + 2 ^ 31)) 1 7) max_loads false
       (st, sk) = Ok item (st, sk)).
Proof.
  split; [lia|].
  apply (dense_combine_index_level_alias 5 1 2 7); lia.
Defined.

(** [InvertedIndexCache::combine_index] separates [u8] data-file indices
    and [u32] offsets. *)
Theorem inverted_combine_index_injective (o1 i1 o2 i2 : Z) :
  0 <= o1 < 2 ^ 32 -> 0 <= i1 < 2 ^ 8 -> 0 <= o2 < 2 ^ 32 -> 0 <= i2 < 2 ^ 8 ->
  InvertedIndexCache.combine_index (MkFileOffset o1) i1 =
    InvertedIndexCache.combine_index (MkFileOffset o2) i2 <->
  o1 = o2 /\ i1 = i2.
Proof.
  intros H1 H2 H3 H4. unfold InvertedIndexCache.combine_index. cbn [fo_0].
  rewrite !key_u32_u32 by lia. split; [intros; lia | intros [-> ->]; reflexivity].
Qed.

Lemma inverted_combine_index_injective_witness :
  (0 <= 5 < 2 ^ 32 /\ 0 <= 1 < 2 ^ 8 /\ 0 <= 5 < 2 ^ 32 /\ 0 <= 2 < 2 ^ 8) /\
  (InvertedIndexCache.combine_index (MkFileOffset 5) 1 =
     InvertedIndexCache.combine_index (MkFileOffset 5) 2 <-> 5 = 5 /\ 1 = 2).
Proof.
  split; [lia|].
  apply (inverted_combine_index_injective 5 1 5 2); lia.
Defined.

(** The property keys of [DenseIndexCache::get_prop_key] and
    [InvertedIndexCache::get_prop_key] separate [u32] offsets and lengths:
    two locations share a key exactly when they are equal. *)
Theorem get_prop_key_injective (o1 l1 o2 l2 : Z) :
  0 <= o1 < 2 ^ 32 -> 0 <= l1 < 2 ^ 32 -> 0 <= o2 < 2 ^ 32 -> 0 <= l2 < 2 ^ 32 ->
  (DenseIndexCache.get_prop_key (MkFileOffset o1) l1 =
     DenseIndexCache.get_prop_key (MkFileOffset o2) l2 <-> o1 = o2 /\ l1 = l2) /\
  (InvertedIndexCache.get_prop_key (MkFileOffset o1) l1 =
     InvertedIndexCache.get_prop_key (MkFileOffset o2) l2 <-> o1 = o2 /\ l1 = l2).
Proof.
  intros H1 H2 H3 H4.
  unfold DenseIndexCache.get_prop_key, InvertedIndexCache.get_prop_key. cbn [fo_0].
  rewrite !key_u32_u32 by lia.
  split; (split; [intros; lia | intros [-> ->]; reflexivity]).
Qed.

Lemma get_prop_key_injective_witness :
  (0 <= 5 < 2 ^ 32 /\ 0 <= 9 < 2 ^ 32 /\ 0 <= 5 < 2 ^ 32 /\ 0 <= 10 < 2 ^ 32) /\
  ((DenseIndexCache.get_prop_key (MkFileOffset 5) 9 =
      DenseIndexCache.get_prop_key (MkFileOffset 5) 10 <-> 5 = 5 /\ 9 = 10) /\
   (InvertedIndexCache.get_prop_key (MkFileOffset 5) 9 =
      InvertedIndexCache.get_prop_key (MkFileOffset 5) 10 <-> 5 = 5 /\ 9 = 10)).
Proof.
  split; [lia|].
  apply (get_prop_key_injective 5 9 5 10); lia.
Defined.

(* ------------------------------------------------------------------ *)
(** ** [IdentityMapKey] and [LazyItemMap] round trips *)

Lemma MSB_val : MSB = 2 ^ 31.
Proof. reflexivity. Qed.

Lemma land_MSB_small (v : Z) : 0 <= v < 2 ^ 31 -> Z.land v MSB = 0.
Proof.
  intros Hv. rewrite MSB_val. apply Z.bits_inj'. intros m Hm.
  rewrite Z.land_spec, Z.bits_0, Z.pow2_bits_eqb by lia.
  destruct (Z.eqb_spec 31 m) as [<-|]; [|apply andb_false_r].
  rewrite <- (Z.mod_small v (2 ^ 31)) by lia. rewrite Z.mod_pow2_bits_high by lia. reflexivity.
Qed.

Lemma land_MSB_tag (n : Z) : Z.land (Z.lor MSB n) MSB = MSB.
Proof.
  apply Z.bits_inj'. intros m Hm. rewrite Z.land_spec, Z.lor_spec.
  destruct (Z.testbit MSB m), (Z.testbit n m); reflexivity.
Qed.

Lemma MSB_tag_val (n : Z) : 0 <= n < 2 ^ 31 -> Z.lor MSB n = 2 ^ 31 + n.
Proof.
  intros Hn. rewrite MSB_val. rewrite <- (Z.mul_1_l (2 ^ 31)). apply lor_disjoint; lia.
Qed.

Lemma MSB_tag_len (n : Z) : 0 <= n < 2 ^ 31 ->
  Z.shiftr (as_u32 (Z.shiftl (Z.lor MSB n) 1)) 1 = n.
Proof.
  intros Hn. rewrite MSB_tag_val by exact Hn. unfold as_u32.
  rewrite Z.shiftl_mul_pow2, Z.shiftr_div_pow2 by lia.
  replace ((2 ^ 31 + n) * 2 ^ 1) with (n * 2 + 1 * 2 ^ 32) by (cbn; lia).
  rewrite Z.mod_add by lia. rewrite Z.mod_small by lia.
  change (2 ^ 1) with 2. apply Z.div_mul. lia.
Qed.


Lemma key_encoding_length (key : IdentityMapKey) : Z.of_nat (length (key_encoding key)) = key_size key.
Proof. destruct key; cbn [key_encoding key_size]; rewrite ?length_app, le_bytes_length; lia. Qed.

Lemma key_ser_ok (from_utf8_ok : list Z -> bool) (key : IdentityMapKey) (c p : Z) (bm : BufMan) :
  key_fits from_utf8_ok key -> bm_cursors bm !! c = Some p -> 0 <= p ->
  p + key_size key <= 2 ^ 32 ->
  IdentityMapKey_serialize key c bm =
    Ok p (MkBufMan (write_bytes (bm_mem bm) p (key_encoding key))
                   (<[c := p + key_size key]> (bm_cursors bm)) (bm_next_cursor bm)).
Proof.
  intros Hfit Hc Hp Hend.
  assert (Hstart : as_u32 p = p) by (unfold key_size in Hend; unfold as_u32; apply Z.mod_small;
                                       destruct key; lia).
  unfold IdentityMapKey_serialize.
  rewrite (bind_Ok _ _ _ _ _ (cursor_position_ok c p bm Hc)). cbv beta. rewrite Hstart.
  destruct key as [bs | v]; cbn [key_fits key_size key_encoding] in *.
  - destruct Hfit as (Hbytes & Hlen & Hutf).
    assert (Hn : as_u32 (Z.of_nat (length bs)) = Z.of_nat (length bs))
      by (unfold as_u32; apply Z.mod_small; lia).
    rewrite Hn.
    unfold mbind, M_bind. rewrite (update_u32_ok c p _ bm Hc).
    unfold update_with_cursor. cbn [bm_cursors bm_mem bm_next_cursor].
    rewrite lookup_insert_eq. unfold mret, M_ret.
    rewrite write_bytes_app, le_bytes_length, insert_insert_eq.
    do 3 f_equal; lia.
  - unfold mbind, M_bind. rewrite (update_u32_ok c p v bm Hc). reflexivity.
Qed.

Lemma key_de_ok (from_utf8_ok : list Z -> bool) (key : IdentityMapKey) (p vn vid : Z) (bm2 : BufMan) :
  key_fits from_utf8_ok key -> holds (bm_mem bm2) p (key_encoding key) ->
  exists bm2',
    IdentityMapKey_deserialize from_utf8_ok (Valid (MkFileOffset p) vn vid) bm2 = Ok key bm2' /\
    bm_mem bm2' = bm_mem bm2 /\
    (forall c', c' <> bm_next_cursor bm2 -> bm_cursors bm2' !! c' = bm_cursors bm2 !! c') /\
    (forall v, key = IMK_Int v -> de_frame bm2 bm2').
Proof.
  intros Hfit Hh.
  set (c2 := bm_next_cursor bm2).
  set (bm2a := MkBufMan (bm_mem bm2) (<[c2 := 0]> (bm_cursors bm2)) (c2 + 1)).
  set (bm2b := set_pos c2 p bm2a).
  assert (Hopen : open_cursor bm2 = Ok c2 bm2a) by reflexivity.
  unfold IdentityMapKey_deserialize.
  rewrite (bind_Ok _ _ _ _ _ Hopen). cbv beta.
  rewrite (bind_Ok _ _ _ _ _ (seek_ok c2 0 p bm2a ltac:(apply lookup_insert_eq))). fold bm2b.
  destruct key as [bs | v]; cbn [key_fits key_encoding] in *.
  - destruct Hfit as (Hbytes & Hlen & Hutf).
    set (n := Z.of_nat (length bs)) in *.
    set (tag := Z.lor MSB n) in *.
    assert (Htag : 0 <= tag < 2 ^ 32) by (unfold tag; rewrite MSB_tag_val by lia; lia).
    apply holds_app in Hh as [Hh1 Hh2]. rewrite le_bytes_length in Hh2.
    change (p + Z.of_nat 4) with (p + 4) in Hh2.
    set (bm2c := set_pos c2 (p + 4) bm2b).
    set (bm2d := set_pos c2 (p + 4 + Z.of_nat (length bs)) bm2c).
    exists (MkBufMan (bm_mem bm2) (delete c2 (bm_cursors bm2d)) (bm_next_cursor bm2d)).
    split; [|split; [reflexivity|split]].
    + rewrite (bind_Ok _ _ _ _ _ (read_u32_ok c2 p tag bm2b (set_pos_cursor _ _ _) Hh1 Htag)). fold bm2c.
      cbv beta.
      rewrite bool_decide_false by (unfold tag; rewrite land_MSB_tag, MSB_val; lia).
      unfold tag. rewrite MSB_tag_len by lia. fold tag. unfold n. rewrite Nat2Z.id.
      assert (Hread : read_with_cursor c2 (length bs) bm2c = Ok bs bm2d).
      { unfold read_with_cursor, bm2c. rewrite set_pos_cursor.
        change (bm_mem (set_pos c2 (p + 4) bm2b)) with (bm_mem bm2).
        rewrite (holds_read_bytes _ _ _ Hh2). reflexivity. }
      rewrite (bind_Ok _ _ _ _ _ Hread). cbv beta. rewrite Hutf.
      unfold mbind, M_bind, close_cursor, bm2d. rewrite set_pos_cursor. reflexivity.
    + intros c' Hc'. cbn [bm_cursors]. rewrite lookup_delete_ne by congruence.
      unfold bm2d, bm2c, bm2b, bm2a, set_pos. cbn [bm_cursors].
      rewrite !lookup_insert_ne by congruence. reflexivity.
    + intros v Hv. discriminate.
  - assert (Hv : 0 <= v < 2 ^ 32) by lia.
    exists (set_pos c2 (p + 4) bm2b). split; [|split; [reflexivity|split]].
    + rewrite (bind_Ok _ _ _ _ _ (read_u32_ok c2 p v bm2b (set_pos_cursor _ _ _) Hh Hv)).
      cbv beta. rewrite land_MSB_small by lia. rewrite bool_decide_true by reflexivity. reflexivity.
    + intros c' Hc'. unfold bm2b, bm2a, set_pos. cbn [bm_cursors].
      rewrite !lookup_insert_ne by congruence. reflexivity.
    + intros v' _. split; [reflexivity|]. intros c' Hc'.
      unfold bm2b, bm2a, set_pos. cbn [bm_cursors].
      destruct (decide (c' = c2)) as [->|Hne].
      * rewrite lookup_insert_eq. eexists; reflexivity.
      * rewrite !lookup_insert_ne by congruence. exact Hc'.
Qed.

(** [IdentityMapKey::serialize] of a key that fits, at the cursor position
    [p], returns [p], moves the cursor past the key's bytes and writes
    nothing outside them; [IdentityMapKey::deserialize] from [p] on any file
    agreeing on those bytes gives the key back, reading the file without
    changing it or any cursor but the one it opens. *)
Theorem identity_map_key_round_trip (from_utf8_ok : list Z -> bool) (key : IdentityMapKey)
    (c p : Z) (bm : BufMan) :
  key_fits from_utf8_ok key -> bm_cursors bm !! c = Some p -> 0 <= p ->
  p + key_size key <= 2 ^ 32 ->
  exists bm',
    IdentityMapKey_serialize key c bm = Ok p bm' /\
    bm_cursors bm' !! c = Some (p + key_size key) /\
    unchanged_outside (bm_mem bm) (bm_mem bm') p (p + key_size key) /\
    forall bm2 vn vid, agree_on (bm_mem bm') (bm_mem bm2) p (p + key_size key) ->
      exists bm2',
        IdentityMapKey_deserialize from_utf8_ok (Valid (MkFileOffset p) vn vid) bm2 = Ok key bm2' /\
        bm_mem bm2' = bm_mem bm2 /\
        forall c', c' <> bm_next_cursor bm2 -> bm_cursors bm2' !! c' = bm_cursors bm2 !! c'.
Proof.
  intros Hfit Hc Hp Hend.
  eexists. split; [apply (key_ser_ok from_utf8_ok); eassumption|].
  cbn [bm_cursors bm_mem]. split; [apply lookup_insert_eq|]. split.
  { pose proof (write_bytes_outside (bm_mem bm) p (key_encoding key)) as H.
    rewrite key_encoding_length in H. exact H. }
  intros bm2 vn vid Hag.
  destruct (key_de_ok from_utf8_ok key p vn vid bm2 Hfit) as (bm2' & Hrun & Hmem & Hcur & _).
  { eapply holds_frame; [apply write_bytes_holds|]. rewrite key_encoding_length. exact Hag. }
  exists bm2'. split; [exact Hrun|]. split; assumption.
Qed.

Lemma identity_map_key_round_trip_witness :
  (key_fits utf8_any (IMK_String [104; 105]) /\ bm_cursors bm0 !! 0 = Some 0 /\ 0 <= 0 /\
   0 + key_size (IMK_String [104; 105]) <= 2 ^ 32) /\
  exists bm',
    IdentityMapKey_serialize (IMK_String [104; 105]) 0 bm0 = Ok 0 bm' /\
    bm_cursors bm' !! 0 = Some (0 + key_size (IMK_String [104; 105])) /\
    unchanged_outside (bm_mem bm0) (bm_mem bm') 0 (0 + key_size (IMK_String [104; 105])) /\
    forall bm2 vn vid, agree_on (bm_mem bm') (bm_mem bm2) 0 (0 + key_size (IMK_String [104; 105])) ->
      exists bm2',
        IdentityMapKey_deserialize utf8_any (Valid (MkFileOffset 0) vn vid) bm2 =
          Ok (IMK_String [104; 105]) bm2' /\
        bm_mem bm2' = bm_mem bm2 /\
        forall c', c' <> bm_next_cursor bm2 -> bm_cursors bm2' !! c' = bm_cursors bm2 !! c'.
Proof.
  assert (Hfit : key_fits utf8_any (IMK_String [104; 105])).
  { split; [do 2 (constructor; [lia|]); constructor | split; [simpl; lia | reflexivity]]. }
  assert (Hc : bm_cursors bm0 !! 0 = Some 0) by reflexivity.
  assert (Hend : 0 + key_size (IMK_String [104; 105]) <= 2 ^ 32) by (simpl; lia).
  split; [split; [exact Hfit | split; [exact Hc | split; [lia | exact Hend]]]|].
  exact (identity_map_key_round_trip utf8_any (IMK_String [104; 105]) 0 0 bm0 Hfit Hc ltac:(lia) Hend).
Defined.

Lemma IdentityMapKey_eqb_true (k1 k2 : IdentityMapKey) : IdentityMapKey_eqb k1 k2 = true <-> k1 = k2.
Proof.
  destruct k1, k2; cbn [IdentityMapKey_eqb]; rewrite ?bool_decide_eq_true;
    split; congruence.
Qed.

Lemma identity_map_insert_new {V} (k : IdentityMapKey) (v : V) (m : list (IdentityMapKey * V)) :
  k ∉ map fst m -> identity_map_insert k v m = m ++ [(k, v)].
Proof.
  induction m as [|[k' v'] m IH]; intros Hnot; [reflexivity|].
  cbn [identity_map_insert]. cbn [map fst] in Hnot.
  destruct (IdentityMapKey_eqb k k') eqn:E.
  - apply IdentityMapKey_eqb_true in E. subst. exfalso. apply Hnot. left.
  - rewrite IH; [reflexivity|]. intros Hin. apply Hnot. right. exact Hin.
Qed.

Lemma from_iter_fold_nodup {V} (l acc : list (IdentityMapKey * V)) :
  NoDup (map fst (acc ++ l)) ->
  fold_left (fun m kv => identity_map_insert kv.1 kv.2 m) l acc = acc ++ l.
Proof.
  revert acc. induction l as [|[k v] l IH]; intros acc Hnd; cbn [fold_left].
  - rewrite app_nil_r. reflexivity.
  - rewrite identity_map_insert_new.
    + cbn [fst snd]. rewrite IH; [rewrite <- app_assoc; reflexivity|].
      rewrite <- app_assoc. exact Hnd.
    + cbn [fst]. rewrite map_app in Hnd. cbn [map fst] in Hnd.
      apply NoDup_app in Hnd as (_ & Hdisj & _). intros Hin. apply (Hdisj k Hin). left.
Qed.

Lemma IdentityMap_from_iter_nodup {V} (l : list (IdentityMapKey * V)) :
  NoDup (map fst l) -> IdentityMap_from_iter l = l.
Proof. intros H. apply (from_iter_fold_nodup l []). exact H. Qed.

Lemma map_placeholder_fits : Forall2 field_fits map_placeholder map_layout.
Proof. repeat constructor; unfold u32_MAX, u16_MAX; simpl; lia. Qed.

Lemma map_placeholder_width : Z.of_nat (length (fields_bytes map_placeholder)) = 14.
Proof. reflexivity. Qed.

Lemma map_placeholder_head : head (map field_value map_placeholder) = Some u32_MAX.
Proof. reflexivity. Qed.

Section MapEntries.
Context {Item : Type}.
Variable from_utf8_ok : list Z -> bool.
Variable item_serialize : Item -> Z -> M BufMan Z.
Variables vn vid : Item -> Z.
Variable item_deserialize : FileIndex -> M BufMan Item.
Variable isize : Item -> Z.

Lemma map_ser_entry_int_ok (kv : IdentityMapKey * Item) :
  int_entry_ok item_serialize vn vid item_deserialize isize kv ->
  forall c bm p, bm_cursors bm !! c = Some p -> 0 <= p -> p + map_entry_size isize kv < u32_MAX ->
  exists fs bm',
    map_ser_entry item_serialize vn vid kv c bm = Ok fs bm' /\
    bm_cursors bm' !! c = Some (p + map_entry_size isize kv) /\
    unchanged_outside (bm_mem bm) (bm_mem bm') p (p + map_entry_size isize kv) /\
    Forall2 field_fits fs map_layout /\
    Z.of_nat (length (fields_bytes fs)) = 14 /\
    head (map field_value fs) <> Some u32_MAX /\
    entry_decodes (map_de_entry from_utf8_ok item_deserialize) (map_entry_size isize) (bm_mem bm') p kv
      (map field_value fs).
Proof.
  intros [(v & Hk & Hv) Hx] c bm p Hc Hp Hend.
  destruct kv as [k x]. unfold map_entry_size in *. cbn [fst snd] in *. subst k.
  unfold map_entry_size in *. cbn [fst snd key_size] in *.
  destruct Hx as (Hsz & Hvn & Hvid & Hser).
  assert (Hfit : key_fits from_utf8_ok (IMK_Int v)) by exact Hv.
  set (bm1 := MkBufMan (write_bytes (bm_mem bm) p (key_encoding (IMK_Int v)))
                       (<[c := p + 4]> (bm_cursors bm)) (bm_next_cursor bm)).
  assert (Hkey : IdentityMapKey_serialize (IMK_Int v) c bm = Ok p bm1).
  { apply (key_ser_ok from_utf8_ok); try assumption. simpl. unfold u32_MAX in Hend. lia. }
  destruct (Hser c bm1 (p + 4) (lookup_insert_eq _ _ _) ltac:(lia) ltac:(lia))
    as (o & bm' & Hrun & Ho & Hc' & Hun & Hdec).
  exists [F32 p; F32 o; F16 (vn x); F32 (vid x)], bm'.
  split.
  { unfold map_ser_entry. cbn [fst snd]. rewrite (bind_Ok _ _ _ _ _ Hkey). cbv beta.
    rewrite (bind_Ok _ _ _ _ _ Hrun). reflexivity. }
  split; [rewrite Hc'; f_equal; lia|].
  split.
  { intros y Hy. rewrite Hun by lia. unfold bm1. cbn [bm_mem].
    apply (write_bytes_outside (bm_mem bm) p (le_bytes 4 v)). rewrite le_bytes_length. lia. }
  split; [repeat constructor; simpl; unfold u32_MAX in *; lia|].
  split; [reflexivity|].
  split; [simpl; intros [= Heq]; unfold u32_MAX in *; lia|].
  intros vn' vid' bm2 Hag. cbn [map field_value] in *. cbn [fst snd key_size] in Hag.
  assert (Hh : holds (bm_mem bm2) p (key_encoding (IMK_Int v))).
  { apply (holds_frame (bm_mem bm1)); [apply write_bytes_holds|].
    cbn [key_encoding]. rewrite le_bytes_length. intros y Hy.
    rewrite Hag by lia. rewrite Hun by lia. reflexivity. }
  destruct (key_de_ok from_utf8_ok (IMK_Int v) p vn' vid' bm2 Hfit Hh)
    as (bm2k & Hrunk & Hmemk & _ & Hfr). specialize (Hfr v eq_refl).
  destruct (Hdec bm2k) as (bm2' & Hruni & Hfr').
  { intros y Hy. rewrite Hmemk. apply Hag. lia. }
  exists bm2'. split; [|eapply de_frame_trans; eassumption].
  unfold map_de_entry. rewrite (bind_Ok _ _ _ _ _ Hrunk). cbv beta.
  rewrite (bind_Ok _ _ _ _ _ Hruni). reflexivity.
Qed.
End MapEntries.

(** A non-empty map with distinct integer keys below [2^31] whose items
    round-trip on their own round-trips: [LazyItemMap::serialize] at the
    cursor position [p] returns [p] and writes nothing outside the chain of
    chunks it lays down, and [LazyItemMap::deserialize] from [p] on any file
    agreeing on that chain gives the same entries back, in the same order. *)
Theorem lazy_item_map_round_trip_int_keys {Item : Type} (from_utf8_ok : list Z -> bool)
    (item_serialize : Item -> Z -> M BufMan Z) (vn vid : Item -> Z)
    (item_deserialize : FileIndex -> M BufMan Item) (isize : Item -> Z)
    (m : list (IdentityMapKey * Item)) (c p : Z) (bm : BufMan) :
  Forall (int_entry_ok item_serialize vn vid item_deserialize isize) m ->
  NoDup (map fst m) -> m <> [] -> bm_cursors bm !! c = Some p -> 0 <= p ->
  chain_end CHUNK_SIZE 14 (map_entry_size isize) p (chunks CHUNK_SIZE m) < u32_MAX ->
  exists bm',
    LazyItemMap_serialize item_serialize vn vid m c bm = Ok p bm' /\
    unchanged_outside (bm_mem bm) (bm_mem bm') p
      (chain_end CHUNK_SIZE 14 (map_entry_size isize) p (chunks CHUNK_SIZE m)) /\
    forall fuel vn' vid' bm2, (length m <= fuel)%nat ->
      agree_on (bm_mem bm') (bm_mem bm2) p
        (chain_end CHUNK_SIZE 14 (map_entry_size isize) p (chunks CHUNK_SIZE m)) ->
      exists bm2',
        LazyItemMap_deserialize from_utf8_ok item_deserialize fuel (Valid (MkFileOffset p) vn' vid') bm2 =
          Ok m bm2'.
Proof.
  intros Hall Hnd Hne Hc Hp Hend.
  assert (HCS : (0 < CHUNK_SIZE)%nat) by (unfold CHUNK_SIZE; lia).
  assert (Hesz : forall e, int_entry_ok item_serialize vn vid item_deserialize isize e ->
                           0 <= map_entry_size isize e).
  { intros [k x] [(v & Hk & _) (Hx & _)]. unfold map_entry_size. cbn [fst snd] in *. subst k.
    simpl. lia. }
  pose proof (map_ser_entry_int_ok from_utf8_ok item_serialize vn vid item_deserialize isize) as Hser.
  destruct (chunked_round_trip CHUNK_SIZE 14 map_placeholder map_layout
              (map_ser_entry item_serialize vn vid) (map_de_entry from_utf8_ok item_deserialize)
              (map_entry_size isize) (int_entry_ok item_serialize vn vid item_deserialize isize)
              HCS map_placeholder_fits map_placeholder_width map_placeholder_head Hesz Hser
              c p m bm Hne Hall Hc Hp Hend) as (bm' & Hrun & _ & Hde).
  destruct (chunked_serialize_spec CHUNK_SIZE 14 map_placeholder map_layout
              (map_ser_entry item_serialize vn vid) (map_de_entry from_utf8_ok item_deserialize)
              (map_entry_size isize) (int_entry_ok item_serialize vn vid item_deserialize isize)
              HCS map_placeholder_fits map_placeholder_width Hesz Hser
              c p m bm Hne Hall Hc Hp Hend) as (bm'' & Hrun' & Hun & _).
  rewrite Hrun in Hrun'. injection Hrun' as <-.
  exists bm'. split; [exact Hrun|]. split; [exact Hun|].
  intros fuel vn' vid' bm2 Hfuel Hag.
  destruct (Hde fuel vn' vid' bm2 Hfuel Hag) as (bm2' & Hrun2).
  exists bm2'. unfold LazyItemMap_deserialize. rewrite (bind_Ok _ _ _ _ _ Hrun2).
  rewrite IdentityMap_from_iter_nodup by exact Hnd. reflexivity.
Qed.

Lemma lazy_item_map_round_trip_int_keys_witness :
  (Forall (int_entry_ok item_ser item_vn item_vid item_peek (fun _ => 4)) [(IMK_Int 1, 5); (IMK_Int 2, 6)] /\
   NoDup (map fst [(IMK_Int 1, 5); (IMK_Int 2, 6)]) /\ [(IMK_Int 1, 5); (IMK_Int 2, 6)] <> [] /\
   bm_cursors bm0 !! 0 = Some 0 /\ 0 <= 0 /\
   chain_end CHUNK_SIZE 14 (map_entry_size (fun _ => 4)) 0
     (chunks CHUNK_SIZE [(IMK_Int 1, 5); (IMK_Int 2, 6)]) < u32_MAX) /\
  exists bm',
    LazyItemMap_serialize item_ser item_vn item_vid [(IMK_Int 1, 5); (IMK_Int 2, 6)] 0 bm0 = Ok 0 bm' /\
    unchanged_outside (bm_mem bm0) (bm_mem bm') 0
      (chain_end CHUNK_SIZE 14 (map_entry_size (fun _ => 4)) 0
         (chunks CHUNK_SIZE [(IMK_Int 1, 5); (IMK_Int 2, 6)])) /\
    forall fuel vn' vid' bm2, (length [(IMK_Int 1, 5); (IMK_Int 2, 6)] <= fuel)%nat ->
      agree_on (bm_mem bm') (bm_mem bm2) 0
        (chain_end CHUNK_SIZE 14 (map_entry_size (fun _ => 4)) 0
           (chunks CHUNK_SIZE [(IMK_Int 1, 5); (IMK_Int 2, 6)])) ->
      exists bm2',
        LazyItemMap_deserialize utf8_any item_peek fuel (Valid (MkFileOffset 0) vn' vid') bm2 =
          Ok [(IMK_Int 1, 5); (IMK_Int 2, 6)] bm2'.
Proof.
  assert (Hall : Forall (int_entry_ok item_ser item_vn item_vid item_peek (fun _ => 4))
                   [(IMK_Int 1, 5); (IMK_Int 2, 6)]).
  { constructor; [split; [exists 1; split; [reflexivity | lia] | apply item_peek_round_trips; simpl; lia]|].
    constructor; [split; [exists 2; split; [reflexivity | lia] | apply item_peek_round_trips; simpl; lia]|].
    constructor. }
  assert (Hnd : NoDup (map fst [(IMK_Int 1, 5); (IMK_Int 2, 6)])).
  { cbn [map fst]. constructor; [|constructor; [|constructor]].
    - intros Hin. inversion Hin; subst; match goal with H : _ ∈ [] |- _ => inversion H end.
    - intros Hin. inversion Hin. }
  assert (Hne : [(IMK_Int 1, 5); (IMK_Int 2, 6)] <> []) by discriminate.
  assert (Hc : bm_cursors bm0 !! 0 = Some 0) by reflexivity.
  assert (Hend : chain_end CHUNK_SIZE 14 (map_entry_size (fun _ => 4)) 0
                   (chunks CHUNK_SIZE [(IMK_Int 1, 5); (IMK_Int 2, 6)]) < u32_MAX)
    by (vm_compute; reflexivity).
  split; [repeat split; assumption || lia|].
  exact (lazy_item_map_round_trip_int_keys utf8_any item_ser item_vn item_vid item_peek (fun _ => 4)
           _ 0 0 bm0 Hall Hnd Hne Hc ltac:(lia) Hend).
Defined.

(* ------------------------------------------------------------------ *)
(** ** What the cache loads return and keep *)

Ltac unfold_M_in H :=
  unfold mbind, M_bind, mret, M_ret, get_st, put_st, modify_st, throw, unwrap, panic, diverge in H.

Lemma dense_wait_loop_inl {P : Type} (fuel : nat) (k m : Z) (s s' : DenseIndexCache.state P * gset Z)
    (item : ProbLazyItem P) :
  DenseIndexCache.wait_loop fuel k m s = Ok (inl item) s' ->
  DenseIndexCache.registry s'.1 !! k = Some item.
Proof.
  revert m s. induction fuel as [|fuel IH]; intros m [st sk] H;
    cbn [DenseIndexCache.wait_loop] in H;
    unfold DenseIndexCache.lookup_registry, DenseIndexCache.load_complete,
      DenseIndexCache.get_or_create_mutex in H; unfold_M_in H; simpl in H.
  - destruct (DenseIndexCache.registry st !! k) eqn:E; [injection H as <- <-; exact E|].
    destruct (flag_of _ m); discriminate.
  - destruct (DenseIndexCache.registry st !! k) eqn:E; [injection H as <- <-; exact E|].
    destruct (flag_of _ m); [|discriminate].
    destruct (get_or_create _ _ k) as [[m' tbl] mx]. exact (IH _ _ H).
Qed.

Lemma dense_get_lazy_object_result {P : Type} deser fuel (fi : FileIndex) (ml : Z) (lvl : bool)
    (s s' : DenseIndexCache.state P * gset Z) (item : ProbLazyItem P) :
  DenseIndexCache.get_lazy_object deser fuel fi ml lvl s = Ok item s' ->
  (item = new_pending fi lvl /\ (ml = 0 \/ DenseIndexCache.combine_index fi lvl ∈ s.2)) \/
  DenseIndexCache.registry s'.1 !! DenseIndexCache.combine_index fi lvl = Some item.
Proof.
  intros H. destruct s as [st sk].
  unfold DenseIndexCache.get_lazy_object, DenseIndexCache.lookup_registry,
    DenseIndexCache.get_or_create_mutex in H.
  unfold_M_in H. simpl in H.
  destruct (DenseIndexCache.registry st !! _) eqn:E; [injection H as <- <-; right; exact E|].
  destruct (bool_decide (ml = 0)) eqn:Hml;
    [injection H as <- <-; left; split; [reflexivity | left; exact (bool_decide_eq_true_1 _ Hml)]|].
  destruct (bool_decide (_ ∈ sk)) eqn:Hsk;
    [injection H as <- <-; left; split; [reflexivity | right; exact (bool_decide_eq_true_1 _ Hsk)]|].
  destruct (get_or_create _ _ _) as [[m tbl] mx].
  destruct (DenseIndexCache.wait_loop _ _ _ _) as [[it|m'] s1|e s1| |] eqn:W; try discriminate.
  - injection H as <- <-. right. exact (dense_wait_loop_inl _ _ _ _ _ _ W).
  - destruct fi as [fo vn vid|]; simpl in H;
      (destruct (deser _ _ _ s1) as [d [s2 sk2]|e [s2 sk2]| |]; try discriminate;
       injection H as <- <-; right; simpl; apply lookup_insert_eq).
Qed.

(** [DenseIndexCache::get_lazy_object] returns either a pending
    placeholder, only when the budget is 0 or the key was on the skip set,
    or the item the registry holds under the key after the call, whatever
    the deserializer does. *)
Theorem dense_get_lazy_object_result_cached {P : Type} deser fuel (fi : FileIndex) (ml : Z)
    (lvl : bool) (s s' : DenseIndexCache.state P * gset Z) (item : ProbLazyItem P) :
  DenseIndexCache.get_lazy_object deser fuel fi ml lvl s = Ok item s' ->
  (item = new_pending fi lvl /\ (ml = 0 \/ DenseIndexCache.combine_index fi lvl ∈ s.2)) \/
  DenseIndexCache.registry s'.1 !! DenseIndexCache.combine_index fi lvl = Some item.
Proof. apply dense_get_lazy_object_result. Qed.

Lemma inverted_wait_loop_data_inl {D T : Type} (fuel : nat) (k m : Z)
    (s s' : InvertedIndexCache.state D T) (item : ProbLazyItem D) :
  InvertedIndexCache.wait_loop_data fuel k m s = Ok (inl item) s' ->
  InvertedIndexCache.data_registry s' !! k = Some item.
Proof.
  revert m s. induction fuel as [|fuel IH]; intros m s H;
    cbn [InvertedIndexCache.wait_loop_data] in H;
    unfold InvertedIndexCache.load_complete, InvertedIndexCache.get_or_create_data in H;
    unfold_M_in H; simpl in H.
  - destruct (InvertedIndexCache.data_registry s !! k) eqn:E; [injection H as <- <-; exact E|].
    destruct (flag_of _ m); discriminate.
  - destruct (InvertedIndexCache.data_registry s !! k) eqn:E; [injection H as <- <-; exact E|].
    destruct (flag_of _ m); [|discriminate].
    destruct (get_or_create _ _ k) as [[m' tbl] mx]. exact (IH _ _ H).
Qed.

Lemma inverted_wait_loop_sets_inl {D T : Type} (fuel : nat) (k m : Z)
    (s s' : InvertedIndexCache.state D T) (item : ProbLazyItem T) :
  InvertedIndexCache.wait_loop_sets fuel k m s = Ok (inl item) s' ->
  InvertedIndexCache.sets_registry s' !! k = Some item.
Proof.
  revert m s. induction fuel as [|fuel IH]; intros m s H;
    cbn [InvertedIndexCache.wait_loop_sets] in H;
    unfold InvertedIndexCache.load_complete, InvertedIndexCache.get_or_create_data in H;
    unfold_M_in H; simpl in H.
  - destruct (InvertedIndexCache.sets_registry s !! k) eqn:E; [injection H as <- <-; exact E|].
    destruct (flag_of _ m); discriminate.
  - destruct (InvertedIndexCache.sets_registry s !! k) eqn:E; [injection H as <- <-; exact E|].
    destruct (flag_of _ m); [|discriminate].
    destruct (get_or_create _ _ k) as [[m' tbl] mx]. exact (IH _ _ H).
Qed.

(** [InvertedIndexCache::get_data] never returns an item it leaves out of
    the cache: whatever the deserializer does, a successful call leaves the
    returned item in [data_registry] under [combine_index(offset, 0)]. *)
Theorem inverted_get_data_result_cached {D T : Type} (data_deserialize : FileOffset -> Z -> Z -> M (InvertedIndexCache.state D T) D)
    (parts : Z) (fuel : nat) (off : FileOffset) (idx : Z) (s s' : InvertedIndexCache.state D T)
    (item : ProbLazyItem D) :
  InvertedIndexCache.get_data data_deserialize parts fuel off idx s = Ok item s' ->
  InvertedIndexCache.data_registry s' !! InvertedIndexCache.combine_index off 0 = Some item.
Proof.
  intros H. unfold InvertedIndexCache.get_data, InvertedIndexCache.get_or_create_data in H.
  unfold_M_in H. simpl in H.
  destruct (InvertedIndexCache.data_registry s !! _) eqn:E; [injection H as <- <-; exact E|].
  destruct (get_or_create _ _ _) as [[m tbl] mx].
  destruct (InvertedIndexCache.wait_loop_data _ _ _ _) as [[it|m'] s1|e s1| |] eqn:W; try discriminate.
  - injection H as <- <-. exact (inverted_wait_loop_data_inl _ _ _ _ _ _ W).
  - destruct (data_deserialize _ _ _ s1) as [d s2|e s2| |]; try discriminate.
    injection H as <- <-. simpl. apply lookup_insert_eq.
Qed.

(** [InvertedIndexCache::get_sets] likewise leaves the item it returns in
    [sets_registry] under [combine_index(offset, 0)]. *)
Theorem inverted_get_sets_result_cached {D T : Type} (sets_deserialize : FileOffset -> Z -> Z -> M (InvertedIndexCache.state D T) T)
    (parts : Z) (fuel : nat) (off : FileOffset) (idx : Z) (s s' : InvertedIndexCache.state D T)
    (item : ProbLazyItem T) :
  InvertedIndexCache.get_sets sets_deserialize parts fuel off idx s = Ok item s' ->
  InvertedIndexCache.sets_registry s' !! InvertedIndexCache.combine_index off 0 = Some item.
Proof.
  intros H. unfold InvertedIndexCache.get_sets, InvertedIndexCache.get_or_create_data in H.
  unfold_M_in H. simpl in H.
  destruct (InvertedIndexCache.sets_registry s !! _) eqn:E; [injection H as <- <-; exact E|].
  destruct (get_or_create _ _ _) as [[m tbl] mx].
  destruct (InvertedIndexCache.wait_loop_sets _ _ _ _) as [[it|m'] s1|e s1| |] eqn:W; try discriminate.
  - injection H as <- <-. exact (inverted_wait_loop_sets_inl _ _ _ _ _ _ W).
  - repeat match type of H with
    | match ?x with Ok _ _ => _ | Err _ _ => _ | Panic => _ | Diverge => _ end = _ =>
        destruct x; try discriminate
    end.
    injection H as <- <-. simpl. apply lookup_insert_eq.
Qed.

(** When [DenseIndexCache::get_object] succeeds, the batch-load lock was
    not poisoned and the item returned is the one the registry holds under
    the key after the call, never a pending placeholder: [get_object]
    starts from an empty skip set and a budget of 1000 or 1. *)
Theorem dense_get_object_result_cached {P : Type} deser (fuel : nat) (lock : DenseIndexCache.TryLock)
    (fi : FileIndex) (lvl : bool) (s s' : DenseIndexCache.state P) (item : ProbLazyItem P) :
  DenseIndexCache.get_object deser fuel lock fi lvl s = Ok item s' ->
  lock <> DenseIndexCache.Poisoned /\
  DenseIndexCache.registry s' !! DenseIndexCache.combine_index fi lvl = Some item.
Proof.
  intros H. destruct lock; unfold DenseIndexCache.get_object, with_fresh_skipm in H;
    [| |discriminate].
  all: destruct (DenseIndexCache.get_lazy_object _ _ _ _ _ _) as [it [s1 sk1]|e [s1 sk1]| |] eqn:G;
    try discriminate; injection H as <- <-.
  all: split; [discriminate|].
  all: destruct (dense_get_lazy_object_result _ _ _ _ _ _ _ _ G) as [[_ [Hml|Hin]] | Hreg];
    [discriminate | set_solver | exact Hreg].
Qed.

(** [DenseIndexCache::force_load_single_object] loads without looking at
    the registry: it runs the deserializer with the budget 0 and the skip
    set holding only the key, returns the [Ready] item built from the
    index's offset, version id and version number, and stores it under the
    key, so a later [get_lazy_object] for the same index and level returns
    it without loading, leaving the cache and the skip set as they are. *)
Theorem dense_force_load_then_get {P : Type} deser (fi : FileIndex) (lvl : bool)
    (s s' : DenseIndexCache.state P) (item : ProbLazyItem P) :
  DenseIndexCache.force_load_single_object deser fi lvl s = Ok item s' ->
  (exists off vn vid d s1 sk1,
     fi = Valid off vn vid /\
     deser fi 0 lvl (s, {[DenseIndexCache.combine_index fi lvl]}) = Ok d (s1, sk1) /\
     item = new_from_state (PL_Ready d off vid vn) lvl) /\
  forall fuel ml sk,
    DenseIndexCache.get_lazy_object deser fuel fi ml lvl (s', sk) = Ok item (s', sk).
Proof.
  intros H. unfold DenseIndexCache.force_load_single_object, with_skipm in H.
  unfold_M_in H.
  destruct (deser fi 0 lvl (s, _)) as [d [s1 sk1]|e [s1 sk1]| |] eqn:D; try discriminate.
  destruct fi as [off vn vid|]; [|discriminate].
  injection H as <- <-.
  split; [exists off, vn, vid, d, s1, sk1; split; [reflexivity | split; [try exact D; reflexivity | reflexivity]]|].
  intros fuel ml sk.
  unfold DenseIndexCache.get_lazy_object, DenseIndexCache.lookup_registry. unfold_M.
  simpl. rewrite lookup_insert_eq. reflexivity.
Qed.

(** After [DenseIndexCache::insert_lazy_object(version, offset, item)],
    [get_lazy_object] for the non-level-0 index at [offset] with version id
    [version] returns [item] from the registry without loading, and, when
    the item holds a node, [get_prop] at the node's property location
    returns the node's property without reading the property file. *)
Theorem dense_insert_lazy_object_then_get {P NP : Type}
    (read_prop : FileOffset -> Z -> M (DenseIndexCache.props_cache P NP) NP)
    (get_lazy_data : ProbLazyItem P -> option P) (prop_location : P -> FileOffset * Z)
    (node_prop : P -> NP) deser (fuel : nat) (ml : Z) (sk : gset Z)
    (version offset vn : Z) (item : ProbLazyItem P) (s : DenseIndexCache.props_cache P NP) :
  exists s',
    DenseIndexCache.insert_lazy_object get_lazy_data prop_location node_prop version offset item s =
      Ok tt s' /\
    DenseIndexCache.get_lazy_object deser fuel (Valid (MkFileOffset offset) vn version) ml false
      (DenseIndexCache.cache s', sk) = Ok item (DenseIndexCache.cache s', sk) /\
    forall node, get_lazy_data item = Some node ->
      DenseIndexCache.get_prop read_prop (prop_location node).1 (prop_location node).2 s' =
        Ok (node_prop node) s'.
Proof.
  unfold DenseIndexCache.insert_lazy_object. unfold_M.
  destruct (get_lazy_data item) as [node|] eqn:Hd.
  - destruct (prop_location node) as [lo ll] eqn:Hl.
    eexists. split; [reflexivity|]. split.
    + unfold DenseIndexCache.get_lazy_object, DenseIndexCache.lookup_registry. unfold_M.
      cbn [DenseIndexCache.registry DenseIndexCache.cache fst].
      unfold DenseIndexCache.combine_index. rewrite Z.lor_0_r. cbn -[Z.lor wrap64 Z.shiftl].
      rewrite lookup_insert_eq. reflexivity.
    + intros node' Hn. injection Hn as <-. rewrite Hl. cbn [fst snd].
      unfold DenseIndexCache.get_prop. unfold_M. simpl. rewrite lookup_insert_eq. reflexivity.
  - eexists. split; [reflexivity|]. split.
    + unfold DenseIndexCache.get_lazy_object, DenseIndexCache.lookup_registry. unfold_M.
      cbn [DenseIndexCache.registry DenseIndexCache.cache fst].
      unfold DenseIndexCache.combine_index. rewrite Z.lor_0_r. cbn -[Z.lor wrap64 Z.shiftl].
      rewrite lookup_insert_eq. reflexivity.
    + intros node' Hn. discriminate.
Qed.

(** [DenseIndexCache::get_prop] reads a property at most once: after a
    successful call, the same call returns the same property from
    [props_registry] with the cache left unchanged. *)
Theorem dense_get_prop_dedup {P NP : Type}
    (read_prop : FileOffset -> Z -> M (DenseIndexCache.props_cache P NP) NP)
    (off : FileOffset) (len : Z) (s s' : DenseIndexCache.props_cache P NP) (p : NP) :
  DenseIndexCache.get_prop read_prop off len s = Ok p s' ->
  DenseIndexCache.get_prop read_prop off len s' = Ok p s'.
Proof.
  unfold DenseIndexCache.get_prop. unfold_M. intros H. simpl in H.
  destruct (DenseIndexCache.props_registry s !! _) as [[q|]|] eqn:E.
  - injection H as <- <-. rewrite E. reflexivity.
  - destruct (read_prop off len s) as [q s1|e s1| |]; try discriminate.
    injection H as <- <-. simpl. rewrite lookup_insert_eq. reflexivity.
  - destruct (read_prop off len s) as [q s1|e s1| |]; try discriminate.
    injection H as <- <-. simpl. rewrite lookup_insert_eq. reflexivity.
Qed.

Lemma ceil_div_lt (i x ns : Z) :
  0 < ns -> 0 <= x -> 0 <= i -> (i * ns < x <-> i < (x + ns - 1) / ns).
Proof.
  intros Hns Hx Hi.
  pose proof (Z.div_mod (x + ns - 1) ns ltac:(lia)) as Hdm.
  pose proof (Z.mod_pos_bound (x + ns - 1) ns Hns) as Hb.
  set (q := (x + ns - 1) / ns) in *. set (r := (x + ns - 1) mod ns) in *.
  split; intros H; nia.
Qed.

Section LoadRegion.
Context {P : Type}.
Variable deser : FileIndex -> Z -> bool -> M (DenseIndexCache.state P * gset Z) P.
Hypothesis Hdes : forall fi lvl s sk, exists d s1 sk1, deser fi 0 lvl (s, sk) = Ok d (s1, sk1).

Lemma force_load_valid_ok (off vn vid : Z) (lvl : bool) (s : DenseIndexCache.state P) :
  exists d s1,
    DenseIndexCache.force_load_single_object deser (Valid (MkFileOffset off) vn vid) lvl s =
      Ok (new_from_state (PL_Ready d (MkFileOffset off) vid vn) lvl) s1.
Proof.
  destruct (Hdes (Valid (MkFileOffset off) vn vid) lvl s
              {[DenseIndexCache.combine_index (Valid (MkFileOffset off) vn vid) lvl]})
    as (d & s1 & sk1 & D).
  exists d. eexists. unfold DenseIndexCache.force_load_single_object, with_skipm.
  unfold_M. rewrite D. reflexivity.
Qed.

Lemma load_region_loop_spec (rs vn vid ns fs : Z) (lvl : bool) :
  0 < ns -> 0 <= rs <= fs -> rs + 999 * ns <= u32_MAX ->
  forall m k s, (k + m <= 1000)%nat ->
  exists nodes s',
    DenseIndexCache.load_region_loop deser rs vn vid ns fs lvl (map Z.of_nat (seq k m)) s =
      Ok nodes s' /\
    length nodes = Nat.min m (Z.to_nat ((fs - rs + ns - 1) / ns) - k) /\
    forall j node, nodes !! j = Some node ->
      exists d, node = new_from_state
                  (PL_Ready d (MkFileOffset (Z.of_nat (k + j) * ns + rs)) vid vn) lvl.
Proof.
  intros Hns Hrs Hbound m. induction m as [|m IH]; intros k s Hkm.
  - exists [], s. split; [reflexivity|]. split; [cbn [length]; lia|]. intros j node Hj. discriminate.
  - cbn [seq map DenseIndexCache.load_region_loop].
    assert (Hk : Z.of_nat k * ns + rs <= u32_MAX) by nia.
    rewrite bool_decide_false by lia.
    pose proof (ceil_div_lt (Z.of_nat k) (fs - rs) ns Hns ltac:(lia) ltac:(lia)) as Hc.
    assert (Hc0 : 0 <= (fs - rs + ns - 1) / ns) by (apply Z.div_pos; lia).
    remember ((fs - rs + ns - 1) / ns) as c eqn:Ec.
    destruct (bool_decide (fs <= Z.of_nat k * ns + rs)) eqn:Hend.
    + apply bool_decide_eq_true_1 in Hend.
      assert (c <= Z.of_nat k) by (destruct (Z.lt_ge_cases (Z.of_nat k) c) as [Hl|Hl];
                                    [apply Hc in Hl; lia | lia]).
      exists [], s. split; [reflexivity|]. split; [cbn [length]; lia|]. intros j node Hj. discriminate.
    + apply bool_decide_eq_false_1 in Hend.
      assert (Z.of_nat k < c) by (apply Hc; lia).
      destruct (force_load_valid_ok (Z.of_nat k * ns + rs) vn vid lvl s) as (d & s1 & F).
      destruct (IH (S k) s1 ltac:(lia)) as (nodes & s' & R & Hlen & Hnodes).
      exists (new_from_state (PL_Ready d (MkFileOffset (Z.of_nat k * ns + rs)) vid vn) lvl :: nodes), s'.
      split.
      { rewrite (bind_Ok _ _ _ _ _ F). cbv beta. rewrite (bind_Ok _ _ _ _ _ R). reflexivity. }
      split; [cbn [length]; rewrite Hlen; lia|].
      intros [|j] node Hj.
      * injection Hj as <-. exists d. rewrite Nat.add_0_r. reflexivity.
      * destruct (Hnodes j node Hj) as (d' & ->). exists d'. do 4 f_equal. lia.
Qed.
End LoadRegion.

(** [DenseIndexCache::load_region] over a region starting in the file, with
    a positive node size, offsets that stay within [u32] and a node
    deserializer that succeeds, returns [min(1000, ceil((file_size -
    region_start) / node_size))] nodes, the [j]-th one the [Ready] node at
    offset [j * node_size + region_start] with the given version id and
    version number. *)
Theorem dense_load_region_nodes {P : Type} deser file_size (rs vn vid ns fs : Z) (lvl : bool)
    (s s1 : DenseIndexCache.state P) :
  (forall fi lvl' s' sk, exists d s2 sk2, deser fi 0 lvl' (s', sk) = Ok d (s2, sk2)) ->
  file_size lvl vid s = Ok fs s1 ->
  0 < ns -> 0 <= rs <= fs -> rs + 999 * ns <= u32_MAX ->
  exists nodes s',
    DenseIndexCache.load_region deser file_size rs vn vid ns lvl s = Ok nodes s' /\
    length nodes = Nat.min 1000 (Z.to_nat ((fs - rs + ns - 1) / ns)) /\
    forall j node, nodes !! j = Some node ->
      exists d, node = new_from_state
                  (PL_Ready d (MkFileOffset (Z.of_nat j * ns + rs)) vid vn) lvl.
Proof.
  intros Hdes Hfs Hns Hrs Hbound.
  destruct (load_region_loop_spec deser Hdes rs vn vid ns fs lvl Hns Hrs Hbound 1000 0 s1 ltac:(lia))
    as (nodes & s' & R & Hlen & Hnodes).
  exists nodes, s'. split; [|split].
  - unfold DenseIndexCache.load_region. rewrite (bind_Ok _ _ _ _ _ Hfs). cbv beta.
    rewrite bool_decide_false by lia. rewrite bool_decide_false by lia. exact R.
  - rewrite Hlen. lia.
  - exact Hnodes.
Qed.

Lemma chunk_list_count {A} (cs : nat) : (0 < cs)%nat -> forall fuel (xs : list A),
  (length xs <= fuel)%nat -> length (chunk_list cs fuel xs) = ((length xs + cs - 1) / cs)%nat.
Proof.
  intros Hcs fuel. induction fuel as [|fuel IH]; intros xs Hlen.
  - destruct xs; simpl in *; [|lia]. symmetry. apply Nat.div_small. lia.
  - destruct xs as [|x xs']; [simpl; symmetry; apply Nat.div_small; lia|].
    cbn [chunk_list length]. rewrite IH by (rewrite length_drop; simpl in *; lia).
    rewrite length_drop. cbn [length].
    replace (S (length xs') + cs - 1)%nat with (length xs' + 1 * cs)%nat by lia.
    rewrite Nat.div_add by lia.
    destruct (Nat.le_gt_cases (S (length xs')) cs).
    + replace (S (length xs') - cs + cs - 1)%nat with (cs - 1)%nat by lia.
      rewrite !Nat.div_small by lia. reflexivity.
    + replace (S (length xs') - cs + cs - 1)%nat with (length xs') by lia. lia.
Qed.

Lemma entries_size_app {E} (f : E -> Z) (l1 l2 : list E) :
  entries_size f (l1 ++ l2) = entries_size f l1 + entries_size f l2.
Proof. unfold entries_size. rewrite fold_right_app. induction l1; simpl; [reflexivity|]. lia. Qed.

Lemma chain_end_eq {E} (CS : nat) (W : Z) (f : E -> Z) : forall cs s,
  chain_end CS W f s cs =
    s + Z.of_nat (length cs) * (Z.of_nat CS * W + 4) + entries_size f (concat cs).
Proof.
  intros cs. induction cs as [|ch cs IH]; intros s; [simpl; lia|].
  cbn [chain_end length concat]. rewrite IH, entries_size_app. unfold chunk_end. lia.
Qed.

(** [LazyItemVec::serialize] of a non-empty sequence whose items round-trip
    on their own, at the cursor position [p], leaves the cursor at [p +
    2564 * ceil(n / 256) + s], where [n] is the number of items and [s] the
    bytes the items take: [2564] bytes for each chunk of 256 ten-byte slots
    and its link, then the items; it changes no byte outside that range. *)
Theorem lazy_item_vec_serialize_footprint {Item : Type} (item_serialize : Item -> Z -> M BufMan Z)
    (vn vid : Item -> Z) (item_deserialize : FileIndex -> M BufMan Item) (isize : Item -> Z)
    (xs : list Item) (c p : Z) (bm : BufMan) :
  xs <> [] -> Forall (item_round_trips item_serialize vn vid item_deserialize isize) xs ->
  bm_cursors bm !! c = Some p -> 0 <= p ->
  p + Z.of_nat ((length xs + 255) / 256) * 2564 + entries_size isize xs < u32_MAX ->
  exists bm',
    LazyItemVec_serialize item_serialize vn vid xs c bm = Ok p bm' /\
    bm_cursors bm' !! c = Some (p + Z.of_nat ((length xs + 255) / 256) * 2564 + entries_size isize xs) /\
    unchanged_outside (bm_mem bm) (bm_mem bm') p
      (p + Z.of_nat ((length xs + 255) / 256) * 2564 + entries_size isize xs).
Proof.
  intros Hne Hall Hc Hp Hend.
  assert (HCS : (0 < CHUNK_SIZE)%nat) by (unfold CHUNK_SIZE; lia).
  assert (Heq : chain_end CHUNK_SIZE 10 isize p (chunks CHUNK_SIZE xs) =
                p + Z.of_nat ((length xs + 255) / 256) * 2564 + entries_size isize xs).
  { rewrite chain_end_eq. unfold chunks. rewrite chunk_list_concat by (assumption || lia).
    rewrite chunk_list_count by (assumption || lia). unfold CHUNK_SIZE.
    replace (length xs + 256 - 1)%nat with (length xs + 255)%nat by lia. lia. }
  rewrite <- Heq in Hend |- *.
  destruct (ser_chunks_spec CHUNK_SIZE 10 vec_placeholder vec_layout
              (vec_ser_entry item_serialize vn vid) (vec_de_entry item_deserialize) isize
              (item_round_trips item_serialize vn vid item_deserialize isize)
              HCS vec_placeholder_fits vec_placeholder_width
              (fun e He => proj1 He) (fun e He => vec_ser_entry_ok _ _ _ _ _ e He)
              c (chunks CHUNK_SIZE xs) bm p Hc Hp (chunks_good CHUNK_SIZE _ xs Hall) Hend)
    as (bm' & Hrun & Hc' & Hun & _).
  pose proof (chain_end_ge CHUNK_SIZE 10 vec_placeholder isize _ HCS vec_placeholder_width
                (fun e He => proj1 He) (chunks CHUNK_SIZE xs) p (chunks_good CHUNK_SIZE _ xs Hall)) as Hge.
  exists bm'. split; [|split; assumption].
  destruct xs as [|x xs']; [congruence|].
  unfold LazyItemVec_serialize, chunked_serialize. cbv iota.
  rewrite (bind_Ok _ _ _ _ _ (cursor_position_ok _ _ _ Hc)). cbv beta zeta.
  rewrite (bind_Ok _ _ _ _ _ Hrun).
  rewrite (as_u32_id p) by (unfold u32_MAX in Hend; lia).
  reflexivity.
Qed.

(** Witnesses of the theorems above, on the fixtures. *)
Ltac exists_ok :=
  lazymatch goal with
  | |- exists a b, ?e = Ok a b /\ _ =>
      let x := fresh "x" in let y := fresh "y" in let E := fresh "E" in
      destruct e as [x y|x y| |] eqn:E;
      [exists x, y; split; [reflexivity|] | vm_compute in E; discriminate ..]
  end.

Lemma dense_get_lazy_object_result_cached_witness :
  exists item s',
    DenseIndexCache.get_lazy_object dense_ok 3 fi0 2 false (dense0, ∅) = Ok item s' /\
    ((item = new_pending fi0 false /\ (2 = 0 \/ DenseIndexCache.combine_index fi0 false ∈ (dense0, ∅ : gset Z).2)) \/
     DenseIndexCache.registry s'.1 !! DenseIndexCache.combine_index fi0 false = Some item).
Proof.
  exists_ok.
  apply (dense_get_lazy_object_result_cached dense_ok 3 fi0 2 false (dense0, ∅)). exact E.
Defined.

Lemma inverted_get_data_result_cached_witness :
  exists item s',
    InvertedIndexCache.get_data data_de 1 3 (MkFileOffset 5) 1 inv0 = Ok item s' /\
    InvertedIndexCache.data_registry s' !! InvertedIndexCache.combine_index (MkFileOffset 5) 0 = Some item.
Proof.
  exists_ok.
  apply (inverted_get_data_result_cached data_de 1 3 (MkFileOffset 5) 1 inv0). exact E.
Defined.

Lemma inverted_get_sets_result_cached_witness :
  exists item s',
    InvertedIndexCache.get_sets sets_de 1 3 (MkFileOffset 0) 0 inv0 = Ok item s' /\
    InvertedIndexCache.sets_registry s' !! InvertedIndexCache.combine_index (MkFileOffset 0) 0 = Some item.
Proof.
  exists_ok.
  apply (inverted_get_sets_result_cached sets_de 1 3 (MkFileOffset 0) 0 inv0). exact E.
Defined.

Lemma dense_get_object_result_cached_witness :
  exists item s',
    DenseIndexCache.get_object dense_ok 3 DenseIndexCache.Acquired fi0 false dense0 = Ok item s' /\
    DenseIndexCache.Acquired <> DenseIndexCache.Poisoned /\
    DenseIndexCache.registry s' !! DenseIndexCache.combine_index fi0 false = Some item.
Proof.
  exists_ok.
  apply (dense_get_object_result_cached dense_ok 3 DenseIndexCache.Acquired fi0 false dense0).
  exact E.
Defined.

Lemma dense_force_load_then_get_witness :
  exists item s',
    DenseIndexCache.force_load_single_object dense_ok fi0 false dense0 = Ok item s' /\
    DenseIndexCache.get_lazy_object dense_ok 5 fi0 1 false (s', ∅) = Ok item (s', ∅).
Proof.
  exists_ok.
  apply (dense_force_load_then_get dense_ok fi0 false dense0). exact E.
Defined.

Lemma dense_get_prop_dedup_witness :
  exists p s',
    DenseIndexCache.get_prop prop_read (MkFileOffset 8) 4 props0 = Ok p s' /\
    DenseIndexCache.get_prop prop_read (MkFileOffset 8) 4 s' = Ok p s'.
Proof.
  exists_ok.
  apply (dense_get_prop_dedup prop_read (MkFileOffset 8) 4 props0). exact E.
Defined.

Lemma dense_load_region_nodes_witness :
  region_size false 7 dense0 = Ok 25 dense0 /\
  exists nodes s',
    DenseIndexCache.load_region dense_ok region_size 0 1 7 10 false dense0 = Ok nodes s' /\
    length nodes = Nat.min 1000 (Z.to_nat ((25 - 0 + 10 - 1) / 10)) /\
    forall j node, nodes !! j = Some node ->
      exists d, node = new_from_state (PL_Ready d (MkFileOffset (Z.of_nat j * 10 + 0)) 7 1) false.
Proof.
  split; [reflexivity|].
  apply (dense_load_region_nodes dense_ok region_size 0 1 7 10 25 false dense0 dense0).
  - intros fi lvl' s' sk. exists 3, s', sk. reflexivity.
  - reflexivity.
  - lia.
  - lia.
  - unfold u32_MAX. lia.
Defined.

Lemma lazy_item_vec_serialize_footprint_witness :
  exists bm',
    LazyItemVec_serialize item_ser item_vn item_vid [1; 2; 3] 0 bm0 = Ok 0 bm' /\
    bm_cursors bm' !! 0 = Some (0 + Z.of_nat ((length [1; 2; 3] + 255) / 256) * 2564
                                 + entries_size (fun _ => 4) [1; 2; 3]) /\
    unchanged_outside (bm_mem bm0) (bm_mem bm') 0
      (0 + Z.of_nat ((length [1; 2; 3] + 255) / 256) * 2564 + entries_size (fun _ => 4) [1; 2; 3]).
Proof.
  apply (lazy_item_vec_serialize_footprint item_ser item_vn item_vid item_peek (fun _ => 4)
           [1; 2; 3] 0 0 bm0).
  - discriminate.
  - do 3 (constructor; [apply item_peek_round_trips; lia|]). constructor.
  - reflexivity.
  - lia.
  - vm_compute. reflexivity.
Defined.
